(** * Apex Motors: session authority and request pipeline

    A shallow embedding of the Go sources [config.go], [jwt.go], [auth.go],
    [middleware.go], the stores of the data layer and the routes of [main.go],
    followed by the properties of token rotation, revocation, role
    separation and rate limiting.

    Conventions.
    - A [time.Time] is the number of nanoseconds since the Unix epoch, a
      [time.Duration] a number of nanoseconds, both in [Z].
    - The global maps [refreshTokens] and [rateLimiter] are fields of an
      explicit [State] threaded through a state monad [M].
    - [time.Now()] reads a clock: the [n]-th reading made by the process is
      [clock n], and the state counts the readings made so far.
    - The packages [github.com/golang-jwt/jwt/v5] and [encoding/json] are not
      part of the repository: they are interfaces ([JWT], [JSONDecoder]), the
      first with the law the proofs rely on ([JWTLaws]). The module
      [Reference] implements both, so that the program runs on concrete
      requests.
    - Goroutines interleave at the critical sections of [refreshTokensMu]
      ([refreshStep], [runSchedule]). *)

From Stdlib Require Import Ascii ZArith Lia.
From stdpp Require Import gmap strings list fin_maps sorting.

Open Scope Z_scope.

(** ** Time *)

Definition Time := Z.
Definition Duration := Z.

Definition Nanosecond : Duration := 1.
Definition Second : Duration := 1000000000 * Nanosecond.
Definition Minute : Duration := 60 * Second.
Definition Hour : Duration := 60 * Minute.

(** [t.Add(d)], [t.After(u)], [t.Before(u)]. *)
Definition Time_Add (t : Time) (d : Duration) : Time := t + d.
Definition Time_After (t u : Time) : bool := u <? t.
Definition Time_Before (t u : Time) : bool := t <? u.

(** [d.Seconds()] followed by the conversion [int(...)]. *)
Definition Duration_Seconds (d : Duration) : Z := Z.quot d Second.

(** ** config.go *)

Definition jwtSecret : string := "apex-motors-secret-change-in-production".

Definition accessTokenTTL : Duration := 15 * Minute.
Definition refreshTokenTTL : Duration := 7 * 24 * Hour.

Definition rateLimitWindow : Duration := Minute.
Definition rateLimitMax : Z := 10.

Definition demoUsername : string := "seller".
Definition demoPassword : string := "carmarket123".

(** ** Strings (package [strings]) *)

Fixpoint strip_prefix (prefix s : string) : option string :=
  match prefix, s with
  | EmptyString, _ => Some s
  | String a prefix', String b s' =>
      if decide (a = b) then strip_prefix prefix' s' else None
  | String _ _, EmptyString => None
  end.

(** [strings.TrimPrefix(s, prefix)]. *)
Definition TrimPrefix (s prefix : string) : string :=
  default s (strip_prefix prefix s).

(** [strings.Split(s, sep)[0]] for a separator of one byte: the part of [s]
    before the first separator, all of [s] when there is none. *)
Fixpoint SplitFirst (s : string) (sep : ascii) : string :=
  match s with
  | EmptyString => EmptyString
  | String c s' => if decide (c = sep) then EmptyString else String c (SplitFirst s' sep)
  end.

(** ** Models *)

(** [User] is the login request payload. *)
Record User := mkUser {
  User_Username : string;
  User_Password : string
}.

(** [jwt.NumericDate]: a time truncated to [jwt.TimePrecision], one second;
    the value is the number of whole seconds since the epoch. *)
Definition NumericDate := Z.

Definition NewNumericDate (t : Time) : NumericDate := t `div` Second.
Definition NumericDate_Time (d : NumericDate) : Time := d * Second.

(** [Claims] with the fields of the embedded [jwt.RegisteredClaims] that the
    validation of the library reads; a [nil] date is [None]. *)
Record Claims := mkClaims {
  Username : string;
  TokenType : string;
  ExpiresAt : option NumericDate;
  NotBefore : option NumericDate;
  IssuedAt : option NumericDate
}.

#[global] Instance Claims_eq_dec : EqDecision Claims.
Proof. solve_decision. Defined.

Record LoginResponse := mkLoginResponse {
  AccessToken : string;
  RefreshToken : string;
  ExpiresIn : Z;
  Message : string
}.

(** The [data interface{}] of the envelope, for the payloads of the auth API. *)
Inductive Payload :=
| DataNil
| DataLogin (l : LoginResponse)
| DataMap (m : gmap string string).

Record APIResponse := mkAPIResponse {
  Success : bool;
  Data : Payload;
  Error : string
}.

(** ** HTTP (package [net/http]) *)

Definition StatusOK : Z := 200.
Definition StatusBadRequest : Z := 400.
Definition StatusUnauthorized : Z := 401.
Definition StatusMethodNotAllowed : Z := 405.
Definition StatusTooManyRequests : Z := 429.
Definition StatusInternalServerError : Z := 500.

Definition MethodOptions : string := "OPTIONS".

(** The request. [Request_Context] holds the values attached by [context.WithValue],
    the most recent first. *)
Record Request := mkRequest {
  Method : string;
  URL_Path : string;
  Header : gmap string string;
  RemoteAddr : string;
  Body : string;
  Request_Context : list (string * Claims)
}.

(** [r.Header.Get(key)] for a key in canonical form. *)
Definition Header_Get (h : gmap string string) (key : string) : string :=
  default EmptyString (h !! key).

(** [r.WithContext(context.WithValue(r.Context(), key, claims))]. *)
Definition WithValue (r : Request) (key : string) (claims : Claims) : Request :=
  mkRequest (Method r) (URL_Path r) (Header r) (RemoteAddr r) (Body r)
            ((key, claims) :: Request_Context r).

(** [ctx.Value(key)]. *)
Fixpoint Context_Value (ctx : list (string * Claims)) (key : string) : option Claims :=
  match ctx with
  | [] => None
  | (k, v) :: ctx' => if decide (k = key) then Some v else Context_Value ctx' key
  end.

(** What a handler has written to its [http.ResponseWriter]: the headers,
    the status code and the JSON documents of the body. Every path of the
    handlers below writes the status once. *)
Record ResponseWriter := mkWriter {
  w_Header : gmap string string;
  w_Status : Z;
  w_Body : list APIResponse
}.

Definition newWriter : ResponseWriter := mkWriter ∅ 0 [].

Definition Header_Set (w : ResponseWriter) (key value : string) : ResponseWriter :=
  mkWriter (<[key := value]> (w_Header w)) (w_Status w) (w_Body w).

Definition WriteHeader (w : ResponseWriter) (code : Z) : ResponseWriter :=
  mkWriter (w_Header w) code (w_Body w).

Definition Encode (w : ResponseWriter) (v : APIResponse) : ResponseWriter :=
  mkWriter (w_Header w) (w_Status w) (w_Body w ++ [v]).

(** [respond] writes the JSON envelope. *)
Definition respond (w : ResponseWriter) (code : Z) (data : Payload) (errMsg : string)
  : ResponseWriter :=
  let w := Header_Set w "Content-Type" "application/json" in
  let w := WriteHeader w code in
  Encode w (mkAPIResponse (bool_decide (errMsg = EmptyString)) data errMsg).

(** ** Errors and results *)

Inductive error :=
| ErrSignatureInvalid
| ErrTokenInvalidClaims
| ErrTokenMalformed
| ErrTokenUnverifiable
| ErrTokenSignatureInvalid
| ErrTokenExpired
| ErrTokenNotValidYet
| ErrOther (msg : string).

(** A Go result [(v, err)] of which the value is read only when [err == nil]. *)
Inductive Result (A : Type) :=
| Ok (v : A)
| Err (e : error).
Arguments Ok {A} v.
Arguments Err {A} e.

Definition isOk {A} (r : Result A) : bool :=
  match r with Ok _ => true | Err _ => false end.

(** ** The package [github.com/golang-jwt/jwt/v5]

    The signing methods the package registers. *)
Inductive SigningMethod :=
| SigningMethodHS256 | SigningMethodHS384 | SigningMethodHS512
| SigningMethodRS256 | SigningMethodRS384 | SigningMethodRS512
| SigningMethodPS256 | SigningMethodPS384 | SigningMethodPS512
| SigningMethodES256 | SigningMethodES384 | SigningMethodES512
| SigningMethodEdDSA
| SigningMethodNone.

#[global] Instance SigningMethod_eq_dec : EqDecision SigningMethod.
Proof. solve_decision. Defined.

(** The type assertion of [t.Method] to a pointer to [jwt.SigningMethodHMAC]:
    the three HMAC methods are the values of that type. *)
Definition isSigningMethodHMAC (m : SigningMethod) : bool :=
  match m with
  | SigningMethodHS256 | SigningMethodHS384 | SigningMethodHS512 => true
  | _ => false
  end.

(** [jwt.Token], with the claims decoded into the [Claims] of the caller. *)
Record Token := mkToken {
  Raw : string;
  Token_Method : SigningMethod;
  Token_Claims : Claims;
  Valid : bool
}.

(** The primitives of the package.
    - [jwt_SignedString m c key] is
      [jwt.NewWithClaims(m, c).SignedString(key)];
    - [jwt_ParseUnverified s] splits [s], decodes its header and claims and
      looks up the method named by the header field [alg];
    - [jwt_Verify m s key] is [m.Verify] on the signing string and the
      signature of [s].
    Keys are byte strings, as [jwtSecret] is. *)
Class JWT := {
  jwt_SignedString : SigningMethod → Claims → string → Result string;
  jwt_ParseUnverified : string → Result (SigningMethod * Claims);
  jwt_Verify : SigningMethod → string → string → bool
}.

(** The package [encoding/json] on the two request bodies: the value of the
    decoded struct after [Decode], and its error. A failed [Decode] can leave
    fields it has already set. *)
Class JSONDecoder := {
  decodeUser : string → User * option error;
  decodeRefreshToken : string → string * option error
}.

(** [utf8.ValidString]: a JSON string holds valid UTF-8, and [encoding/json]
    replaces any other byte sequence when it marshals. *)
Definition in_range (lo hi : N) (c : ascii) : bool :=
  (lo <=? N_of_ascii c)%N && (N_of_ascii c <=? hi)%N.

Fixpoint utf8_valid_from (fuel : nat) (s : string) : bool :=
  match fuel with
  | O => match s with EmptyString => true | _ => false end
  | S fuel =>
    match s with
    | EmptyString => true
    | String a s1 =>
      if in_range 0 127 a then utf8_valid_from fuel s1
      else match s1 with
      | EmptyString => false
      | String b s2 =>
        if in_range 194 223 a then in_range 128 191 b && utf8_valid_from fuel s2
        else match s2 with
        | EmptyString => false
        | String c s3 =>
          if in_range 224 239 a then
            (if in_range 224 224 a then in_range 160 191 b
             else if in_range 237 237 a then in_range 128 159 b
             else in_range 128 191 b)
            && in_range 128 191 c && utf8_valid_from fuel s3
          else match s3 with
          | EmptyString => false
          | String d s4 =>
            in_range 240 244 a
            && (if in_range 240 240 a then in_range 144 191 b
                else if in_range 244 244 a then in_range 128 143 b
                else in_range 128 191 b)
            && in_range 128 191 c && in_range 128 191 d && utf8_valid_from fuel s4
          end
        end
      end
    end
  end.

Definition utf8_ValidString (s : string) : bool :=
  utf8_valid_from (String.length s) s.

(** ** The stores (data layer) and the state monad *)

(** A line written by [log.Printf] in [LoggingMiddleware]. *)
Inductive LogEntry :=
| LogRequest (method path ip : string)
| LogDone (method path : string) (elapsed : Duration).

Record State := mkState {
  refreshTokens : gmap string string;      (* token string -> username *)
  rateLimiter : gmap string (list Time);   (* IP -> request timestamps *)
  ticks : nat;                             (* clock readings made so far *)
  logged : list LogEntry
}.

Definition M (A : Type) : Type := State → A * State.

#[global] Instance M_ret : MRet M := λ A (a : A) (s : State), (a, s).
#[global] Instance M_bind : MBind M := λ A B (f : A → M B) (m : M A) (s : State),
  let (a, s') := m s in f a s'.

Definition get_state : M State := λ s, (s, s).

Definition set_refreshTokens (f : gmap string string → gmap string string) : M () :=
  λ s, ((), mkState (f (refreshTokens s)) (rateLimiter s) (ticks s) (logged s)).

Definition set_rateLimiter (f : gmap string (list Time) → gmap string (list Time)) : M () :=
  λ s, ((), mkState (refreshTokens s) (f (rateLimiter s)) (ticks s) (logged s)).

Definition log_Printf (e : LogEntry) : M () :=
  λ s, ((), mkState (refreshTokens s) (rateLimiter s) (ticks s) (logged s ++ [e])).

Definition initState : State := mkState ∅ ∅ 0 [].

(** The state after one more reading of the clock. *)
Definition tick (s : State) : State :=
  mkState (refreshTokens s) (rateLimiter s) (S (ticks s)) (logged s).

Section Program.

(** [clock n] is the [n]-th reading of [time.Now()] (counted from 0). *)
Variable clock : nat → Time.
Context {jwt : JWT} {json : JSONDecoder}.

Definition time_Now : M Time :=
  λ s, (clock (ticks s), tick s).

(** [time.Since(start)]. *)
Definition time_Since (start : Time) : M Duration :=
  now ← time_Now; mret (now - start).

(** *** middleware.go: [isRateLimited]

    The loop [for _, t := range rateLimiter[ip]] with its [append]. *)
Definition keepFresh (windowStart : Time) (old : list Time) : list Time :=
  fold_left (λ fresh t, if Time_After t windowStart then fresh ++ [t] else fresh)
            old [].

Definition isRateLimited (ip : string) : M bool :=
  now ← time_Now;
  let windowStart := Time_Add now (- rateLimitWindow) in
  s ← get_state;
  let fresh := keepFresh windowStart (default [] (rateLimiter s !! ip)) in
  let fresh := fresh ++ [now] in
  _ ← set_rateLimiter (<[ip := fresh]>);
  mret (rateLimitMax <? Z.of_nat (length fresh)).

(** *** jwt.go *)

(** [jwt.NewWithClaims(jwt.SigningMethodHS256, claims).SignedString(jwtSecret)]
    for the claims built from two readings of the clock. *)
Definition signToken (username tokenType : string) (ttl : Duration) : M (Result string) :=
  t_exp ← time_Now;
  t_iat ← time_Now;
  let claims := mkClaims username tokenType
                  (Some (NewNumericDate (Time_Add t_exp ttl)))
                  None
                  (Some (NewNumericDate t_iat)) in
  mret (jwt_SignedString SigningMethodHS256 claims jwtSecret).

(** [generateTokenPair]: the pair is read by the callers only when the
    error is [nil], so the three results are one [Result]. *)
Definition generateTokenPair (username : string) : M (Result (string * string)) :=
  at_ ← signToken username "access" accessTokenTTL;
  match at_ with
  | Err e => mret (Err e)
  | Ok accessToken =>
    rt ← signToken username "refresh" refreshTokenTTL;
    match rt with
    | Err e => mret (Err e)
    | Ok refreshToken =>
      (* Persist in server-side store so we can revoke it on logout *)
      _ ← set_refreshTokens (<[refreshToken := username]>);
      mret (Ok (accessToken, refreshToken))
    end
  end.

(** The key function passed to [jwt.ParseWithClaims]. *)
Definition keyFunc (t : Token) : Result string :=
  (* Reject tokens signed with anything other than HMAC *)
  if isSigningMethodHMAC (Token_Method t) then Ok jwtSecret
  else Err ErrSignatureInvalid.

(** The validation of the registered claims by the library, with the
    options of [jwt.ParseWithClaims]: [exp] and [nbf] are checked when
    present, [iat] is not. *)
Definition validateClaims (now : Time) (c : Claims) : Result () :=
  if negb (from_option (λ exp, Time_Before now (NumericDate_Time exp)) true (ExpiresAt c))
  then Err ErrTokenExpired
  else if negb (from_option (λ nbf, negb (Time_Before now (NumericDate_Time nbf))) true
                            (NotBefore c))
  then Err ErrTokenNotValidYet
  else Ok ().

(** [jwt.ParseWithClaims(tokenString, claims, keyFunc)]: parse, ask for the
    key, verify the signature, then validate the claims at the current
    time. *)
Definition ParseWithClaims (tokenString : string) (keyFunc : Token → Result string)
  : M (Result Token) :=
  match jwt_ParseUnverified tokenString with
  | Err _ => mret (Err ErrTokenMalformed)
  | Ok (method, claims) =>
    let token := mkToken tokenString method claims false in
    match keyFunc token with
    | Err _ => mret (Err ErrTokenUnverifiable)
    | Ok key =>
      if negb (jwt_Verify method tokenString key)
      then mret (Err ErrTokenSignatureInvalid)
      else
        now ← time_Now;
        match validateClaims now claims with
        | Err e => mret (Err e)
        | Ok _ => mret (Ok (mkToken tokenString method claims true))
        end
    end
  end.

Definition validateJWT (tokenString expectedType : string) : M (Result Claims) :=
  res ← ParseWithClaims tokenString keyFunc;
  match res with
  | Err _ => mret (Err ErrTokenInvalidClaims)
  | Ok token =>
    if negb (Valid token) then mret (Err ErrTokenInvalidClaims)
    (* Enforce the token type to prevent misuse *)
    else if decide (TokenType (Token_Claims token) ≠ expectedType)
    then mret (Err ErrTokenInvalidClaims)
    else mret (Ok (Token_Claims token))
  end.

(** *** auth.go *)

Definition Handler : Type := ResponseWriter → Request → M ResponseWriter.

Definition loginHandler : Handler := λ w r,
  let '(creds, err) := decodeUser (Body r) in
  if bool_decide (err ≠ None)
  then mret (respond w StatusBadRequest DataNil "invalid request body")
  else if bool_decide (User_Username creds ≠ demoUsername)
          || bool_decide (User_Password creds ≠ demoPassword)
  then mret (respond w StatusUnauthorized DataNil "invalid credentials")
  else
    pair ← generateTokenPair (User_Username creds);
    match pair with
    | Err _ => mret (respond w StatusInternalServerError DataNil "token generation failed")
    | Ok (access, refresh) =>
      mret (respond w StatusOK
              (DataLogin (mkLoginResponse access refresh
                            (Duration_Seconds accessTokenTTL) "login successful"))
              "")
    end.

(** The read of the store under [RLock], and the deletion under [Lock]. *)
Definition ledgerExists (token : string) : M bool :=
  s ← get_state; mret (bool_decide (is_Some (refreshTokens s !! token))).

Definition ledgerDelete (token : string) : M () :=
  set_refreshTokens (delete token).

Definition refreshHandler : Handler := λ w r,
  let '(body_RefreshToken, err) := decodeRefreshToken (Body r) in
  if bool_decide (err ≠ None)
  then mret (respond w StatusBadRequest DataNil "invalid request body")
  else
    (* Validate the JWT itself (signature + expiry + type) *)
    res ← validateJWT body_RefreshToken "refresh";
    match res with
    | Err _ => mret (respond w StatusUnauthorized DataNil "invalid refresh token")
    | Ok claims =>
      (* Check server-side store: token may have been revoked via logout *)
      exists_ ← ledgerExists body_RefreshToken;
      if negb exists_
      then mret (respond w StatusUnauthorized DataNil "refresh token revoked")
      else
        (* Rotate: delete the used token before issuing new ones *)
        _ ← ledgerDelete body_RefreshToken;
        pair ← generateTokenPair (Username claims);
        match pair with
        | Err _ =>
          mret (respond w StatusInternalServerError DataNil "token generation failed")
        | Ok (access, refresh) =>
          mret (respond w StatusOK
                  (DataLogin (mkLoginResponse access refresh
                                (Duration_Seconds accessTokenTTL) "tokens refreshed"))
                  "")
        end
    end.

Definition logoutHandler : Handler := λ w r,
  (* Decode is best-effort: logout succeeds even if body is missing *)
  let '(body_RefreshToken, _) := decodeRefreshToken (Body r) in
  _ ← (if bool_decide (body_RefreshToken ≠ EmptyString)
       then ledgerDelete body_RefreshToken
       else mret ());
  mret (respond w StatusOK (DataMap {[ "message" := "logged out" ]}) "").

(** *** middleware.go *)

Definition Middleware : Type := Handler → Handler.

(** [Chain]: the loop runs from the last middleware to the first. *)
Definition Chain (h : Handler) (mws : list Middleware) : Handler :=
  fold_left (λ h mw, mw h) (rev mws) h.

Definition getIP (r : Request) : string :=
  let xff := Header_Get (Header r) "X-Forwarded-For" in
  if bool_decide (xff ≠ EmptyString) then SplitFirst xff ","
  else SplitFirst (RemoteAddr r) ":".

Definition LoggingMiddleware : Middleware := λ next w r,
  start ← time_Now;
  _ ← log_Printf (LogRequest (Method r) (URL_Path r) (getIP r));
  w' ← next w r;
  elapsed ← time_Since start;
  _ ← log_Printf (LogDone (Method r) (URL_Path r) elapsed);
  mret w'.

Definition MethodMiddleware (method : string) : Middleware := λ next w r,
  if bool_decide (Method r ≠ method) && bool_decide (Method r ≠ MethodOptions)
  then mret (respond w StatusMethodNotAllowed DataNil "method not allowed")
  else next w r.

Definition RateLimitMiddleware : Middleware := λ next w r,
  limited ← isRateLimited (getIP r);
  if limited : bool
  then
    let w := Header_Set w "Retry-After" "60" in
    mret (respond w StatusTooManyRequests DataNil "rate limit exceeded — retry in 60s")
  else next w r.

Definition AuthMiddleware : Middleware := λ next w r,
  let authHeader := Header_Get (Header r) "Authorization" in
  if bool_decide (authHeader = EmptyString)
  then mret (respond w StatusUnauthorized DataNil "authorization header required")
  else
    (* Strip the "Bearer " prefix before validating *)
    let tokenStr := TrimPrefix authHeader "Bearer " in
    res ← validateJWT tokenStr "access";
    match res with
    | Err _ => mret (respond w StatusUnauthorized DataNil "invalid or expired access token")
    | Ok claims =>
      (* Store claims in context so handlers can access them without re-parsing *)
      next w (WithValue r "claims" claims)
    end.

(** *** main.go: the routes of the auth API *)

Definition route_login : Handler :=
  LoggingMiddleware (Chain loginHandler [RateLimitMiddleware; MethodMiddleware "POST"]).

Definition route_refresh : Handler :=
  LoggingMiddleware (Chain refreshHandler [RateLimitMiddleware; MethodMiddleware "POST"]).

Definition route_logout : Handler :=
  LoggingMiddleware (Chain logoutHandler [AuthMiddleware; MethodMiddleware "POST"]).

(** *** Concurrent requests

    Every request runs in its own goroutine. A section of code between
    [Lock]/[RLock] and the matching unlock runs without interference on
    the store, so an execution of several [refreshHandler]s is an
    interleaving of the steps below: one step for each critical section
    and one for the code that comes before it. [RefreshPC] is the point a
    goroutine has reached, with its local variables. *)
Inductive RefreshPC :=
| AtValidate (w : ResponseWriter) (r : Request)
| AtExists (w : ResponseWriter) (token : string) (claims : Claims)
| AtDelete (w : ResponseWriter) (token : string) (claims : Claims)
| AtSign (w : ResponseWriter) (claims : Claims)
| AtRecord (w : ResponseWriter) (username access refresh : string)
| Returned (w : ResponseWriter).

Definition refreshStep (pc : RefreshPC) : M RefreshPC :=
  match pc with
  | AtValidate w r =>
    (* Decode and validateJWT: no access to the store *)
    let '(body_RefreshToken, err) := decodeRefreshToken (Body r) in
    if bool_decide (err ≠ None)
    then mret (Returned (respond w StatusBadRequest DataNil "invalid request body"))
    else
      res ← validateJWT body_RefreshToken "refresh";
      match res with
      | Err _ =>
        mret (Returned (respond w StatusUnauthorized DataNil "invalid refresh token"))
      | Ok claims => mret (AtExists w body_RefreshToken claims)
      end
  | AtExists w token claims =>
    (* refreshTokensMu.RLock() ... RUnlock() *)
    exists_ ← ledgerExists token;
    if negb exists_
    then mret (Returned (respond w StatusUnauthorized DataNil "refresh token revoked"))
    else mret (AtDelete w token claims)
  | AtDelete w token claims =>
    (* refreshTokensMu.Lock(); delete; Unlock() *)
    _ ← ledgerDelete token;
    mret (AtSign w claims)
  | AtSign w claims =>
    (* generateTokenPair up to its critical section *)
    at_ ← signToken (Username claims) "access" accessTokenTTL;
    match at_ with
    | Err _ =>
      mret (Returned (respond w StatusInternalServerError DataNil "token generation failed"))
    | Ok accessToken =>
      rt ← signToken (Username claims) "refresh" refreshTokenTTL;
      match rt with
      | Err _ =>
        mret (Returned (respond w StatusInternalServerError DataNil
                          "token generation failed"))
      | Ok refreshToken => mret (AtRecord w (Username claims) accessToken refreshToken)
      end
    end
  | AtRecord w username access refresh =>
    (* refreshTokensMu.Lock(); refreshTokens[refreshToken] = username; Unlock() *)
    _ ← set_refreshTokens (<[refresh := username]>);
    mret (Returned (respond w StatusOK
                      (DataLogin (mkLoginResponse access refresh
                                    (Duration_Seconds accessTokenTTL) "tokens refreshed"))
                      ""))
  | Returned w => mret (Returned w)
  end.

(** The goroutine [i] of the pool makes its next step. *)
Definition stepGoroutine (pool : list RefreshPC) (i : nat) : M (list RefreshPC) :=
  match pool !! i with
  | None => mret pool
  | Some pc => pc' ← refreshStep pc; mret (<[i := pc']> pool)
  end.

(** A schedule names, step after step, the goroutine that runs. *)
Fixpoint runSchedule (schedule : list nat) (pool : list RefreshPC) : M (list RefreshPC) :=
  match schedule with
  | [] => mret pool
  | i :: schedule' => pool' ← stepGoroutine pool i; runSchedule schedule' pool'
  end.

(** *** Runs of the rate limiter: [n] checks in a row for one client. *)
Fixpoint checks (ip : string) (n : nat) : M (list bool) :=
  match n with
  | O => mret []
  | S n' => limited ← isRateLimited ip; rest ← checks ip n'; mret (limited :: rest)
  end.

(** The declared algorithm and the embedded type of a token string. *)
Definition declaredMethod (tokenString : string) : option SigningMethod :=
  match jwt_ParseUnverified tokenString with
  | Ok (method, _) => Some method
  | Err _ => None
  end.

Definition embeddedType (tokenString : string) : option string :=
  match jwt_ParseUnverified tokenString with
  | Ok (_, claims) => Some (TokenType claims)
  | Err _ => None
  end.

(** The claims [generateTokenPair] signs when the clock reads [t_exp] and
    then [t_iat]. *)
Definition issuedClaims (username tokenType : string) (ttl : Duration)
           (t_exp t_iat : Time) : Claims :=
  mkClaims username tokenType (Some (NewNumericDate (Time_Add t_exp ttl))) None
           (Some (NewNumericDate t_iat)).

(** The claims of the two tokens of a pair issued from the state [s]: the
    four readings of the clock are consecutive. *)
Definition accessClaims (username : string) (s : State) : Claims :=
  issuedClaims username "access" accessTokenTTL
               (clock (ticks s)) (clock (S (ticks s))).

Definition refreshClaims (username : string) (s : State) : Claims :=
  issuedClaims username "refresh" refreshTokenTTL
               (clock (S (S (ticks s)))) (clock (S (S (S (ticks s))))).

(** The conditions under which [validateJWT] accepts a token at time [now]
    and returns [claims]. *)
Definition accepts (now : Time) (tokenString expectedType : string) (claims : Claims)
  : Prop :=
  ∃ method,
    jwt_ParseUnverified tokenString = Ok (method, claims)
    ∧ isSigningMethodHMAC method = true
    ∧ jwt_Verify method tokenString jwtSecret = true
    ∧ validateClaims now claims = Ok ()
    ∧ TokenType claims = expectedType.

(** The two verifications of an access token issued for [subject]: with
    the expected type [access] it returns claims carrying the subject,
    with the expected type [refresh] it is refused, in both cases after
    the signature has been checked and the clock read. *)
Definition roundTrips (access subject : string) (s : State) : Prop :=
  (∃ claims, validateJWT access "access" s = (Ok claims, tick s)
             ∧ Username claims = subject ∧ TokenType claims = "access")
  ∧ validateJWT access "refresh" s = (Err ErrTokenInvalidClaims, tick s).

End Program.

(** The state in which the handler wrapped by [LoggingMiddleware] starts:
    the clock has been read and the request logged. *)
Definition entered (r : Request) (s : State) : State :=
  mkState (refreshTokens s) (rateLimiter s) (S (ticks s))
          (logged s ++ [LogRequest (Method r) (URL_Path r) (getIP r)]).

(** The refresh token carried by the response last written, if any. *)
Definition issuedRefreshToken (w : ResponseWriter) : option string :=
  match last (w_Body w) with
  | Some {| Data := DataLogin l |} => Some (RefreshToken l)
  | _ => None
  end.

(** The entries of a client's window that the check made at [now] counts. *)
Definition inWindow (now : Time) (t : Time) : Prop := now - rateLimitWindow < t.

#[global] Instance inWindow_dec now t : Decision (inWindow now t).
Proof. unfold inWindow. apply _. Defined.

Definition stored (s : State) (ip : string) : list Time :=
  default [] (rateLimiter s !! ip).

(** The law of the package [jwt] the proofs use: a token signed with an
    HMAC method parses back to its method and claims, and its signature
    verifies under the key that signed it. The strings of the claims are
    valid UTF-8, which survives the JSON encoding. *)
Class JWTLaws (jwt : JWT) : Prop := {
  sign_parse_verify : ∀ m c key tok,
    isSigningMethodHMAC m = true →
    utf8_ValidString (Username c) = true →
    utf8_ValidString (TokenType c) = true →
    jwt_SignedString m c key = Ok tok →
    jwt_ParseUnverified tok = Ok (m, c) ∧ jwt_Verify m tok key = true
}.

(** ** A reference implementation of the two packages

    A small executable model of [jwt] and [encoding/json] on a wire format of
    its own: it shows that [JWTLaws] can be met and lets the program run on
    concrete requests. A token is its header and claims field by field,
    followed by a keyed checksum. *)
Module Reference.

Definition allMethods : list SigningMethod :=
  [ SigningMethodHS256; SigningMethodHS384; SigningMethodHS512;
    SigningMethodRS256; SigningMethodRS384; SigningMethodRS512;
    SigningMethodPS256; SigningMethodPS384; SigningMethodPS512;
    SigningMethodES256; SigningMethodES384; SigningMethodES512;
    SigningMethodEdDSA; SigningMethodNone ].

(** [m.Alg()]. *)
Definition Alg (m : SigningMethod) : string :=
  match m with
  | SigningMethodHS256 => "HS256" | SigningMethodHS384 => "HS384"
  | SigningMethodHS512 => "HS512"
  | SigningMethodRS256 => "RS256" | SigningMethodRS384 => "RS384"
  | SigningMethodRS512 => "RS512"
  | SigningMethodPS256 => "PS256" | SigningMethodPS384 => "PS384"
  | SigningMethodPS512 => "PS512"
  | SigningMethodES256 => "ES256" | SigningMethodES384 => "ES384"
  | SigningMethodES512 => "ES512"
  | SigningMethodEdDSA => "EdDSA"
  | SigningMethodNone => "none"
  end.

(** [jwt.GetSigningMethod(alg)]. *)
Definition GetSigningMethod (alg : string) : option SigningMethod :=
  List.find (λ m, bool_decide (Alg m = alg)) allMethods.

(** A string field: every byte after a [+], closed by a dot. *)
Fixpoint encString (s rest : string) : string :=
  match s with
  | EmptyString => String "." rest
  | String a s' => String "+" (String a (encString s' rest))
  end.

Fixpoint decString (s : string) : option (string * string) :=
  match s with
  | String "." rest => Some (EmptyString, rest)
  | String "+" (String a s') =>
      match decString s' with
      | Some (x, rest) => Some (String a x, rest)
      | None => None
      end
  | _ => None
  end.

(** A number: its binary digits, the lowest first, closed by a dot. *)
Fixpoint encPos (p : positive) (rest : string) : string :=
  match p with
  | xH => String "." rest
  | xO p' => String "0" (encPos p' rest)
  | xI p' => String "1" (encPos p' rest)
  end.

Fixpoint decPos (s : string) : option (positive * string) :=
  match s with
  | String "." rest => Some (xH, rest)
  | String "0" s' =>
      match decPos s' with Some (p, rest) => Some (xO p, rest) | None => None end
  | String "1" s' =>
      match decPos s' with Some (p, rest) => Some (xI p, rest) | None => None end
  | _ => None
  end.

Definition encZ (z : Z) (rest : string) : string :=
  match z with
  | Z0 => String "z" rest
  | Zpos p => String "p" (encPos p rest)
  | Zneg p => String "n" (encPos p rest)
  end.

Definition decZ (s : string) : option (Z * string) :=
  match s with
  | String "z" rest => Some (Z0, rest)
  | String "p" s' =>
      match decPos s' with Some (p, rest) => Some (Zpos p, rest) | None => None end
  | String "n" s' =>
      match decPos s' with Some (p, rest) => Some (Zneg p, rest) | None => None end
  | _ => None
  end.

(** A date that may be absent. *)
Definition encDate (d : option NumericDate) (rest : string) : string :=
  match d with
  | None => String "-" rest
  | Some z => String "=" (encZ z rest)
  end.

Definition decDate (s : string) : option (option NumericDate * string) :=
  match s with
  | String "-" rest => Some (None, rest)
  | String "=" s' =>
      match decZ s' with Some (z, rest) => Some (Some z, rest) | None => None end
  | _ => None
  end.

(** Header and claims. *)
Definition encPayload (m : SigningMethod) (c : Claims) (rest : string) : string :=
  encString (Alg m)
    (encString (Username c)
       (encString (TokenType c)
          (encDate (ExpiresAt c) (encDate (NotBefore c) (encDate (IssuedAt c) rest))))).

Definition decPayload (s : string) : option (SigningMethod * Claims * string) :=
  '(alg, s) ← decString s;
  m ← GetSigningMethod alg;
  '(username, s) ← decString s;
  '(tokenType, s) ← decString s;
  '(exp, s) ← decDate s;
  '(nbf, s) ← decDate s;
  '(iat, s) ← decDate s;
  Some (m, mkClaims username tokenType exp nbf iat, s).

(** The keyed checksum that stands for the HMAC. *)
Definition modulus : N := 2305843009213693951.

Fixpoint digest (s : string) (h : N) : N :=
  match s with
  | EmptyString => h
  | String a s' => digest s' ((h * 257 + N_of_ascii a + 1) mod modulus)%N
  end.

Definition seed (m : SigningMethod) : N :=
  match m with
  | SigningMethodHS384 => 384
  | SigningMethodHS512 => 512
  | _ => 256
  end.

Definition signature (m : SigningMethod) (signingString key : string) : string :=
  encZ (Z.of_N (digest signingString (digest key (seed m)))) EmptyString.

(** With a key of bytes only the HMAC methods sign: the others answer
    that the key is of invalid type. *)
Definition SignedString (m : SigningMethod) (c : Claims) (key : string) : Result string :=
  if isSigningMethodHMAC m
  then Ok (encPayload m c (signature m (encPayload m c EmptyString) key))
  else Err (ErrOther "key is of invalid type").

Definition ParseUnverified (tokenString : string) : Result (SigningMethod * Claims) :=
  match decPayload tokenString with
  | Some (m, c, _) => Ok (m, c)
  | None => Err ErrTokenMalformed
  end.

Definition Verify (m : SigningMethod) (tokenString key : string) : bool :=
  isSigningMethodHMAC m &&
  match decPayload tokenString with
  | Some (m', c, sig) =>
      bool_decide (sig = signature m (encPayload m' c EmptyString) key)
  | None => false
  end.

#[export] Instance jwt : JWT := {|
  jwt_SignedString := SignedString;
  jwt_ParseUnverified := ParseUnverified;
  jwt_Verify := Verify
|}.

(** Request bodies: [refresh_token=<token>] and
    [username=<name>&password=<password>]. *)
Definition syntaxError : error := ErrOther "invalid character".

Definition decodeRefreshBody (body : string) : string * option error :=
  match strip_prefix "refresh_token=" body with
  | Some token => (token, None)
  | None => (EmptyString, Some syntaxError)
  end.

Definition decodeUserBody (body : string) : User * option error :=
  match strip_prefix "username=" body with
  | Some rest =>
      let username := SplitFirst rest "&" in
      match strip_prefix (username +:+ "&password=") rest with
      | Some password => (mkUser username password, None)
      | None => (mkUser username EmptyString, Some syntaxError)
      end
  | None => (mkUser EmptyString EmptyString, Some syntaxError)
  end.

#[export] Instance json : JSONDecoder := {|
  decodeUser := decodeUserBody;
  decodeRefreshToken := decodeRefreshBody
|}.

(** Two clocks: one that stands still, so that all readings fall in one
    second, and one that advances by a second at every reading. *)
Definition epoch : Time := 1700000000 * Second.
Definition frozenClock : nat → Time := λ _, epoch.
Definition steadyClock : nat → Time := λ n, epoch + Z.of_nat n * Second.

Definition post (path : string) (headers : gmap string string) (body : string) : Request :=
  mkRequest "POST" path headers "203.0.113.7:40000" body [].

(** A session: the demo user logs in on a server that has just started. *)
Definition loginRequest : Request :=
  post "/api/login" ∅ "username=seller&password=carmarket123".

Definition login (clock : nat → Time) : ResponseWriter * State :=
  loginHandler clock newWriter loginRequest initState.

(** The tokens of a login or refresh response. *)
Definition tokensOf (w : ResponseWriter) : string * string :=
  match w_Body w with
  | [ {| Data := DataLogin l |} ] => (AccessToken l, RefreshToken l)
  | _ => (EmptyString, EmptyString)
  end.

Definition accessOf (clock : nat → Time) : string := fst (tokensOf (fst (login clock))).
Definition refreshOf (clock : nat → Time) : string := snd (tokensOf (fst (login clock))).

Definition refreshRequest (token : string) : Request :=
  post "/api/refresh" ∅ ("refresh_token=" +:+ token).

Definition logoutRequest (authHeader body : string) : Request :=
  post "/api/logout" {[ "Authorization" := authHeader ]} body.

(** A signing backend that fails on access tokens, and a server whose
    store holds a refresh token signed before the failure set in. *)
Definition failingSigner : JWT := {|
  jwt_SignedString := λ m c key,
    if decide (TokenType c = "access") then Err (ErrOther "hash function unavailable")
    else SignedString m c key;
  jwt_ParseUnverified := ParseUnverified;
  jwt_Verify := Verify
|}.

Definition staleToken : string :=
  match SignedString SigningMethodHS256
          (mkClaims "seller" "refresh" (Some 1700604800) None (Some 1700000000))
          jwtSecret with
  | Ok token => token
  | Err _ => EmptyString
  end.

Definition staleState : State := mkState {[ staleToken := "seller" ]} ∅ 0 [].

(** A token that declares the algorithm none, with no signature. *)
Definition noneToken : string :=
  encPayload SigningMethodNone
    (mkClaims "seller" "access" (Some 1700000900) None (Some 1700000000)) EmptyString.

(** A token that declares HS384 and is signed with the secret. *)
Definition hs384Claims : Claims :=
  mkClaims "seller" "access" (Some 1700000900) None (Some 1700000000).

Definition hs384Token : string :=
  match SignedString SigningMethodHS384 hs384Claims jwtSecret with
  | Ok token => token
  | Err _ => EmptyString
  end.

End Reference.

(** ** Statements about strings *)

(** Whether the byte [c] occurs in [s]. *)
Fixpoint occurs (c : ascii) (s : string) : bool :=
  match s with
  | EmptyString => false
  | String a s' => bool_decide (a = c) || occurs c s'
  end.

(** ** The car handlers: [sortBy]

    The slice is a list updated by index; [less] is the closure passed by
    [getCarsHandler]. The loops never index out of range, where Go would
    panic. *)
Section SortBy.

Context {A : Type}.
Variable less : A → A → bool.

(** The body of the inner loop: [if !less(lst[i], lst[j])] swap. *)
Definition swapUnless (lst : list A) (i j : nat) : list A :=
  match lst !! i, lst !! j with
  | Some a, Some b => if negb (less a b) then <[i := b]> (<[j := a]> lst) else lst
  | _, _ => lst
  end.

(** [for j := ...; j < len(lst); j++], with [n] iterations to go. *)
Fixpoint sortBy_inner (n : nat) (i j : nat) (lst : list A) : list A :=
  match n with
  | O => lst
  | S n' => sortBy_inner n' i (S j) (swapUnless lst i j)
  end.

(** [for i := ...; i < len(lst)-1; i++], with [n] iterations to go. *)
Fixpoint sortBy_outer (n : nat) (i : nat) (lst : list A) : list A :=
  match n with
  | O => lst
  | S n' => sortBy_outer n' (S i) (sortBy_inner (length lst - (i + 1)) i (i + 1) lst)
  end.

Definition sortBy (lst : list A) : list A :=
  sortBy_outer (length lst - 1) 0 lst.

(** The same computation on the structure of the list: one pass carries
    the element of position [i] along the rest, and the passes follow each
    other on the rests. *)
Fixpoint pass (x : A) (rest : list A) : A * list A :=
  match rest with
  | [] => (x, [])
  | y :: ys =>
    if negb (less x y)
    then let '(m, ys') := pass y ys in (m, x :: ys')
    else let '(m, ys') := pass x ys in (m, y :: ys')
  end.

Fixpoint passes (n : nat) (lst : list A) : list A :=
  match n, lst with
  | S n', x :: rest => let '(m, rest') := pass x rest in m :: passes n' rest'
  | _, _ => lst
  end.

End SortBy.

(** ** The car store and the handlers of single listings

    Go's [int] has 64 bits: [x++] wraps around. *)
Definition MaxInt : Z := 2 ^ 63 - 1.
Definition wrap_int (z : Z) : Z := (z + 2 ^ 63) `mod` 2 ^ 64 - 2 ^ 63.

Definition StatusCreated : Z := 201.
Definition StatusForbidden : Z := 403.
Definition StatusNotFound : Z := 404.

Section Cars.

(** [float64] stays abstract: these handlers only compare a price with
    zero ([car.Price <= 0]). *)
Variable float64 : Type.
Variable Price_le_zero : float64 → bool.

Record CarListing := mkCar {
  ID : Z;
  Make : string;
  Model : string;
  Year : Z;
  Mileage : Z;
  FuelType : string;
  Transmission : string;
  Condition : string;
  Price : float64;
  Description : string;
  ImageURL : string;
  Seller : string;
  ListedAt : string;
  Views : Z
}.

(** The packages [encoding/json], [strconv] and [time] on what the
    handlers ask of them: the decoded listing with the error of [Decode],
    [strconv.Atoi], and [t.Format(time.RFC3339)]. *)
Variable decodeCarListing : string → CarListing * option error.
Variable Atoi : string → Result Z.
Variable Format_RFC3339 : Time → string.

(** The envelope and the response writer, for the payloads of the car
    API. *)
Inductive CarPayload :=
| CarNil
| CarOne (car : CarListing)
| CarMap (m : gmap string string).

Record CarAPIResponse := mkCarAPIResponse {
  car_Success : bool;
  car_Data : CarPayload;
  car_Error : string
}.

Record CarWriter := mkCarWriter {
  cw_Header : gmap string string;
  cw_Status : Z;
  cw_Body : list CarAPIResponse
}.

Definition respondCar (w : CarWriter) (code : Z) (data : CarPayload) (errMsg : string)
  : CarWriter :=
  mkCarWriter (<["Content-Type" := "application/json"]> (cw_Header w)) code
              (cw_Body w ++ [mkCarAPIResponse (bool_decide (errMsg = EmptyString))
                                              data errMsg]).

(** [carStore] and [nextID]. *)
Record CarStore := mkCarStore {
  carStore : gmap Z CarListing;
  nextID : Z
}.

(** A handler answers, or panics when the type assertion on the claims of
    the request context fails. *)
Inductive Outcome :=
| Responded (w : CarWriter)
| Panicked.

Definition CarHandler : Type :=
  CarWriter → Request → State * CarStore → Outcome * (State * CarStore).

(** [parseCarID]. *)
Definition parseCarID (path : string) : Result Z :=
  let raw := TrimPrefix path "/api/cars/" in
  Atoi raw.

Definition viewed (car : CarListing) : CarListing :=
  mkCar (ID car) (Make car) (Model car) (Year car) (Mileage car) (FuelType car)
        (Transmission car) (Condition car) (Price car) (Description car)
        (ImageURL car) (Seller car) (ListedAt car) (wrap_int (Views car + 1)).

Definition getCarHandler : CarHandler := λ w r '(s, cs),
  match parseCarID (URL_Path r) with
  | Err _ => (Responded (respondCar w StatusBadRequest CarNil "invalid car id"), (s, cs))
  | Ok id =>
    match carStore cs !! id with
    | None => (Responded (respondCar w StatusNotFound CarNil "car not found"), (s, cs))
    | Some car =>
      let car := viewed car in
      (Responded (respondCar w StatusOK (CarOne car) ""),
       (s, mkCarStore (<[id := car]> (carStore cs)) (nextID cs)))
    end
  end.

Section Clocked.

Variable clock : nat → Time.

(** The listing as [addCarHandler] stores it. *)
Definition listed (car : CarListing) (id : Z) (seller : string) (now : Time)
  : CarListing :=
  mkCar id (Make car) (Model car) (Year car) (Mileage car) (FuelType car)
        (Transmission car) (Condition car) (Price car) (Description car)
        (ImageURL car) seller (Format_RFC3339 now) 0.

Definition addCarHandler : CarHandler := λ w r '(s, cs),
  match Context_Value (Request_Context r) "claims" with
  | None => (Panicked, (s, cs))
  | Some claims =>
    let '(car, err) := decodeCarListing (Body r) in
    if bool_decide (err ≠ None)
    then (Responded (respondCar w StatusBadRequest CarNil "invalid request body"), (s, cs))
    (* Basic validation: all required fields must be present *)
    else if bool_decide (Make car = EmptyString) || bool_decide (Model car = EmptyString)
            || bool_decide (Year car = 0) || Price_le_zero (Price car)
    then (Responded (respondCar w StatusBadRequest CarNil
                                "make, model, year and price are required"), (s, cs))
    else
      let car := listed car (nextID cs) (Username claims) (clock (ticks s)) in
      (Responded (respondCar w StatusCreated (CarOne car) ""),
       (tick s, mkCarStore (<[ID car := car]> (carStore cs)) (wrap_int (nextID cs + 1))))
  end.

End Clocked.

Definition deleteCarHandler : CarHandler := λ w r '(s, cs),
  match Context_Value (Request_Context r) "claims" with
  | None => (Panicked, (s, cs))
  | Some claims =>
    match parseCarID (URL_Path r) with
    | Err _ => (Responded (respondCar w StatusBadRequest CarNil "invalid car id"), (s, cs))
    | Ok id =>
      match carStore cs !! id with
      | None => (Responded (respondCar w StatusNotFound CarNil "car not found"), (s, cs))
      | Some car =>
        if bool_decide (Seller car ≠ Username claims)
        then (Responded (respondCar w StatusForbidden CarNil
                                    "you can only delete your own listings"), (s, cs))
        else (Responded (respondCar w StatusOK
                                    (CarMap {[ "message" := "listing deleted" ]}) ""),
              (s, mkCarStore (delete id (carStore cs)) (nextID cs)))
      end
    end
  end.

(** A call of one of the three handlers, and a run of calls. *)
Inductive CarCall :=
| CallGet
| CallAdd
| CallDelete.

Definition serveCar (clock : nat → Time) (call : CarCall) : CarHandler :=
  match call with
  | CallGet => getCarHandler
  | CallAdd => addCarHandler clock
  | CallDelete => deleteCarHandler
  end.

Fixpoint serveCars (clock : nat → Time) (calls : list (CarCall * CarWriter * Request))
         (world : State * CarStore) : list Outcome * (State * CarStore) :=
  match calls with
  | [] => ([], world)
  | (call, w, r) :: calls' =>
    let '(out, world') := serveCar clock call w r world in
    let '(outs, world'') := serveCars clock calls' world' in
    (out :: outs, world'')
  end.

(** Every listing is stored under its own identifier, and the identifiers
    in use are positive and below [nextID]. *)
Definition storeOK (cs : CarStore) : Prop :=
  1 ≤ nextID cs
  ∧ ∀ id car, carStore cs !! id = Some car → ID car = id ∧ 1 ≤ id < nextID cs.

Definition emptyStore : CarStore := mkCarStore ∅ 1.

End Cars.

Arguments mkCar {float64}.
Arguments ID {float64}.
Arguments Make {float64}.
Arguments Model {float64}.
Arguments Year {float64}.
Arguments Mileage {float64}.
Arguments FuelType {float64}.
Arguments Transmission {float64}.
Arguments Condition {float64}.
Arguments Price {float64}.
Arguments Description {float64}.
Arguments ImageURL {float64}.
Arguments Seller {float64}.
Arguments ListedAt {float64}.
Arguments Views {float64}.
Arguments CarNil {float64}.
Arguments CarOne {float64}.
Arguments CarMap {float64}.
Arguments mkCarAPIResponse {float64}.
Arguments car_Success {float64}.
Arguments car_Data {float64}.
Arguments car_Error {float64}.
Arguments mkCarWriter {float64}.
Arguments cw_Header {float64}.
Arguments cw_Status {float64}.
Arguments cw_Body {float64}.
Arguments respondCar {float64}.
Arguments mkCarStore {float64}.
Arguments carStore {float64}.
Arguments nextID {float64}.
Arguments Responded {float64}.
Arguments Panicked {float64}.
Arguments viewed {float64}.
Arguments listed {float64}.
Arguments getCarHandler {float64}.
Arguments addCarHandler {float64}.
Arguments deleteCarHandler {float64}.
Arguments serveCar {float64}.
Arguments serveCars {float64}.
Arguments storeOK {float64}.
Arguments emptyStore {float64}.

(** ** A garage for the runs of the car handlers

    Prices in whole currency units, decimal identifiers, one body that
    decodes to a listing, and requests as [AuthMiddleware] hands them
    over. *)
Module Garage.

Definition price : Type := Z.

Definition Price_le_zero (p : price) : bool := p <=? 0.

Definition digit (a : ascii) : option Z :=
  let n := Z.of_N (N_of_ascii a) - 48 in
  if (0 <=? n) && (n <=? 9) then Some n else None.

Fixpoint digits (s : string) (acc : Z) : Result Z :=
  match s with
  | EmptyString => Ok acc
  | String a s' =>
    match digit a with
    | Some d => digits s' (10 * acc + d)
    | None => Err (ErrOther "invalid syntax")
    end
  end.

(** [strconv.Atoi] on unsigned decimal numerals within range. *)
Definition Atoi (s : string) : Result Z :=
  match s with
  | EmptyString => Err (ErrOther "invalid syntax")
  | _ => digits s 0
  end.

Definition Format_RFC3339 (t : Time) : string := "2023-11-14T22:13:20Z".

(** A body that names an identifier, a seller, a date and views of its
    own. *)
Definition civic : CarListing price :=
  mkCar 99 "Honda" "Civic" 2019 42000 "petrol" "manual" "used" 14500 "one owner" ""
        "mallory" "2001-01-01T00:00:00Z" 5.

Definition blank : CarListing price :=
  mkCar 0 "" "" 0 0 "" "" "" 0 "" "" "" "" 0.

Definition decodeCarListing (body : string) : CarListing price * option error :=
  if decide (body = "civic") then (civic, None)
  else (blank, Some (ErrOther "invalid character")).

Definition sellerClaims : Claims :=
  mkClaims "seller" "access" (Some 1700000900) None (Some 1700000000).

Definition buyerClaims : Claims :=
  mkClaims "buyer" "access" (Some 1700000900) None (Some 1700000000).

Definition carRequest (method path body : string) (claims : Claims) : Request :=
  mkRequest method path ∅ "203.0.113.7:40000" body [("claims", claims)].

Definition newCarWriter : CarWriter price := mkCarWriter ∅ 0 [].

Definition addCivic : CarCall * CarWriter price * Request :=
  (CallAdd, newCarWriter, carRequest "POST" "/api/cars/add" "civic" sellerClaims).

Definition getFirst : CarCall * CarWriter price * Request :=
  (CallGet, newCarWriter, carRequest "GET" "/api/cars/1" "" buyerClaims).

Definition deleteFirst (claims : Claims) : CarCall * CarWriter price * Request :=
  (CallDelete, newCarWriter, carRequest "DELETE" "/api/cars/1" "" claims).

Definition serve (clock : nat → Time)
  : list (CarCall * CarWriter price * Request) → State * CarStore price
    → list (Outcome price) * (State * CarStore price) :=
  serveCars Price_le_zero decodeCarListing Atoi Format_RFC3339 clock.

(** The store after the seller has listed the car on a server that has
    just started. *)
Definition stocked (clock : nat → Time) : State * CarStore price :=
  snd (serve clock [addCivic] (initState, emptyStore)).

End Garage.

(** ** The demo inventory

    The prices of the demo listings are constants converted to
    [float64]; [rand_Intn i n] is what [rand.Intn(n)] returns in iteration
    [i] of the loop. *)
Section Seed.

Context {float64 : Type}.
Variable float_of_Z : Z → float64.
Variable Format_RFC3339 : Time → string.
Variable rand_Intn : nat → Z → Z.
Variable clock : nat → Time.

Definition demo : list (CarListing float64) :=
  [ mkCar 0 "McLaren" "765LT" 2021 8200 "petrol" "automatic" "used" (float_of_Z 358000)
          "Track-focused supercar. Titanium exhaust, MSO carbon pack."
          "https://images.unsplash.com/photo-1621135802920-133df287f89c?w=800" "" "" 0;
    mkCar 0 "Porsche" "911 GT3" 2023 3100 "petrol" "manual" "certified" (float_of_Z 185000)
          "Weissach package, carbon ceramics, clubsport seats."
          "https://images.unsplash.com/photo-1503376780353-7e6692767b70?w=800" "" "" 0;
    mkCar 0 "BMW" "M5 CS" 2022 14000 "petrol" "automatic" "used" (float_of_Z 142000)
          "630hp, carbon roof, M bucket seats."
          "https://images.unsplash.com/photo-1555215695-3004980ad54e?w=800" "" "" 0;
    mkCar 0 "Tesla" "Model S Plaid" 2023 5600 "electric" "automatic" "certified"
          (float_of_Z 118000)
          "1020hp tri-motor. 0-100 in 2.1s. FSD included."
          "https://images.unsplash.com/photo-1560958089-b8a1929cea89?w=800" "" "" 0;
    mkCar 0 "Mercedes" "AMG GT R" 2021 11300 "petrol" "automatic" "used" (float_of_Z 167000)
          "585hp V8, aero package, Green Hell Magno paint."
          "https://images.unsplash.com/photo-1618843479313-40f8afb4b4d8?w=800" "" "" 0;
    mkCar 0 "Audi" "R8 V10 Plus" 2022 6700 "petrol" "automatic" "new" (float_of_Z 195000)
          "620hp naturally aspirated V10. Laser headlights."
          "https://images.unsplash.com/photo-1606016159991-dfe4f2746ad5?w=800" "" "" 0 ].

(** The listing as the loop stores it. *)
Definition seeded (car : CarListing float64) (id : Z) (i : nat) (now : Time)
  : CarListing float64 :=
  mkCar id (Make car) (Model car) (Year car) (Mileage car) (FuelType car)
        (Transmission car) (Condition car) (Price car) (Description car)
        (ImageURL car) "demo"
        (Format_RFC3339 (Time_Add now (- (Z.of_nat i * 5) * 24 * Hour)))
        (wrap_int (rand_Intn i 200 + 10)).

(** [for i, car := range cars], from iteration [i] on. *)
Fixpoint seedFrom (i : nat) (cars : list (CarListing float64))
         (world : State * CarStore float64) : State * CarStore float64 :=
  match cars with
  | [] => world
  | car :: rest =>
    let '(s, cs) := world in
    let car := seeded car (nextID cs) i (clock (ticks s)) in
    seedFrom (S i) rest
             (tick s, mkCarStore (<[ID car := car]> (carStore cs)) (wrap_int (nextID cs + 1)))
  end.

Definition seedDemoInventory (world : State * CarStore float64)
  : State * CarStore float64 :=
  seedFrom 0 demo world.

End Seed.

(** The garage after the demo inventory has been seeded. *)
Module Showroom.

Definition float_of_Z (z : Z) : Garage.price := z.

Definition rand_Intn (i : nat) (n : Z) : Z := (37 * Z.of_nat i + 11) `mod` n.

Definition seededWorld (clock : nat → Time) : State * CarStore Garage.price :=
  seedDemoInventory float_of_Z Garage.Format_RFC3339 rand_Intn clock (initState, emptyStore).

Definition visits : list (CarCall * CarWriter Garage.price * Request) :=
  [Garage.addCivic; Garage.getFirst; Garage.deleteFirst Garage.buyerClaims;
   Garage.deleteFirst Garage.sellerClaims].

End Showroom.

(** * Properties *)

(** ** The rate limiter *)

Section RateLimiter.

Variable clock : nat → Time.

Lemma fold_keep (windowStart : Time) (old acc : list Time) :
  fold_left (λ fresh t, if Time_After t windowStart then fresh ++ [t] else fresh) old acc
  = acc ++ filter (λ t, windowStart < t) old.
Proof.
  revert acc. induction old as [|t old IH]; intros acc; simpl.
  - by rewrite app_nil_r.
  - rewrite IH. unfold Time_After. rewrite filter_cons.
    destruct (Z.ltb_spec windowStart t); case_decide; try lia.
    + by rewrite <- app_assoc.
    + done.
Qed.

(** The loop of [isRateLimited] keeps the timestamps after the start of
    the window, in their order. *)
Lemma keepFresh_filter (now : Time) (old : list Time) :
  keepFresh (Time_Add now (- rateLimitWindow)) old = filter (inWindow now) old.
Proof.
  unfold keepFresh. rewrite fold_keep. simpl.
  apply list_filter_iff. intros t. unfold inWindow, Time_Add. lia.
Qed.

(** One check: the stored sequence becomes the in-window entries followed
    by the current time, and the answer compares its length with the
    maximum. *)
Lemma isRateLimited_eq (ip : string) (s : State) :
  let now := clock (ticks s) in
  let fresh := filter (inWindow now) (stored s ip) ++ [now] in
  isRateLimited clock ip s
  = (rateLimitMax <? Z.of_nat (length fresh),
     mkState (refreshTokens s) (<[ip := fresh]> (rateLimiter s)) (S (ticks s)) (logged s)).
Proof.
  unfold isRateLimited, time_Now, get_state, set_rateLimiter.
  unfold mbind, M_bind, mret, M_ret. cbn [rateLimiter tick].
  fold (stored s ip). by rewrite keepFresh_filter.
Qed.

Lemma stored_after_check (ip : string) (s : State) :
  stored (snd (isRateLimited clock ip s)) ip
  = filter (inWindow (clock (ticks s))) (stored s ip) ++ [clock (ticks s)].
Proof.
  rewrite isRateLimited_eq. unfold stored at 1. simpl. by rewrite lookup_insert_eq.
Qed.

Lemma limited_after_check (ip : string) (s : State) :
  fst (isRateLimited clock ip s)
  = (rateLimitMax <?
     Z.of_nat (length (filter (inWindow (clock (ticks s))) (stored s ip)
                       ++ [clock (ticks s)]))).
Proof. by rewrite isRateLimited_eq. Qed.

Lemma ticks_after_check (ip : string) (s : State) :
  ticks (snd (isRateLimited clock ip s)) = S (ticks s).
Proof. by rewrite isRateLimited_eq. Qed.

Lemma inWindow_now (now : Time) : inWindow now now.
Proof. unfold inWindow, rateLimitWindow, Minute, Second, Nanosecond. lia. Qed.

Lemma filter_all {A} (P : A → Prop) `{∀ x, Decision (P x)} (l : list A) :
  Forall P l → filter P l = l.
Proof.
  induction 1 as [|x l Hx Hl IH]; [done|].
  rewrite filter_cons. case_decide; [by rewrite IH | done].
Qed.

Lemma filter_none {A} (P : A → Prop) `{∀ x, Decision (P x)} (l : list A) :
  Forall (λ x, ¬ P x) l → filter P l = [].
Proof.
  induction 1 as [|x l Hx Hl IH]; [done|].
  rewrite filter_cons. case_decide; [done | by rewrite IH].
Qed.

(** A run of checks whose times all lie within one window of each other
    and of the stored entries: nothing is pruned, so the [k]-th check
    counts the entries it found and its [k+1] predecessors and itself. *)
Lemma checks_within_window (ip : string) (n : nat) : ∀ s : State,
  (∀ e k, e ∈ stored s ip → (k < n)%nat → inWindow (clock (ticks s + k)) e) →
  (∀ i j, (i < n)%nat → (j < n)%nat →
          inWindow (clock (ticks s + i)) (clock (ticks s + j))) →
  fst (checks clock ip n s)
  = map (λ k, rateLimitMax <? Z.of_nat (length (stored s ip) + k + 1)) (seq 0 n).
Proof.
  induction n as [|n IH]; intros s Hold Hburst; [done|].
  assert (Hkeep : filter (inWindow (clock (ticks s))) (stored s ip) = stored s ip).
  { apply filter_all, Forall_forall. intros e He.
    specialize (Hold e 0%nat He ltac:(lia)). by rewrite Nat.add_0_r in Hold. }
  pose proof (stored_after_check ip s) as Hst. rewrite Hkeep in Hst.
  pose proof (ticks_after_check ip s) as Htk.
  pose proof (limited_after_check ip s) as Hlim. rewrite Hkeep in Hlim.
  cbn [checks]. unfold mbind, M_bind, mret, M_ret.
  destruct (isRateLimited clock ip s) as [limited s'] eqn:Hrun.
  cbn [fst snd] in Hst, Htk, Hlim.
  specialize (IH s').
  destruct (checks clock ip n s') as [rest s''] eqn:Hrest.
  cbn [fst snd] in IH |- *. cbn [seq map]. f_equal.
  - rewrite Hlim, length_app. cbn [length]. do 2 f_equal. lia.
  - rewrite IH.
    + rewrite <- seq_shift, map_map. apply map_ext. intros k.
      rewrite Hst, length_app. cbn [length]. do 2 f_equal. lia.
    + intros e k He Hk. rewrite Htk. rewrite Hst in He.
      replace (S (ticks s) + k)%nat with (ticks s + S k)%nat by lia.
      apply elem_of_app in He as [He | He].
      * apply Hold; [done | lia].
      * apply list_elem_of_singleton in He as ->.
        specialize (Hburst (S k) 0%nat ltac:(lia) ltac:(lia)).
        by rewrite Nat.add_0_r in Hburst.
    + intros i j Hi Hj. rewrite Htk.
      replace (S (ticks s) + i)%nat with (ticks s + S i)%nat by lia.
      replace (S (ticks s) + j)%nat with (ticks s + S j)%nat by lia.
      apply Hburst; lia.
Qed.

End RateLimiter.

Section RateLimitClaims.

Variable clock : nat → Time.

Lemma check_after_inactivity (ip : string) (s : State) :
  (∀ e, e ∈ stored s ip → e ≤ clock (ticks s) - rateLimitWindow) →
  fst (isRateLimited clock ip s) = false
  ∧ stored (snd (isRateLimited clock ip s)) ip = [clock (ticks s)].
Proof.
  intros Hidle.
  assert (Hnone : filter (inWindow (clock (ticks s))) (stored s ip) = []).
  { apply filter_none, Forall_forall. intros e He. specialize (Hidle e He).
    unfold inWindow. lia. }
  rewrite limited_after_check, stored_after_check, Hnone. done.
Qed.

Lemma checks_S (ip : string) (n : nat) (s : State) :
  checks clock ip (S n) s
  = let '(limited, s1) := isRateLimited clock ip s in
    let '(rest, s2) := checks clock ip n s1 in
    (limited :: rest, s2).
Proof.
  cbn [checks]. unfold mbind, M_bind, mret, M_ret.
  destruct (isRateLimited clock ip s) as [limited s1].
  by destruct (checks clock ip n s1).
Qed.

Lemma burst_answers (t : Time) :
  false :: map (λ k, rateLimitMax <? Z.of_nat (length [t] + k + 1))
               (seq 0 (Z.to_nat rateLimitMax))
  = replicate (Z.to_nat rateLimitMax) false ++ [true].
Proof. vm_compute. reflexivity. Qed.

Lemma RateLimitMiddleware_eq (next : Handler) (w : ResponseWriter) (r : Request)
      (s : State) :
  RateLimitMiddleware clock next w r s
  = let '(limited, s') := isRateLimited clock (getIP r) s in
    if limited : bool
    then (respond (Header_Set w "Retry-After" "60") StatusTooManyRequests DataNil
                  "rate limit exceeded — retry in 60s", s')
    else next w r s'.
Proof.
  unfold RateLimitMiddleware, mbind, M_bind, mret, M_ret.
  destruct (isRateLimited clock (getIP r) s) as [[] s']; reflexivity.
Qed.

Lemma burst_after_inactivity (ip : string) (s : State) :
  (∀ e, e ∈ stored s ip → e ≤ clock (ticks s) - rateLimitWindow) →
  (∀ i j, (i ≤ Z.to_nat rateLimitMax)%nat → (j ≤ Z.to_nat rateLimitMax)%nat →
          inWindow (clock (ticks s + i)) (clock (ticks s + j))) →
  fst (checks clock ip (S (Z.to_nat rateLimitMax)) s)
  = replicate (Z.to_nat rateLimitMax) false ++ [true].
Proof.
  intros Hidle Hburst.
  destruct (check_after_inactivity ip s Hidle) as [Hfirst Hst].
  pose proof (ticks_after_check clock ip s) as Htk.
  pose proof burst_answers as Hans.
  remember (Z.to_nat rateLimitMax) as N eqn:HN.
  pose proof (checks_within_window clock ip N (snd (isRateLimited clock ip s))) as Hrest.
  rewrite checks_S.
  destruct (isRateLimited clock ip s) as [limited s1].
  cbn [fst snd] in Hfirst, Hst, Htk, Hrest. subst limited.
  destruct (checks clock ip N s1) as [rest s2].
  cbn [fst snd] in Hrest |- *.
  rewrite Hrest.
  - rewrite Hst. apply Hans.
  - intros e k He Hk. rewrite Hst in He. apply list_elem_of_singleton in He as ->.
    rewrite Htk. replace (S (ticks s) + k)%nat with (ticks s + S k)%nat by lia.
    specialize (Hburst (S k) 0%nat ltac:(lia) ltac:(lia)).
    by rewrite Nat.add_0_r in Hburst.
  - intros i j Hi Hj. rewrite Htk.
    replace (S (ticks s) + i)%nat with (ticks s + S i)%nat by lia.
    replace (S (ticks s) + j)%nat with (ticks s + S j)%nat by lia.
    apply Hburst; lia.
Qed.

Lemma RateLimitMiddleware_answer (next : Handler) (w : ResponseWriter) (r : Request)
      (s0 : State) :
  let '(limited, s1) := isRateLimited clock (getIP r) s0 in
  let '(w', s') := RateLimitMiddleware clock next w r s0 in
  if limited : bool
  then w_Status w' = StatusTooManyRequests
       ∧ w_Header w' !! "Retry-After" = Some "60"
       ∧ s' = s1
  else (w', s') = next w r s1.
Proof.
  rewrite RateLimitMiddleware_eq.
  destruct (isRateLimited clock (getIP r) s0) as [[] s1].
  - split; [reflexivity|]. split; [|reflexivity].
    unfold respond, Header_Set, WriteHeader, Encode. cbn [w_Header].
    rewrite lookup_insert_ne by done. apply lookup_insert_eq.
  - by destruct (next w r s1).
Qed.

(** C3. The check prunes the timestamps that are not after the start of
    the window, appends the current time and allows the request iff the
    count after the append is at most [rateLimitMax]. After a window of
    inactivity, a burst of [rateLimitMax + 1] requests of one client within
    one window has its first [rateLimitMax] requests allowed and the last
    one limited; a limited request is answered with 429 and
    [Retry-After: 60] without running the next handler, an allowed one is
    passed on; and the first request after a window of inactivity is
    allowed. *)
Theorem rate_limit_burst (ip : string) (s : State) :
  (∀ e, e ∈ stored s ip → e ≤ clock (ticks s) - rateLimitWindow) →
  (∀ i j, (i ≤ Z.to_nat rateLimitMax)%nat → (j ≤ Z.to_nat rateLimitMax)%nat →
          inWindow (clock (ticks s + i)) (clock (ticks s + j))) →
  (∀ s0, let now := clock (ticks s0) in
         let fresh := filter (inWindow now) (stored s0 ip) ++ [now] in
         stored (snd (isRateLimited clock ip s0)) ip = fresh
         ∧ (fst (isRateLimited clock ip s0) = false
            ↔ Z.of_nat (length fresh) ≤ rateLimitMax))
  ∧ fst (checks clock ip (S (Z.to_nat rateLimitMax)) s)
    = replicate (Z.to_nat rateLimitMax) false ++ [true]
  ∧ (∀ next w r s0, getIP r = ip →
       let '(limited, s1) := isRateLimited clock ip s0 in
       let '(w', s') := RateLimitMiddleware clock next w r s0 in
       if limited : bool
       then w_Status w' = StatusTooManyRequests
            ∧ w_Header w' !! "Retry-After" = Some "60"
            ∧ s' = s1
       else (w', s') = next w r s1)
  ∧ fst (isRateLimited clock ip s) = false.
Proof.
  intros Hidle Hburst. split; [|split; [|split]].
  - intros s0 now fresh. split; [apply stored_after_check|].
    rewrite limited_after_check. fold now. fold fresh. apply Z.ltb_ge.
  - by apply burst_after_inactivity.
  - intros next w r s0 <-. apply RateLimitMiddleware_answer.
  - by apply check_after_inactivity.
Qed.

(** C4, as amended. After a check made at time [now], the stored
    sequence of the client is its former in-window entries followed by
    [now]: every stored entry lies within the trailing window, the sequence
    has at most one entry more than before, and it has at most
    [rateLimitMax] entries exactly when the request is allowed. The
    timestamp of a limited request is stored as well. *)
Theorem window_after_check (ip : string) (s : State) :
  let now := clock (ticks s) in
  let s' := snd (isRateLimited clock ip s) in
  stored s' ip = filter (inWindow now) (stored s ip) ++ [now]
  ∧ Forall (inWindow now) (stored s' ip)
  ∧ (length (stored s' ip) ≤ S (length (stored s ip)))%nat
  ∧ (fst (isRateLimited clock ip s) = false
     ↔ Z.of_nat (length (stored s' ip)) ≤ rateLimitMax).
Proof.
  intros now s'. subst s'. rewrite stored_after_check, limited_after_check.
  fold now. repeat split.
  - apply Forall_app. split.
    + apply Forall_forall. intros e He. by apply list_elem_of_filter in He as [? _].
    + repeat constructor. apply inWindow_now.
  - rewrite length_app. simpl.
    pose proof (length_filter (inWindow now) (stored s ip)). lia.
  - intros H%Z.ltb_ge. done.
  - intros H. by apply Z.ltb_ge.
Qed.

End RateLimitClaims.

(** C3, at a burst of eleven requests made at one instant by a client that
    was never seen. *)
Lemma rate_limit_burst_witness :
  fst (checks Reference.frozenClock "203.0.113.7" 11 initState)
  = replicate 10 false ++ [true].
Proof.
  refine (proj1 (proj2 (rate_limit_burst Reference.frozenClock "203.0.113.7" initState _ _))).
  - intros e He. unfold stored in He. simpl in He. by apply elem_of_nil in He.
  - intros i j _ _. apply inWindow_now.
Defined.

(** C4 as stated fails: after the eleventh check of a burst the window of
    the client holds eleven entries, all of them within the trailing
    window, one more than [rateLimitMax]. *)
Lemma window_bound_counterexample :
  let ip := "203.0.113.7" in
  let s10 := snd (checks Reference.frozenClock ip 10 initState) in
  let s11 := snd (isRateLimited Reference.frozenClock ip s10) in
  ¬ (Z.of_nat (length (filter (inWindow (Reference.frozenClock (ticks s10))) (stored s11 ip)))
     ≤ rateLimitMax).
Proof. vm_compute. intros H. apply H. reflexivity. Qed.

(** ** Signing and validation *)

Section Tokens.

Variable clock : nat → Time.
Context {jwt : JWT} {json : JSONDecoder}.

Lemma signToken_eq (username tokenType : string) (ttl : Duration) (s : State) :
  signToken clock username tokenType ttl s
  = (jwt_SignedString SigningMethodHS256
       (issuedClaims username tokenType ttl (clock (ticks s)) (clock (S (ticks s))))
       jwtSecret,
     tick (tick s)).
Proof. reflexivity. Qed.

(** [validateJWT] in one piece: the clock is read only once the signature
    has been verified. *)
Lemma validateJWT_eq (tokenString expectedType : string) (s : State) :
  validateJWT clock tokenString expectedType s
  = match jwt_ParseUnverified tokenString with
    | Err _ => (Err ErrTokenInvalidClaims, s)
    | Ok (method, claims) =>
      if isSigningMethodHMAC method && jwt_Verify method tokenString jwtSecret
      then match validateClaims (clock (ticks s)) claims with
           | Err _ => (Err ErrTokenInvalidClaims, tick s)
           | Ok _ =>
             if decide (TokenType claims = expectedType)
             then (Ok claims, tick s)
             else (Err ErrTokenInvalidClaims, tick s)
           end
      else (Err ErrTokenInvalidClaims, s)
    end.
Proof.
  unfold validateJWT, ParseWithClaims, keyFunc, time_Now.
  unfold mbind, M_bind, mret, M_ret.
  destruct (jwt_ParseUnverified tokenString) as [[method claims]|e]; [|done].
  cbn [Token_Method].
  destruct (isSigningMethodHMAC method); [|done]. cbn [andb].
  destruct (jwt_Verify method tokenString jwtSecret); [|done]. cbn [negb].
  destruct (validateClaims (clock (ticks s)) claims) as [[]|e]; [|done].
  cbn [Valid negb Token_Claims].
  by repeat case_decide.
Qed.

Lemma validateJWT_Ok (tokenString expectedType : string) (s : State) (claims : Claims) :
  accepts (clock (ticks s)) tokenString expectedType claims →
  validateJWT clock tokenString expectedType s = (Ok claims, tick s).
Proof.
  intros (method & Hparse & Hhmac & Hverify & Hclaims & Htype).
  rewrite validateJWT_eq, Hparse, Hhmac, Hverify, Hclaims. cbn [andb].
  by case_decide.
Qed.

Lemma validateJWT_Ok_inv (tokenString expectedType : string) (s s' : State)
      (claims : Claims) :
  validateJWT clock tokenString expectedType s = (Ok claims, s') →
  accepts (clock (ticks s)) tokenString expectedType claims ∧ s' = tick s.
Proof.
  rewrite validateJWT_eq. unfold accepts.
  destruct (jwt_ParseUnverified tokenString) as [[method c]|e]; [|done].
  destruct (isSigningMethodHMAC method) eqn:Hhmac; [|done].
  destruct (jwt_Verify method tokenString jwtSecret) eqn:Hverify; [|done].
  cbn [andb].
  destruct (validateClaims (clock (ticks s)) c) as [[]|e] eqn:Hclaims; [|done].
  case_decide; [|done]. intros [= <- <-]. split; [|done]. by exists method.
Qed.

(** A rejection is always [jwt.ErrTokenInvalidClaims], and the stores are
    left as they were. *)
Lemma validateJWT_Err (tokenString expectedType : string) (s s' : State) (e : error) :
  validateJWT clock tokenString expectedType s = (Err e, s') →
  e = ErrTokenInvalidClaims
  ∧ refreshTokens s' = refreshTokens s ∧ rateLimiter s' = rateLimiter s.
Proof.
  rewrite validateJWT_eq.
  destruct (jwt_ParseUnverified tokenString) as [[method c]|e0].
  - destruct (isSigningMethodHMAC method && jwt_Verify method tokenString jwtSecret).
    + destruct (validateClaims (clock (ticks s)) c) as [[]|e1].
      * case_decide; [done|]. by intros [= <- <-].
      * by intros [= <- <-].
    + by intros [= <- <-].
  - by intros [= <- <-].
Qed.

Lemma validateJWT_stores (tokenString expectedType : string) (s : State) :
  refreshTokens (snd (validateJWT clock tokenString expectedType s)) = refreshTokens s
  ∧ rateLimiter (snd (validateJWT clock tokenString expectedType s)) = rateLimiter s.
Proof.
  destruct (validateJWT clock tokenString expectedType s) as [[c|e] s'] eqn:Hv.
  - by apply validateJWT_Ok_inv in Hv as [_ ->].
  - by apply validateJWT_Err in Hv as (_ & ? & ?).
Qed.

End Tokens.

(** ** Strings *)

Lemma strip_prefix_app (prefix s : string) :
  strip_prefix prefix (prefix +:+ s) = Some s.
Proof.
  induction prefix as [|a prefix IH]; [done|].
  simpl. by rewrite decide_True.
Qed.

Lemma TrimPrefix_app (prefix s : string) : TrimPrefix (prefix +:+ s) prefix = s.
Proof. unfold TrimPrefix. by rewrite strip_prefix_app. Qed.

Lemma TrimPrefix_None (prefix s : string) :
  strip_prefix prefix s = None → TrimPrefix s prefix = s.
Proof. unfold TrimPrefix. by intros ->. Qed.

(** ** Issuance *)

Section Issuance.

Variable clock : nat → Time.
Context {jwt : JWT} {json : JSONDecoder}.

Lemma generateTokenPair_eq (username : string) (s : State) :
  generateTokenPair clock username s
  = match jwt_SignedString SigningMethodHS256 (accessClaims clock username s) jwtSecret with
    | Err e => (Err e, tick (tick s))
    | Ok accessToken =>
      match jwt_SignedString SigningMethodHS256 (refreshClaims clock username s) jwtSecret with
      | Err e => (Err e, tick (tick (tick (tick s))))
      | Ok refreshToken =>
        (Ok (accessToken, refreshToken),
         mkState (<[refreshToken := username]> (refreshTokens s)) (rateLimiter s)
                 (S (S (S (S (ticks s))))) (logged s))
      end
    end.
Proof.
  unfold generateTokenPair, mbind, M_bind, mret, M_ret.
  rewrite signToken_eq. fold (accessClaims clock username s).
  destruct (jwt_SignedString _ (accessClaims clock username s) _); [|done].
  rewrite signToken_eq. cbn [tick ticks]. fold (refreshClaims clock username s).
  by destruct (jwt_SignedString _ (refreshClaims clock username s) _).
Qed.

Lemma generateTokenPair_Ok_inv (username : string) (s s1 : State)
      (access refresh : string) :
  generateTokenPair clock username s = (Ok (access, refresh), s1) →
  jwt_SignedString SigningMethodHS256 (accessClaims clock username s) jwtSecret = Ok access
  ∧ jwt_SignedString SigningMethodHS256 (refreshClaims clock username s) jwtSecret = Ok refresh
  ∧ s1 = mkState (<[refresh := username]> (refreshTokens s)) (rateLimiter s)
                 (S (S (S (S (ticks s))))) (logged s).
Proof.
  rewrite generateTokenPair_eq.
  destruct (jwt_SignedString _ (accessClaims clock username s) _) as [a|]; [|done].
  destruct (jwt_SignedString _ (refreshClaims clock username s) _) as [rt|]; [|done].
  by intros [= <- <- <-].
Qed.

(** A failed issuance records nothing. *)
Lemma generateTokenPair_Err (username : string) (s s1 : State) (e : error) :
  generateTokenPair clock username s = (Err e, s1) →
  refreshTokens s1 = refreshTokens s.
Proof.
  rewrite generateTokenPair_eq.
  destruct (jwt_SignedString _ (accessClaims clock username s) _) as [a|].
  - destruct (jwt_SignedString _ (refreshClaims clock username s) _) as [rt|]; [done|].
    by intros [= <- <-].
  - by intros [= <- <-].
Qed.

(** Issued claims carry an expiry and no [nbf]: they are valid until the
    expiry. *)
Lemma validateClaims_issued (now : Time) (username tokenType : string)
      (ttl : Duration) (t_exp t_iat : Time) :
  now < NumericDate_Time (NewNumericDate (Time_Add t_exp ttl)) →
  validateClaims now (issuedClaims username tokenType ttl t_exp t_iat) = Ok ().
Proof.
  intros Hnow. unfold validateClaims, issuedClaims, Time_Before. simpl.
  by apply Z.ltb_lt in Hnow as ->.
Qed.

Context {laws : JWTLaws jwt}.

Lemma utf8_access : utf8_ValidString "access" = true.
Proof. reflexivity. Qed.

Lemma utf8_refresh : utf8_ValidString "refresh" = true.
Proof. reflexivity. Qed.

(** A token signed by [generateTokenPair] is accepted for its own type
    until it expires. *)
Lemma issued_accepts (now : Time) (username tokenType : string) (ttl : Duration)
      (t_exp t_iat : Time) (tok : string) :
  utf8_ValidString username = true →
  utf8_ValidString tokenType = true →
  jwt_SignedString SigningMethodHS256
    (issuedClaims username tokenType ttl t_exp t_iat) jwtSecret = Ok tok →
  now < NumericDate_Time (NewNumericDate (Time_Add t_exp ttl)) →
  accepts now tok tokenType (issuedClaims username tokenType ttl t_exp t_iat).
Proof.
  intros Hu Ht Hsign Hnow.
  destruct (sign_parse_verify SigningMethodHS256
              (issuedClaims username tokenType ttl t_exp t_iat) _ _ eq_refl Hu Ht Hsign)
    as [Hparse Hverify].
  exists SigningMethodHS256. repeat split; try done.
  by apply validateClaims_issued.
Qed.

Lemma issued_embeddedType (username tokenType : string) (ttl : Duration)
      (t_exp t_iat : Time) (tok : string) :
  utf8_ValidString username = true →
  utf8_ValidString tokenType = true →
  jwt_SignedString SigningMethodHS256
    (issuedClaims username tokenType ttl t_exp t_iat) jwtSecret = Ok tok →
  embeddedType tok = Some tokenType.
Proof.
  intros Hu Ht Hsign.
  destruct (sign_parse_verify SigningMethodHS256
              (issuedClaims username tokenType ttl t_exp t_iat) _ _ eq_refl Hu Ht Hsign)
    as [Hparse _].
  unfold embeddedType. by rewrite Hparse.
Qed.

End Issuance.

(** ** The reference implementation meets the law *)

Module ReferenceLaws.
Import Reference.

Lemma decString_enc (s rest : string) : decString (encString s rest) = Some (s, rest).
Proof. induction s as [|a s IH]; [done|]. simpl. by rewrite IH. Qed.

Lemma decPos_enc (p : positive) (rest : string) : decPos (encPos p rest) = Some (p, rest).
Proof. induction p as [p IH|p IH|]; simpl; by rewrite ?IH. Qed.

Lemma decZ_enc (z : Z) (rest : string) : decZ (encZ z rest) = Some (z, rest).
Proof. destruct z; simpl; by rewrite ?decPos_enc. Qed.

Lemma decDate_enc (d : option NumericDate) (rest : string) :
  decDate (encDate d rest) = Some (d, rest).
Proof. destruct d; simpl; by rewrite ?decZ_enc. Qed.

Lemma GetSigningMethod_Alg (m : SigningMethod) : GetSigningMethod (Alg m) = Some m.
Proof. by destruct m. Qed.

Lemma decPayload_enc (m : SigningMethod) (c : Claims) (rest : string) :
  decPayload (encPayload m c rest) = Some (m, c, rest).
Proof.
  unfold decPayload, encPayload.
  rewrite decString_enc. cbn [mbind option_bind].
  rewrite GetSigningMethod_Alg. cbn [mbind option_bind].
  do 2 (rewrite decString_enc; cbn [mbind option_bind]).
  do 3 (rewrite decDate_enc; cbn [mbind option_bind]).
  by destruct c.
Qed.

#[export] Instance laws : JWTLaws Reference.jwt.
Proof.
  constructor. intros m c key tok Hhmac _ _. simpl.
  unfold SignedString, ParseUnverified, Verify. rewrite Hhmac.
  intros [= <-]. rewrite decPayload_enc. split; [done|].
  by rewrite bool_decide_true.
Qed.

End ReferenceLaws.

(** ** The handlers in one piece *)

Section Handlers.

Variable clock : nat → Time.
Context {jwt : JWT} {json : JSONDecoder}.

Lemma AuthMiddleware_eq (next : Handler) (w : ResponseWriter) (r : Request) (s : State) :
  AuthMiddleware clock next w r s
  = let authHeader := Header_Get (Header r) "Authorization" in
    if decide (authHeader = EmptyString)
    then (respond w StatusUnauthorized DataNil "authorization header required", s)
    else match validateJWT clock (TrimPrefix authHeader "Bearer ") "access" s with
         | (Err _, s') =>
           (respond w StatusUnauthorized DataNil "invalid or expired access token", s')
         | (Ok claims, s') => next w (WithValue r "claims" claims) s'
         end.
Proof.
  unfold AuthMiddleware. cbv zeta.
  destruct (decide (Header_Get (Header r) "Authorization" = EmptyString)) as [He|He].
  - by rewrite bool_decide_true.
  - rewrite bool_decide_false by done. unfold mbind, M_bind, mret, M_ret.
    by destruct (validateJWT clock _ "access" s) as [[c|e] s'].
Qed.

(** The state in which [generateTokenPair] runs during a rotation. *)
Lemma refreshHandler_eq (w : ResponseWriter) (r : Request) (s : State) :
  refreshHandler clock w r s
  = let '(token, err) := decodeRefreshToken (Body r) in
    if decide (err = None)
    then match validateJWT clock token "refresh" s with
         | (Err _, s1) =>
           (respond w StatusUnauthorized DataNil "invalid refresh token", s1)
         | (Ok claims, s1) =>
           if decide (is_Some (refreshTokens s1 !! token))
           then match generateTokenPair clock (Username claims)
                        (mkState (delete token (refreshTokens s1)) (rateLimiter s1)
                                 (ticks s1) (logged s1)) with
                | (Err _, s2) =>
                  (respond w StatusInternalServerError DataNil "token generation failed",
                   s2)
                | (Ok (access, refresh), s2) =>
                  (respond w StatusOK
                     (DataLogin (mkLoginResponse access refresh
                                   (Duration_Seconds accessTokenTTL) "tokens refreshed"))
                     "", s2)
                end
           else (respond w StatusUnauthorized DataNil "refresh token revoked", s1)
         end
    else (respond w StatusBadRequest DataNil "invalid request body", s).
Proof.
  unfold refreshHandler.
  destruct (decodeRefreshToken (Body r)) as [token err].
  destruct (decide (err = None)) as [He|He].
  - rewrite bool_decide_false by (by intros ?).
    unfold mbind, M_bind, mret, M_ret.
    destruct (validateJWT clock token "refresh" s) as [[claims|e] s1]; [|done].
    unfold ledgerExists, ledgerDelete, get_state, set_refreshTokens.
    unfold mbind, M_bind, mret, M_ret.
    destruct (decide (is_Some (refreshTokens s1 !! token))) as [Hin|Hin].
    + rewrite bool_decide_true by done. cbn [negb].
      by destruct (generateTokenPair clock (Username claims) _) as [[[a rt]|e] s2].
    + by rewrite bool_decide_false by done.
  - by rewrite bool_decide_true by done.
Qed.

Lemma logoutHandler_eq (w : ResponseWriter) (r : Request) (s : State) :
  logoutHandler w r s
  = (respond w StatusOK (DataMap {[ "message" := "logged out" ]}) "",
     let token := fst (decodeRefreshToken (Body r)) in
     if decide (token = EmptyString) then s
     else mkState (delete token (refreshTokens s)) (rateLimiter s) (ticks s) (logged s)).
Proof.
  unfold logoutHandler.
  destruct (decodeRefreshToken (Body r)) as [token err]. cbn [fst].
  unfold mbind, M_bind, mret, M_ret.
  destruct (decide (token = EmptyString)) as [He|He].
  - by rewrite bool_decide_false by (by intros ?).
  - by rewrite bool_decide_true by done.
Qed.

End Handlers.

(** ** Role separation, algorithms and the bearer prefix *)

Section Guards.

Variable clock : nat → Time.
Context {jwt : JWT} {json : JSONDecoder}.

(** C5. A token whose embedded type differs from the expected one (or
    that embeds none) fails verification. Hence a refresh token in the
    [Authorization] header of a route behind [AuthMiddleware] is answered
    with 401 and the next handler does not run, and an access token sent
    for rotation is answered with 401 and leaves the store untouched. *)
Theorem role_separation (tok expected : string) (s : State) :
  embeddedType tok ≠ Some expected →
  fst (validateJWT clock tok expected s) = Err ErrTokenInvalidClaims
  ∧ (expected = "access" → ∀ (next : Handler) w r,
       Header_Get (Header r) "Authorization" ≠ EmptyString →
       TrimPrefix (Header_Get (Header r) "Authorization") "Bearer " = tok →
       ∃ s', AuthMiddleware clock next w r s
             = (respond w StatusUnauthorized DataNil "invalid or expired access token", s')
             ∧ refreshTokens s' = refreshTokens s)
  ∧ (expected = "refresh" → ∀ w r,
       decodeRefreshToken (Body r) = (tok, None) →
       ∃ s', refreshHandler clock w r s
             = (respond w StatusUnauthorized DataNil "invalid refresh token", s')
             ∧ refreshTokens s' = refreshTokens s).
Proof.
  intros Htype.
  assert (Hfail : ∃ s', validateJWT clock tok expected s = (Err ErrTokenInvalidClaims, s')
                        ∧ refreshTokens s' = refreshTokens s).
  { destruct (validateJWT clock tok expected s) as [[c|e] s'] eqn:Hv.
    - apply validateJWT_Ok_inv in Hv as [(m & Hparse & _ & _ & _ & Hty) _].
      exfalso. apply Htype. unfold embeddedType. by rewrite Hparse, Hty.
    - apply validateJWT_Err in Hv as (-> & Hled & _). by exists s'. }
  destruct Hfail as (s' & Hv & Hled). split; [by rewrite Hv|]. split.
  - intros -> next w r Hne Htok. exists s'.
    rewrite AuthMiddleware_eq. cbv zeta. rewrite decide_False by done.
    by rewrite Htok, Hv.
  - intros -> w r Hbody. exists s'.
    rewrite refreshHandler_eq, Hbody. rewrite decide_True by done.
    by rewrite Hv.
Qed.

(** C6, as amended. Verification fails, before the clock is read, for
    every token whose declared algorithm is not one of the HMAC methods
    HS256, HS384 and HS512, whatever its payload; this covers the
    algorithm none and a header that names no known algorithm. *)
Theorem non_hmac_algorithm_rejected (tok expected : string) (s : State) :
  declaredMethod tok ≠ Some SigningMethodHS256 →
  declaredMethod tok ≠ Some SigningMethodHS384 →
  declaredMethod tok ≠ Some SigningMethodHS512 →
  validateJWT clock tok expected s = (Err ErrTokenInvalidClaims, s).
Proof.
  unfold declaredMethod. intros H256 H384 H512. rewrite validateJWT_eq.
  destruct (jwt_ParseUnverified tok) as [[m c]|e]; [|done].
  by destruct m.
Qed.

(** A token that declares any of the three HMAC methods and carries a
    signature made with the secret is accepted. *)
Lemma hmac_family_accepted `{!JWTLaws jwt} (m : SigningMethod) (c : Claims)
      (tok : string) (s : State) :
  isSigningMethodHMAC m = true →
  utf8_ValidString (Username c) = true →
  utf8_ValidString (TokenType c) = true →
  jwt_SignedString m c jwtSecret = Ok tok →
  validateClaims (clock (ticks s)) c = Ok () →
  declaredMethod tok = Some m
  ∧ validateJWT clock tok (TokenType c) s = (Ok c, tick s).
Proof.
  intros Hm Hu Ht Hsign Hvalid.
  destruct (sign_parse_verify m c _ _ Hm Hu Ht Hsign) as [Hparse Hverify].
  split; [unfold declaredMethod; by rewrite Hparse|].
  apply validateJWT_Ok. by exists m.
Qed.

(** C10. [AuthMiddleware] validates the header value without a leading
    [Bearer ] when it has one and the value as it is otherwise. It
    answers 401, without running the next handler and without touching
    the store, when the header is empty or that token fails validation;
    in every other case it runs the next handler on the request with the
    claims attached, so an access token sent without the prefix is
    accepted. *)
Theorem bearer_prefix_optional (next : Handler) (w : ResponseWriter) (r : Request)
        (s : State) :
  let authHeader := Header_Get (Header r) "Authorization" in
  let tokenStr := TrimPrefix authHeader "Bearer " in
  (∀ tok, authHeader = "Bearer " +:+ tok → tokenStr = tok)
  ∧ (strip_prefix "Bearer " authHeader = None → tokenStr = authHeader)
  ∧ (authHeader = EmptyString ∨ isOk (fst (validateJWT clock tokenStr "access" s)) = false →
     ∃ msg s', AuthMiddleware clock next w r s
               = (respond w StatusUnauthorized DataNil msg, s')
               ∧ refreshTokens s' = refreshTokens s)
  ∧ (∀ claims, authHeader ≠ EmptyString →
       fst (validateJWT clock tokenStr "access" s) = Ok claims →
       AuthMiddleware clock next w r s = next w (WithValue r "claims" claims) (tick s)
       ∧ Context_Value (Request_Context (WithValue r "claims" claims)) "claims" = Some claims).
Proof.
  intros authHeader tokenStr. subst tokenStr. split; [|split; [|split]].
  - intros tok ->. apply TrimPrefix_app.
  - apply TrimPrefix_None.
  - intros Hrej. rewrite AuthMiddleware_eq. cbv zeta. fold authHeader.
    destruct (decide (authHeader = EmptyString)) as [He|He]; [by eauto|].
    destruct Hrej as [?|Hrej]; [done|].
    destruct (validateJWT clock _ "access" s) as [[c|e] s'] eqn:Hv; [done|].
    apply validateJWT_Err in Hv as (_ & Hled & _). eauto.
  - intros claims Hne Hv. rewrite AuthMiddleware_eq. cbv zeta. fold authHeader.
    rewrite decide_False by done.
    destruct (validateJWT clock _ "access" s) as [[c|e] s'] eqn:Hv'; [|done].
    cbn [fst] in Hv. injection Hv as ->.
    apply validateJWT_Ok_inv in Hv' as [_ ->]. split; [done|].
    cbn [WithValue Request_Context Context_Value]. by rewrite decide_True.
Qed.

End Guards.

(** ** Login, and the round trip of an access token *)

Section RoundTrip.

Variable clock : nat → Time.
Context {jwt : JWT} {json : JSONDecoder} {laws : JWTLaws jwt}.

Lemma loginHandler_eq (w : ResponseWriter) (r : Request) (s : State) :
  loginHandler clock w r s
  = let '(creds, err) := decodeUser (Body r) in
    if decide (err = None)
    then if decide (User_Username creds = demoUsername
                    ∧ User_Password creds = demoPassword)
         then match generateTokenPair clock (User_Username creds) s with
              | (Err _, s1) =>
                (respond w StatusInternalServerError DataNil "token generation failed",
                 s1)
              | (Ok (access, refresh), s1) =>
                (respond w StatusOK
                   (DataLogin (mkLoginResponse access refresh
                                 (Duration_Seconds accessTokenTTL) "login successful"))
                   "", s1)
              end
         else (respond w StatusUnauthorized DataNil "invalid credentials", s)
    else (respond w StatusBadRequest DataNil "invalid request body", s).
Proof.
  unfold loginHandler. destruct (decodeUser (Body r)) as [creds err].
  destruct (decide (err = None)) as [He|He].
  - rewrite bool_decide_false by (by intros ?).
    destruct (decide (_ ∧ _)) as [[Hu Hp]|Hcreds].
    + rewrite !bool_decide_false by (by intros ?). cbn [orb].
      unfold mbind, M_bind, mret, M_ret.
      by destruct (generateTokenPair clock _ s) as [[[a rt]|e] s1].
    + destruct (decide (User_Username creds = demoUsername)) as [Hu|Hu].
      * rewrite (bool_decide_false (_ ≠ demoUsername)) by (by intros ?).
        rewrite bool_decide_true; [done|]. intros Hp. by apply Hcreds.
      * by rewrite bool_decide_true.
  - by rewrite bool_decide_true.
Qed.

Lemma generateTokenPair_round_trip (username access refresh : string)
      (s s1 s2 : State) :
  utf8_ValidString username = true →
  generateTokenPair clock username s = (Ok (access, refresh), s1) →
  clock (ticks s2)
  < NumericDate_Time (NewNumericDate (Time_Add (clock (ticks s)) accessTokenTTL)) →
  roundTrips clock access username s2.
Proof.
  intros Hu Hgen Hnow.
  apply generateTokenPair_Ok_inv in Hgen as (Ha & _ & _).
  pose proof (issued_accepts _ _ _ _ _ _ _ Hu utf8_access Ha Hnow) as Hacc.
  split.
  - exists (accessClaims clock username s). split; [by apply validateJWT_Ok|done].
  - destruct Hacc as (m & Hparse & Hm & Hverify & Hclaims & _).
    rewrite validateJWT_eq, Hparse, Hm, Hverify, Hclaims. cbn [andb].
    by rewrite decide_False.
Qed.

Lemma utf8_demoUsername : utf8_ValidString demoUsername = true.
Proof. reflexivity. Qed.

(** C8. Let [s2] be a state in which the clock has not reached the expiry
    of the access token issued from [s]. For every subject (a string of
    valid UTF-8), the access token of a generated pair verifies with the
    expected type [access] to claims carrying that subject, and with the
    expected type [refresh] it is refused at the token-type check. The
    same holds for the access token in the response of a successful
    login, whose subject is the user name of the request. *)
Theorem issue_verify_round_trip (s s2 : State) :
  clock (ticks s2)
  < NumericDate_Time (NewNumericDate (Time_Add (clock (ticks s)) accessTokenTTL)) →
  (∀ username access refresh s1,
     utf8_ValidString username = true →
     generateTokenPair clock username s = (Ok (access, refresh), s1) →
     roundTrips clock access username s2)
  ∧ (∀ w r w' s1,
       loginHandler clock w r s = (w', s1) →
       w_Status w' = StatusOK →
       ∃ access refresh,
         w_Body w' = w_Body w
                     ++ [mkAPIResponse true
                           (DataLogin (mkLoginResponse access refresh 900
                                         "login successful")) ""]
         ∧ roundTrips clock access (User_Username (fst (decodeUser (Body r)))) s2).
Proof.
  intros Hnow. split.
  - intros username access refresh s1 Hu Hgen.
    by eapply generateTokenPair_round_trip.
  - intros w r w' s1. rewrite loginHandler_eq.
    destruct (decodeUser (Body r)) as [creds err]. cbn [fst].
    destruct (decide (err = None)); [|by intros [= <- <-]].
    destruct (decide (_ ∧ _)) as [[Hu Hp]|]; [|by intros [= <- <-]].
    destruct (generateTokenPair clock _ s) as [[[a rt]|e'] s1'] eqn:Hgen;
      [|by intros [= <- <-]].
    intros [= <- <-] _. exists a, rt. split; [done|].
    eapply generateTokenPair_round_trip; [|exact Hgen|exact Hnow].
    rewrite Hu. apply utf8_demoUsername.
Qed.

End RoundTrip.

(** ** Logout *)

Section Logout.

Variable clock : nat → Time.
Context {jwt : JWT} {json : JSONDecoder}.

Lemma Chain_two (h : Handler) (a b : Middleware) : Chain h [a; b] = a (b h).
Proof. reflexivity. Qed.

Lemma LoggingMiddleware_status (next : Handler) (w : ResponseWriter) (r : Request)
      (s : State) :
  fst (LoggingMiddleware clock next w r s) = fst (next w r (entered r s)).
Proof.
  unfold LoggingMiddleware, time_Since, time_Now, log_Printf.
  unfold mbind, M_bind, mret, M_ret.
  change (mkState (refreshTokens (tick s)) (rateLimiter (tick s)) (ticks (tick s))
                  (logged (tick s) ++ [LogRequest (Method r) (URL_Path r) (getIP r)]))
    with (entered r s).
  by destruct (next w r (entered r s)) as [w' s'].
Qed.

Lemma LoggingMiddleware_stores (next : Handler) (w : ResponseWriter) (r : Request)
      (s : State) :
  refreshTokens (snd (LoggingMiddleware clock next w r s))
  = refreshTokens (snd (next w r (entered r s))).
Proof.
  unfold LoggingMiddleware, time_Since, time_Now, log_Printf.
  unfold mbind, M_bind, mret, M_ret.
  change (mkState (refreshTokens (tick s)) (rateLimiter (tick s)) (ticks (tick s))
                  (logged (tick s) ++ [LogRequest (Method r) (URL_Path r) (getIP r)]))
    with (entered r s).
  by destruct (next w r (entered r s)) as [w' s'].
Qed.

(** C9, as amended. [logoutHandler] answers 200 with a success envelope
    for every request and every state: whether the token of the body is
    in the store, absent from it or empty, and whatever the decoder made
    of the body. The token, when not empty, is absent from the store
    afterwards and nothing else changes; a second logout with the same
    request answers 200 again and changes nothing. On the route
    [/api/logout] the caller gets this 200, for every body, when the
    request passes the two guards of the route: [AuthMiddleware] (an
    [Authorization] header with a valid access token) and then
    [MethodMiddleware] (POST or OPTIONS). A request that fails the first
    guard is answered 401 and one that fails the second 405, and the
    store is then left as it was. *)
Theorem logout_total_idempotent (w : ResponseWriter) (r : Request) (s : State) :
  let token := fst (decodeRefreshToken (Body r)) in
  let '(w1, s1) := logoutHandler w r s in
  let '(w2, s2) := logoutHandler w r s1 in
  (w_Status w1 = StatusOK
   ∧ last (w_Body w1)
     = Some (mkAPIResponse true (DataMap {[ "message" := "logged out" ]}) ""))
  ∧ (w_Status w2 = StatusOK
     ∧ last (w_Body w2)
       = Some (mkAPIResponse true (DataMap {[ "message" := "logged out" ]}) "")
     ∧ s2 = s1)
  ∧ (refreshTokens s1
     = if decide (token = EmptyString) then refreshTokens s
       else delete token (refreshTokens s))
  ∧ (token ≠ EmptyString → refreshTokens s1 !! token = None)
  ∧ (∀ claims,
       Method r = "POST" ∨ Method r = MethodOptions →
       Header_Get (Header r) "Authorization" ≠ EmptyString →
       fst (validateJWT clock (TrimPrefix (Header_Get (Header r) "Authorization")
                                          "Bearer ") "access" (entered r s))
       = Ok claims →
       w_Status (fst (route_logout clock w r s)) = StatusOK)
  ∧ (let authHeader := Header_Get (Header r) "Authorization" in
     let verdict := fst (validateJWT clock (TrimPrefix authHeader "Bearer ") "access"
                                     (entered r s)) in
     let answer := fst (route_logout clock w r s) in
     let store := refreshTokens (snd (route_logout clock w r s)) in
     (authHeader = EmptyString ∨ isOk verdict = false →
      w_Status answer = StatusUnauthorized ∧ store = refreshTokens s)
     ∧ (authHeader ≠ EmptyString → isOk verdict = true →
        Method r ≠ "POST" → Method r ≠ MethodOptions →
        w_Status answer = StatusMethodNotAllowed ∧ store = refreshTokens s)
     ∧ (authHeader ≠ EmptyString → isOk verdict = true →
        Method r = "POST" ∨ Method r = MethodOptions →
        w_Status answer = StatusOK
        ∧ store = if decide (token = EmptyString) then refreshTokens s
                  else delete token (refreshTokens s))).
Proof.
  intros token. rewrite !logoutHandler_eq. cbv zeta. fold token.
  assert (Hlast : ∀ w0 : ResponseWriter,
             last (w_Body (respond w0 StatusOK
                             (DataMap {[ "message" := "logged out" ]}) ""))
             = Some (mkAPIResponse true (DataMap {[ "message" := "logged out" ]}) "")).
  { intros w0. unfold respond, Encode. cbn [w_Body]. by rewrite last_snoc. }
  split; [by split|]. split; [|split; [|split; [|split]]].
  - split; [done|]. split; [done|].
    destruct (decide (token = EmptyString)); [done|].
    cbn [refreshTokens rateLimiter ticks logged]. by rewrite delete_delete_eq.
  - by destruct (decide (token = EmptyString)).
  - intros Hne. rewrite decide_False by done. cbn [refreshTokens].
    apply lookup_delete_eq.
  - intros claims Hmethod Hne Hv. unfold route_logout.
    rewrite LoggingMiddleware_status, Chain_two, AuthMiddleware_eq. cbv zeta.
    rewrite decide_False by done.
    destruct (validateJWT clock _ "access" (entered r s)) as [[c|e] s'] eqn:Hv'; [|done].
    unfold MethodMiddleware. cbn [WithValue Method].
    assert (Hpass : bool_decide (Method r ≠ "POST")
                    && bool_decide (Method r ≠ MethodOptions) = false).
    { destruct Hmethod as [-> | ->]; [done|].
      by rewrite (bool_decide_false (MethodOptions ≠ MethodOptions)), andb_false_r
        by (by intros ?). }
    rewrite Hpass. by rewrite logoutHandler_eq.
  - unfold route_logout.
    rewrite LoggingMiddleware_status, LoggingMiddleware_stores, Chain_two,
      AuthMiddleware_eq. cbv zeta.
    pose proof (validateJWT_stores clock
                  (TrimPrefix (Header_Get (Header r) "Authorization") "Bearer ")
                  "access" (entered r s)) as [Hstore _].
    destruct (decide (Header_Get (Header r) "Authorization" = EmptyString)) as [He|He].
    { split; [done|]. split; intros Hne; by destruct (Hne He). }
    destruct (validateJWT clock _ "access" (entered r s)) as [[c|e] s'].
    2:{ cbn [fst snd isOk] in *. split; [by rewrite Hstore|]. by split. }
    cbn [fst snd isOk] in *. cbn [entered refreshTokens] in Hstore.
    unfold MethodMiddleware. cbn [WithValue Method Body].
    split; [by intros [?|?]|]. split.
    + intros _ _ Hpost Hopt. by rewrite !bool_decide_true by done.
    + intros _ _ Hmethod.
      assert (Hpass : bool_decide (Method r ≠ "POST")
                      && bool_decide (Method r ≠ MethodOptions) = false).
      { destruct Hmethod as [-> | ->]; [done|].
        by rewrite (bool_decide_false (MethodOptions ≠ MethodOptions)), andb_false_r
          by (by intros ?). }
      rewrite Hpass, logoutHandler_eq. cbn [WithValue Body fst snd]. fold token.
      split; [done|]. destruct (decide (token = EmptyString)); [done|].
      cbn [refreshTokens]. by rewrite Hstore.
Qed.

(** The first guard of the route: without an [Authorization] header the
    request does not reach [logoutHandler]. *)
Lemma route_logout_guarded (w : ResponseWriter) (r : Request) (s : State) :
  Header_Get (Header r) "Authorization" = EmptyString →
  route_logout clock w r s
  = (respond w StatusUnauthorized DataNil "authorization header required",
     mkState (refreshTokens s) (rateLimiter s) (S (S (ticks s)))
             (logged s ++ [LogRequest (Method r) (URL_Path r) (getIP r);
                           LogDone (Method r) (URL_Path r)
                                   (clock (S (ticks s)) - clock (ticks s))])).
Proof.
  intros Hnone. unfold route_logout, LoggingMiddleware. rewrite Chain_two.
  unfold time_Since, time_Now, log_Printf, mbind, M_bind, mret, M_ret.
  rewrite AuthMiddleware_eq. cbv zeta. rewrite decide_True by done.
  cbn [tick refreshTokens rateLimiter ticks logged]. by rewrite <- app_assoc.
Qed.

End Logout.

(** ** Rotation *)

Section Rotation.

Variable clock : nat → Time.
Context {jwt : JWT} {json : JSONDecoder}.

Lemma issuedRefreshToken_respond (w : ResponseWriter) (code : Z) (l : LoginResponse)
      (errMsg : string) :
  issuedRefreshToken (respond w code (DataLogin l) errMsg) = Some (RefreshToken l).
Proof.
  unfold issuedRefreshToken, respond, Encode. cbn [w_Body]. by rewrite last_snoc.
Qed.

(** A token that is not in the store is refused, and the store stays as
    it is. *)
Lemma absent_rejected (token : string) (w : ResponseWriter) (r : Request) (s : State) :
  refreshTokens s !! token = None →
  decodeRefreshToken (Body r) = (token, None) →
  ∃ msg s', refreshHandler clock w r s = (respond w StatusUnauthorized DataNil msg, s')
            ∧ refreshTokens s' = refreshTokens s.
Proof.
  intros Habsent Hbody. rewrite refreshHandler_eq, Hbody.
  rewrite decide_True by done.
  destruct (validateJWT clock token "refresh" s) as [[claims|e] s1] eqn:Hv.
  - apply validateJWT_Ok_inv in Hv as [_ ->]. cbn [tick refreshTokens].
    rewrite decide_False; [by eauto|]. rewrite Habsent. by intros [? ?].
  - apply validateJWT_Err in Hv as (_ & Hled & _). eauto.
Qed.

(** The only entry [generateTokenPair] adds is the refresh token it
    returns. *)
Lemma generateTokenPair_absent (t username : string) (s s1 : State)
      (pair : Result (string * string)) :
  refreshTokens s !! t = None →
  generateTokenPair clock username s = (pair, s1) →
  refreshTokens s1 !! t = None ∨ ∃ access, pair = Ok (access, t).
Proof.
  intros Habsent. rewrite generateTokenPair_eq.
  destruct (jwt_SignedString _ (accessClaims clock username s) _) as [a|e].
  - destruct (jwt_SignedString _ (refreshClaims clock username s) _) as [rt|e].
    + intros [= <- <-]. cbn [refreshTokens].
      destruct (decide (rt = t)) as [->|Hne]; [by eauto|].
      left. by rewrite lookup_insert_ne.
    + intros [= <- <-]. by left.
  - intros [= <- <-]. by left.
Qed.

Lemma logoutHandler_absent (t : string) (w : ResponseWriter) (r : Request) (s : State) :
  refreshTokens s !! t = None →
  refreshTokens (snd (logoutHandler w r s)) !! t = None.
Proof.
  intros Habsent. rewrite logoutHandler_eq. cbn [snd].
  destruct (decide (_ = EmptyString)) as [He|He]; [done|]. cbn [refreshTokens].
  rewrite lookup_delete. by case_decide.
Qed.

Lemma refreshHandler_absent (t : string) (w : ResponseWriter) (r : Request) (s : State) :
  refreshTokens s !! t = None →
  refreshTokens (snd (refreshHandler clock w r s)) !! t = None
  ∨ issuedRefreshToken (fst (refreshHandler clock w r s)) = Some t.
Proof.
  intros Habsent. rewrite refreshHandler_eq.
  destruct (decodeRefreshToken (Body r)) as [token err].
  destruct (decide (err = None)) as [Herr|Herr]; [|by left].
  destruct (validateJWT clock token "refresh" s) as [[claims|e] s1] eqn:Hv.
  - apply validateJWT_Ok_inv in Hv as [_ ->]. cbn [tick refreshTokens rateLimiter ticks logged].
    destruct (decide (is_Some _)) as [Hin|Hin]; [|by left].
    destruct (generateTokenPair clock (Username claims) _) as [pair s2] eqn:Hgen.
    apply (generateTokenPair_absent t) in Hgen as [Hgen | [access ->]].
    + left. by destruct pair as [[a rt]|e].
    + right. cbn [fst]. apply issuedRefreshToken_respond.
    + cbn [refreshTokens]. rewrite lookup_delete. by case_decide.
  - apply validateJWT_Err in Hv as (_ & Hled & _). left. cbn [snd]. by rewrite Hled.
Qed.

Lemma loginHandler_absent (t : string) (w : ResponseWriter) (r : Request) (s : State) :
  refreshTokens s !! t = None →
  refreshTokens (snd (loginHandler clock w r s)) !! t = None
  ∨ issuedRefreshToken (fst (loginHandler clock w r s)) = Some t.
Proof.
  intros Habsent. rewrite loginHandler_eq.
  destruct (decodeUser (Body r)) as [creds err].
  destruct (decide (err = None)) as [Herr|Herr]; [|by left].
  destruct (decide (_ ∧ _)) as [Hcreds|Hcreds]; [|by left].
  destruct (generateTokenPair clock (User_Username creds) s) as [pair s1] eqn:Hgen.
  apply (generateTokenPair_absent t) in Hgen as [Hgen | [access ->]]; [| |done].
  - left. by destruct pair as [[a rt]|e'].
  - right. cbn [fst]. apply issuedRefreshToken_respond.
Qed.

(** A rotation that returns a new refresh token other than the old one
    leaves the old one out of the store: the same request is then refused. *)
Lemma rotated_then_refused (t : string) (w : ResponseWriter) (r : Request)
      (s : State) :
  decodeRefreshToken (Body r) = (t, None) →
  w_Status (fst (refreshHandler clock w r s)) = StatusOK →
  issuedRefreshToken (fst (refreshHandler clock w r s)) ≠ Some t →
  ∃ msg s', refreshHandler clock w r (snd (refreshHandler clock w r s))
            = (respond w StatusUnauthorized DataNil msg, s')
            ∧ refreshTokens s' = refreshTokens (snd (refreshHandler clock w r s)).
Proof.
  intros Hbody Hok Hnew. apply (absent_rejected t); [|done].
  revert Hok Hnew. rewrite refreshHandler_eq, Hbody. rewrite decide_True by done.
  destruct (validateJWT clock t "refresh" s) as [[claims|e] s1] eqn:Hv; [|done].
  apply validateJWT_Ok_inv in Hv as [_ ->].
  cbn [tick refreshTokens rateLimiter ticks logged].
  destruct (decide (is_Some _)) as [Hin|Hin]; [|done].
  destruct (generateTokenPair clock (Username claims) _) as [[[a rt]|e] s2] eqn:Hgen;
    [|done].
  apply generateTokenPair_Ok_inv in Hgen as (_ & _ & ->).
  cbn [fst snd refreshTokens]. intros _ Hnew.
  rewrite issuedRefreshToken_respond in Hnew. cbn [RefreshToken] in Hnew.
  rewrite lookup_insert_ne by (intros ->; by apply Hnew).
  apply lookup_delete_eq.
Qed.

(** The order of deletion and issuance. In a rotation that passes the
    membership check, the pair is issued
    in the state from which the old token has already been deleted. When
    the issuance fails the answer is 500 and the store is the former one
    without the old token; when it succeeds the new token is added to
    that store. A token absent from the store is refused by every later
    rotation, which leaves the store as it is, and it stays absent through
    every logout, and through every rotation and login that does not
    return that same string as its new refresh token. *)
Theorem delete_before_issue (w : ResponseWriter) (r : Request) (s : State)
        (token : string) (claims : Claims) :
  decodeRefreshToken (Body r) = (token, None) →
  fst (validateJWT clock token "refresh" s) = Ok claims →
  is_Some (refreshTokens s !! token) →
  let deleted := mkState (delete token (refreshTokens s)) (rateLimiter s)
                         (S (ticks s)) (logged s) in
  let '(issued, s2) := generateTokenPair clock (Username claims) deleted in
  let '(w', s') := refreshHandler clock w r s in
  s' = s2
  ∧ match issued with
    | Ok (access, refresh) =>
      w' = respond w StatusOK
             (DataLogin (mkLoginResponse access refresh 900 "tokens refreshed")) ""
      ∧ refreshTokens s'
        = <[refresh := Username claims]> (delete token (refreshTokens s))
    | Err _ =>
      w' = respond w StatusInternalServerError DataNil "token generation failed"
      ∧ refreshTokens s' = delete token (refreshTokens s)
      ∧ refreshTokens s' !! token = None
    end
  ∧ (∀ w0 r0 s0,
       refreshTokens s0 !! token = None →
       (decodeRefreshToken (Body r0) = (token, None) →
        ∃ msg s3, refreshHandler clock w0 r0 s0
                  = (respond w0 StatusUnauthorized DataNil msg, s3)
                  ∧ refreshTokens s3 = refreshTokens s0)
       ∧ refreshTokens (snd (logoutHandler w0 r0 s0)) !! token = None
       ∧ (refreshTokens (snd (refreshHandler clock w0 r0 s0)) !! token = None
          ∨ issuedRefreshToken (fst (refreshHandler clock w0 r0 s0)) = Some token)
       ∧ (refreshTokens (snd (loginHandler clock w0 r0 s0)) !! token = None
          ∨ issuedRefreshToken (fst (loginHandler clock w0 r0 s0)) = Some token)).
Proof.
  intros Hbody Hv Hin deleted.
  destruct (generateTokenPair clock (Username claims) deleted) as [issued s2] eqn:Hgen.
  rewrite refreshHandler_eq, Hbody. rewrite decide_True by done.
  destruct (validateJWT clock token "refresh" s) as [[c|e] s1] eqn:Hv'; [|done].
  cbn [fst] in Hv. injection Hv as ->.
  apply validateJWT_Ok_inv in Hv' as [_ ->].
  cbn [tick refreshTokens rateLimiter ticks logged].
  rewrite decide_True by done. fold deleted. rewrite Hgen.
  assert (Hlater : ∀ w0 r0 s0,
             refreshTokens s0 !! token = None →
             (decodeRefreshToken (Body r0) = (token, None) →
              ∃ msg s3, refreshHandler clock w0 r0 s0
                        = (respond w0 StatusUnauthorized DataNil msg, s3)
                        ∧ refreshTokens s3 = refreshTokens s0)
             ∧ refreshTokens (snd (logoutHandler w0 r0 s0)) !! token = None
             ∧ (refreshTokens (snd (refreshHandler clock w0 r0 s0)) !! token = None
                ∨ issuedRefreshToken (fst (refreshHandler clock w0 r0 s0)) = Some token)
             ∧ (refreshTokens (snd (loginHandler clock w0 r0 s0)) !! token = None
                ∨ issuedRefreshToken (fst (loginHandler clock w0 r0 s0)) = Some token)).
  { intros w0 r0 s0 Habsent. split; [|split; [|split]].
    - by apply absent_rejected.
    - by apply logoutHandler_absent.
    - by apply refreshHandler_absent.
    - by apply loginHandler_absent. }
  destruct issued as [[a rt]|e]; cbv beta iota.
  - split; [done|]. split; [|exact Hlater]. split; [done|].
    apply generateTokenPair_Ok_inv in Hgen as (_ & _ & ->). done.
  - split; [done|]. split; [|exact Hlater]. split; [done|].
    apply generateTokenPair_Err in Hgen. rewrite Hgen. cbn [deleted refreshTokens].
    split; [done|]. apply lookup_delete_eq.
Qed.

End Rotation.

(** ** Replay: two issuances within one second *)

Section Replay.

Variable clock : nat → Time.
Context {jwt : JWT} {json : JSONDecoder} {laws : JWTLaws jwt}.

Lemma NewNumericDate_Add (t : Time) (k : Z) :
  NewNumericDate (Time_Add t (k * Second)) = NewNumericDate t + k.
Proof. unfold NewNumericDate, Time_Add. by rewrite Z.div_add. Qed.

Lemma NumericDate_bounds (t : Time) :
  NumericDate_Time (NewNumericDate t) ≤ t < NumericDate_Time (NewNumericDate t + 1).
Proof.
  unfold NumericDate_Time, NewNumericDate.
  assert (Hpos : 0 < Second) by done.
  pose proof (Z.mod_pos_bound t Second Hpos).
  pose proof (Z.div_mod t Second ltac:(lia)). lia.
Qed.

(** While every reading of the clock falls in the second [q], the claims
    of the two tokens do not depend on the state. *)
Variable q : NumericDate.
Hypothesis one_second : ∀ n, NewNumericDate (clock n) = q.

Lemma accessClaims_one_second (username : string) (s : State) :
  accessClaims clock username s = mkClaims username "access" (Some (q + 900)) None (Some q).
Proof.
  unfold accessClaims, issuedClaims.
  change accessTokenTTL with (900 * Second).
  by rewrite NewNumericDate_Add, !one_second.
Qed.

Lemma refreshClaims_one_second (username : string) (s : State) :
  refreshClaims clock username s
  = mkClaims username "refresh" (Some (q + 604800)) None (Some q).
Proof.
  unfold refreshClaims, issuedClaims.
  change refreshTokenTTL with (604800 * Second).
  by rewrite NewNumericDate_Add, !one_second.
Qed.

Lemma rotate_one_second (username access t : string) (w : ResponseWriter) (r : Request)
      (s s0 : State) :
  utf8_ValidString username = true →
  jwt_SignedString SigningMethodHS256 (accessClaims clock username s) jwtSecret
  = Ok access →
  jwt_SignedString SigningMethodHS256 (refreshClaims clock username s) jwtSecret = Ok t →
  decodeRefreshToken (Body r) = (t, None) →
  is_Some (refreshTokens s0 !! t) →
  refreshHandler clock w r s0
  = (respond w StatusOK
       (DataLogin (mkLoginResponse access t 900 "tokens refreshed")) "",
     mkState (<[t := username]> (delete t (refreshTokens s0))) (rateLimiter s0)
             (S (S (S (S (S (ticks s0)))))) (logged s0)).
Proof.
  intros Hu Ha Hr Hbody Hin.
  rewrite refreshHandler_eq, Hbody. rewrite decide_True by done.
  rewrite (validateJWT_Ok clock t "refresh" s0 (refreshClaims clock username s)).
  - cbn [tick refreshTokens rateLimiter ticks logged].
    rewrite decide_True by done.
    change (Username (refreshClaims clock username s)) with username.
    rewrite generateTokenPair_eq.
    rewrite accessClaims_one_second, refreshClaims_one_second.
    rewrite accessClaims_one_second in Ha. rewrite refreshClaims_one_second in Hr.
    by rewrite Ha, Hr.
  - apply issued_accepts; [done..|].
    change refreshTokenTTL with (604800 * Second).
    rewrite NewNumericDate_Add, one_second.
    pose proof (NumericDate_bounds (clock (ticks s0))) as Hb.
    rewrite one_second in Hb. unfold NumericDate_Time in *.
    assert (0 < Second) by done. nia.
Qed.

(** C1 at the failing input. A pair is issued and its refresh token [t]
    is rotated twice by the same request, all readings of the clock falling
    in one second: the first rotation answers 200 and returns [t] itself
    as the new refresh token, [t] is in the store afterwards, and the
    second rotation of [t] answers 200 as well. *)
Theorem replay_within_one_second (username access t : string) (w : ResponseWriter)
        (r : Request) (s s1 : State) :
  utf8_ValidString username = true →
  generateTokenPair clock username s = (Ok (access, t), s1) →
  decodeRefreshToken (Body r) = (t, None) →
  let '(w1, s2) := refreshHandler clock w r s1 in
  let '(w2, s3) := refreshHandler clock w r s2 in
  w_Status w1 = StatusOK
  ∧ issuedRefreshToken w1 = Some t
  ∧ refreshTokens s2 !! t = Some username
  ∧ w_Status w2 = StatusOK
  ∧ issuedRefreshToken w2 = Some t.
Proof.
  intros Hu Hgen Hbody.
  apply generateTokenPair_Ok_inv in Hgen as (Ha & Hr & ->).
  rewrite (rotate_one_second username access t w r s _ Hu Ha Hr Hbody).
  2:{ cbn [refreshTokens]. rewrite lookup_insert_eq. by eexists. }
  rewrite (rotate_one_second username access t w r s _ Hu Ha Hr Hbody).
  2:{ cbn [refreshTokens]. rewrite lookup_insert_eq. by eexists. }
  cbn [refreshTokens]. split; [done|]. split; [apply issuedRefreshToken_respond|].
  split; [apply lookup_insert_eq|]. split; [done|]. apply issuedRefreshToken_respond.
Qed.

(** C7 at the failing input. A pair is issued and its refresh token [t] is
    rotated, all readings of the clock falling in one second. The rotation
    passes the membership check and deletes [t] before it issues: the
    pair is generated in a state from which [t] is absent. But the token
    it issues is the string [t] again, so [t] is recorded anew: after the
    rotation the old refresh token is in the store, and the next rotation
    of [t] is authorized and answers 200. *)
Theorem deleted_token_recorded_again (username access t : string) (w : ResponseWriter)
        (r : Request) (s s1 : State) :
  utf8_ValidString username = true →
  generateTokenPair clock username s = (Ok (access, t), s1) →
  decodeRefreshToken (Body r) = (t, None) →
  let deleted := mkState (delete t (refreshTokens s1)) (rateLimiter s1)
                         (S (ticks s1)) (logged s1) in
  let '(issued, s2) := generateTokenPair clock username deleted in
  let '(w1, s') := refreshHandler clock w r s1 in
  is_Some (refreshTokens s1 !! t)
  ∧ refreshTokens deleted !! t = None
  ∧ issued = Ok (access, t)
  ∧ s' = s2
  ∧ w_Status w1 = StatusOK
  ∧ refreshTokens s' !! t = Some username
  ∧ w_Status (fst (refreshHandler clock w r s')) = StatusOK.
Proof.
  intros Hu Hgen Hbody deleted.
  apply generateTokenPair_Ok_inv in Hgen as (Ha & Hr & ->).
  assert (Hin : ∀ m : gmap string string, is_Some (<[t := username]> m !! t)).
  { intros m. rewrite lookup_insert_eq. by eexists. }
  rewrite (rotate_one_second username access t w r s _ Hu Ha Hr Hbody) by apply Hin.
  rewrite (rotate_one_second username access t w r s _ Hu Ha Hr Hbody) by apply Hin.
  rewrite generateTokenPair_eq.
  rewrite accessClaims_one_second, refreshClaims_one_second.
  rewrite accessClaims_one_second in Ha. rewrite refreshClaims_one_second in Hr.
  rewrite Ha, Hr. cbn [deleted refreshTokens rateLimiter ticks logged fst].
  split; [apply Hin|]. split; [apply lookup_delete_eq|]. split; [done|].
  split; [done|]. split; [done|]. split; [apply lookup_insert_eq|done].
Qed.

End Replay.

(** ** Concurrent rotations *)

Section Concurrency.

Variable clock : nat → Time.
Context {jwt : JWT} {json : JSONDecoder}.

Lemma runSchedule_cons (i : nat) (schedule : list nat) (pool : list RefreshPC)
      (s : State) :
  runSchedule clock (i :: schedule) pool s
  = let '(pool', s') := stepGoroutine clock pool i s in
    runSchedule clock schedule pool' s'.
Proof. reflexivity. Qed.

Lemma stepGoroutine_single (pc : RefreshPC) (s : State) :
  stepGoroutine clock [pc] 0 s
  = let '(pc', s') := refreshStep clock pc s in ([pc'], s').
Proof. reflexivity. Qed.

Lemma runSchedule_returned (schedule : list nat) (w : ResponseWriter) (s : State) :
  runSchedule clock schedule [Returned w] s = ([Returned w], s).
Proof.
  induction schedule as [|i schedule IH]; [done|].
  rewrite runSchedule_cons. unfold stepGoroutine.
  destruct i as [|i]; cbn [lookup list_lookup]; [|by destruct i].
  cbn [refreshStep]. unfold mbind, M_bind, mret, M_ret.
  cbn [insert list_insert]. apply IH.
Qed.

(** The steps of one goroutine, run without interruption, are
    [refreshHandler]. *)
Lemma refreshSteps_sequential (w : ResponseWriter) (r : Request) (s : State) :
  runSchedule clock [0; 0; 0; 0; 0]%nat [AtValidate w r] s
  = let '(w', s') := refreshHandler clock w r s in ([Returned w'], s').
Proof.
  unfold refreshHandler.
  rewrite runSchedule_cons, stepGoroutine_single. cbn [refreshStep].
  destruct (decodeRefreshToken (Body r)) as [token err].
  destruct (bool_decide (err ≠ None)).
  { unfold mret, M_ret. apply runSchedule_returned. }
  unfold mbind, M_bind, mret, M_ret.
  destruct (validateJWT clock token "refresh" s) as [[claims|e] s1].
  2:{ apply runSchedule_returned. }
  rewrite runSchedule_cons, stepGoroutine_single. cbn [refreshStep].
  unfold mbind, M_bind, mret, M_ret.
  destruct (ledgerExists token s1) as [[] s1'] eqn:Hex; cbn [negb].
  2:{ apply runSchedule_returned. }
  rewrite runSchedule_cons, stepGoroutine_single. cbn [refreshStep].
  unfold mbind, M_bind, mret, M_ret.
  destruct (ledgerDelete token s1') as [[] s2].
  rewrite runSchedule_cons, stepGoroutine_single. cbn [refreshStep].
  unfold generateTokenPair, mbind, M_bind, mret, M_ret.
  destruct (signToken clock (Username claims) "access" accessTokenTTL s2)
    as [[a|e] s3].
  2:{ apply runSchedule_returned. }
  destruct (signToken clock (Username claims) "refresh" refreshTokenTTL s3)
    as [[rt|e] s4].
  2:{ apply runSchedule_returned. }
  rewrite runSchedule_cons, stepGoroutine_single. cbn [refreshStep].
  unfold mbind, M_bind, mret, M_ret.
  by destruct (set_refreshTokens _ s4) as [[] s5].
Qed.

Lemma step_validate (w : ResponseWriter) (r : Request) (s : State) (t : string)
      (claims : Claims) :
  decodeRefreshToken (Body r) = (t, None) →
  accepts (clock (ticks s)) t "refresh" claims →
  refreshStep clock (AtValidate w r) s = (AtExists w t claims, tick s).
Proof.
  intros Hbody Hacc. cbn [refreshStep]. rewrite Hbody.
  rewrite bool_decide_false by (by intros ?).
  unfold mbind, M_bind, mret, M_ret. by rewrite (validateJWT_Ok _ _ _ _ _ Hacc).
Qed.

Lemma step_exists (w : ResponseWriter) (s : State) (t : string) (claims : Claims) :
  is_Some (refreshTokens s !! t) →
  refreshStep clock (AtExists w t claims) s = (AtDelete w t claims, s).
Proof.
  intros Hin. cbn [refreshStep]. unfold ledgerExists, get_state.
  unfold mbind, M_bind, mret, M_ret. by rewrite bool_decide_true.
Qed.

Lemma stepGoroutine_fst (pc pc2 : RefreshPC) (s : State) :
  stepGoroutine clock [pc; pc2] 0 s
  = let '(pc', s') := refreshStep clock pc s in ([pc'; pc2], s').
Proof. reflexivity. Qed.

Lemma stepGoroutine_snd (pc1 pc : RefreshPC) (s : State) :
  stepGoroutine clock [pc1; pc] 1 s
  = let '(pc', s') := refreshStep clock pc s in ([pc1; pc'], s').
Proof. reflexivity. Qed.

Lemma step_delete (w : ResponseWriter) (s : State) (t : string) (claims : Claims) :
  refreshStep clock (AtDelete w t claims) s
  = (AtSign w claims,
     mkState (delete t (refreshTokens s)) (rateLimiter s) (ticks s) (logged s)).
Proof. reflexivity. Qed.

Lemma step_record (w : ResponseWriter) (s : State) (username access refresh : string) :
  refreshStep clock (AtRecord w username access refresh) s
  = (Returned (respond w StatusOK
                 (DataLogin (mkLoginResponse access refresh 900 "tokens refreshed")) ""),
     mkState (<[refresh := username]> (refreshTokens s)) (rateLimiter s) (ticks s)
             (logged s)).
Proof. reflexivity. Qed.

Lemma step_sign (w : ResponseWriter) (s : State) (claims : Claims) :
  (∀ c, isOk (jwt_SignedString SigningMethodHS256 c jwtSecret) = true) →
  ∃ access refresh,
    refreshStep clock (AtSign w claims) s
    = (AtRecord w (Username claims) access refresh, tick (tick (tick (tick s)))).
Proof.
  intros Htotal. cbn [refreshStep]. unfold mbind, M_bind, mret, M_ret.
  rewrite signToken_eq.
  pose proof (Htotal (issuedClaims (Username claims) "access" accessTokenTTL
                        (clock (ticks s)) (clock (S (ticks s))))) as Ha.
  destruct (jwt_SignedString _ _ _) as [a|e]; [|done].
  rewrite signToken_eq.
  pose proof (Htotal (issuedClaims (Username claims) "refresh" refreshTokenTTL
                        (clock (ticks (tick (tick s))))
                        (clock (S (ticks (tick (tick s))))))) as Hr.
  destruct (jwt_SignedString _ _ _) as [rt|e]; [|done].
  by exists a, rt.
Qed.

Context {laws : JWTLaws jwt}.

(** C2 at the failing input. A pair is issued and two requests rotate
    its refresh token [t] at the same time: both goroutines validate [t],
    both read the store while [t] is in it, then both delete, sign and
    record. When signing does not fail and [t] has not expired at the two
    validations, both requests are answered with 200, each with a refresh
    token that is in the store at the end. *)
Theorem double_rotation_interleaved (username access t : string)
        (wa wb : ResponseWriter) (ra rb : Request) (s s1 : State) :
  (∀ c, isOk (jwt_SignedString SigningMethodHS256 c jwtSecret) = true) →
  (∀ n, (4 + ticks s ≤ n ≤ 5 + ticks s)%nat →
        clock n < NumericDate_Time
                    (NewNumericDate (Time_Add (clock (2 + ticks s)%nat) refreshTokenTTL))) →
  utf8_ValidString username = true →
  generateTokenPair clock username s = (Ok (access, t), s1) →
  decodeRefreshToken (Body ra) = (t, None) →
  decodeRefreshToken (Body rb) = (t, None) →
  ∃ wa' wb' ta tb s',
    runSchedule clock [0; 1; 0; 1; 0; 1; 0; 1; 0; 1]%nat
                [AtValidate wa ra; AtValidate wb rb] s1
    = ([Returned wa'; Returned wb'], s')
    ∧ w_Status wa' = StatusOK ∧ issuedRefreshToken wa' = Some ta
    ∧ w_Status wb' = StatusOK ∧ issuedRefreshToken wb' = Some tb
    ∧ refreshTokens s' !! ta = Some username
    ∧ refreshTokens s' !! tb = Some username.
Proof.
  intros Htotal Hnow Hu Hgen Hra Hrb.
  apply generateTokenPair_Ok_inv in Hgen as (_ & Hr & ->).
  assert (Hacc : ∀ now, now < NumericDate_Time
                                (NewNumericDate (Time_Add (clock (S (S (ticks s))))
                                                          refreshTokenTTL)) →
                        accepts now t "refresh" (refreshClaims clock username s)).
  { intros now Hlt. by apply issued_accepts. }
  (* both goroutines validate *)
  rewrite runSchedule_cons, stepGoroutine_fst.
  rewrite (step_validate _ _ _ t (refreshClaims clock username s) Hra)
    by (apply Hacc, Hnow; cbn [ticks tick]; lia).
  rewrite runSchedule_cons, stepGoroutine_snd.
  rewrite (step_validate _ _ _ t (refreshClaims clock username s) Hrb)
    by (apply Hacc, Hnow; cbn [ticks tick]; lia).
  (* both read the store *)
  rewrite runSchedule_cons, stepGoroutine_fst.
  rewrite step_exists by (cbn [tick refreshTokens]; rewrite lookup_insert_eq; by eexists).
  rewrite runSchedule_cons, stepGoroutine_snd.
  rewrite step_exists by (cbn [tick refreshTokens]; rewrite lookup_insert_eq; by eexists).
  (* both delete *)
  rewrite runSchedule_cons, stepGoroutine_fst, step_delete.
  rewrite runSchedule_cons, stepGoroutine_snd, step_delete.
  (* both sign *)
  rewrite runSchedule_cons, stepGoroutine_fst.
  match goal with
  | |- context [refreshStep clock (AtSign wa ?c) ?s0] =>
      destruct (step_sign wa s0 c Htotal) as (aa & ta & ->)
  end.
  rewrite runSchedule_cons, stepGoroutine_snd.
  match goal with
  | |- context [refreshStep clock (AtSign wb ?c) ?s0] =>
      destruct (step_sign wb s0 c Htotal) as (ab & tb & ->)
  end.
  (* both record *)
  rewrite runSchedule_cons, stepGoroutine_fst, step_record.
  rewrite runSchedule_cons, stepGoroutine_snd, step_record.
  cbn [runSchedule mret M_ret].
  eexists _, _, ta, tb, _. split; [reflexivity|].
  split; [done|]. split; [apply issuedRefreshToken_respond|].
  split; [done|]. split; [apply issuedRefreshToken_respond|].
  cbn [refreshTokens tick Username refreshClaims issuedClaims]. split.
  - destruct (decide (tb = ta)) as [->|Hne]; [apply lookup_insert_eq|].
    rewrite lookup_insert_ne by done. apply lookup_insert_eq.
  - apply lookup_insert_eq.
Qed.

End Concurrency.

(** * Further properties of the request pipeline *)

(** ** Composition of middlewares *)

Lemma Chain_foldr (h : Handler) (mws : list Middleware) :
  Chain h mws = foldr (λ mw h, mw h) h mws.
Proof.
  unfold Chain. rewrite <- (rev_involutive mws) at 2.
  by rewrite fold_left_rev_right.
Qed.

(** X1. [Chain] applies the middlewares so that the first one listed is
    the outermost: chaining none is the handler itself, chaining a list is
    the first middleware around the chain of the others, and chaining a
    concatenation is chaining in two stages. *)
Theorem Chain_order (h : Handler) (mw : Middleware) (mws mws' : list Middleware) :
  Chain h [] = h
  ∧ Chain h (mw :: mws) = mw (Chain h mws)
  ∧ Chain h (mws ++ mws') = Chain (Chain h mws') mws.
Proof.
  rewrite !Chain_foldr. split; [done|]. split; [done|]. apply foldr_app.
Qed.

(** ** The client identifier *)

Lemma SplitFirst_app (a b : string) (c : ascii) :
  occurs c a = false → SplitFirst (a +:+ String c b) c = a.
Proof.
  induction a as [|x a IH]; intros Hocc.
  - change (EmptyString +:+ String c b) with (String c b).
    cbn [SplitFirst]. by rewrite decide_True.
  - change (String x a +:+ String c b) with (String x (a +:+ String c b)).
    cbn [occurs SplitFirst] in Hocc |- *. apply orb_false_iff in Hocc as [Hx Ha].
    apply bool_decide_eq_false in Hx. rewrite decide_False by done.
    f_equal. by apply IH.
Qed.

Lemma SplitFirst_whole (s : string) (c : ascii) :
  occurs c s = false → SplitFirst s c = s.
Proof.
  induction s as [|x s IH]; intros Hocc; [done|].
  cbn in Hocc |- *. apply orb_false_iff in Hocc as [Hx Hs].
  apply bool_decide_eq_false in Hx. rewrite decide_False by done.
  f_equal. by apply IH.
Qed.

Lemma SplitFirst_clean (s : string) (c : ascii) : occurs c (SplitFirst s c) = false.
Proof.
  induction s as [|x s IH]; [done|].
  cbn. destruct (decide (x = c)) as [Hx|Hx]; [done|].
  cbn. by rewrite bool_decide_false, IH.
Qed.

(** X2. The client identifier is the first element of a non-empty
    [X-Forwarded-For] header, whatever the connection address, and
    otherwise the connection address up to its first colon: the port of
    [host:port] is dropped, and an address that itself contains colons is
    cut at the first of them. The identifier never contains the separator
    it was cut at. *)
Theorem getIP_client (r : Request) :
  let xff := Header_Get (Header r) "X-Forwarded-For" in
  (∀ first rest, xff = first +:+ String "," rest → occurs "," first = false →
                 getIP r = first)
  ∧ (xff ≠ EmptyString → occurs "," xff = false → getIP r = xff)
  ∧ (∀ host port, xff = EmptyString → RemoteAddr r = host +:+ String ":" port →
                  occurs ":" host = false → getIP r = host)
  ∧ (xff = EmptyString → occurs ":" (RemoteAddr r) = false → getIP r = RemoteAddr r)
  ∧ occurs (if decide (xff = EmptyString) then ":" else ",")%char (getIP r) = false.
Proof.
  intros xff. unfold getIP. fold xff. split; [|split; [|split; [|split]]].
  - intros first rest Hxff Hocc.
    rewrite bool_decide_true by (rewrite Hxff; by destruct first).
    rewrite Hxff. by apply SplitFirst_app.
  - intros Hne Hocc. rewrite bool_decide_true by done. by apply SplitFirst_whole.
  - intros host port Hxff Haddr Hocc.
    rewrite bool_decide_false by (by intros ?).
    rewrite Haddr. by apply SplitFirst_app.
  - intros Hxff Hocc. rewrite bool_decide_false by (by intros ?).
    by apply SplitFirst_whole.
  - destruct (decide (xff = EmptyString)) as [He|He].
    + rewrite bool_decide_false by (by intros ?). apply SplitFirst_clean.
    + rewrite bool_decide_true by done. apply SplitFirst_clean.
Qed.

(** ** Windows of different clients *)

Section Windows.

Variable clock : nat → Time.

Lemma isRateLimited_frame (ip ip' : string) (s : State) :
  ip ≠ ip' →
  stored (snd (isRateLimited clock ip s)) ip' = stored s ip'
  ∧ refreshTokens (snd (isRateLimited clock ip s)) = refreshTokens s
  ∧ ticks (snd (isRateLimited clock ip s)) = S (ticks s).
Proof.
  intros Hne. rewrite isRateLimited_eq. cbn [snd refreshTokens ticks].
  split; [|done]. unfold stored. cbn [rateLimiter]. by rewrite lookup_insert_ne.
Qed.

(** X3. The windows are kept per client: however many checks are made for
    one client, the stored timestamps of every other client and the store
    of refresh tokens are left as they were, and the clock is read once per
    check. *)
Theorem windows_per_client (ip ip' : string) (n : nat) (s : State) :
  ip ≠ ip' →
  stored (snd (checks clock ip n s)) ip' = stored s ip'
  ∧ refreshTokens (snd (checks clock ip n s)) = refreshTokens s
  ∧ ticks (snd (checks clock ip n s)) = (n + ticks s)%nat.
Proof.
  intros Hne. revert s. induction n as [|n IH]; intros s; [done|].
  rewrite checks_S.
  destruct (isRateLimited_frame ip ip' s Hne) as (Hst & Hled & Htk).
  destruct (isRateLimited clock ip s) as [limited s1]. cbn [snd] in Hst, Hled, Htk.
  destruct (IH s1) as (Hst' & Hled' & Htk').
  destruct (checks clock ip n s1) as [rest s2]. cbn [snd] in *.
  rewrite Hst', Hled', Htk', Hst, Hled, Htk. repeat split. lia.
Qed.

(** X4. [RateLimitMiddleware] keys the window by the forwarded header when
    there is one: a request whose [X-Forwarded-For] names, as its first
    element, a client with no timestamp in the current window is passed to
    the next handler, whatever the window of its connection address holds;
    the only change to the state is the new window of that client and the
    reading of the clock. *)
Theorem forwarded_header_selects_window (next : Handler) (w : ResponseWriter)
        (r : Request) (s : State) :
  let xff := Header_Get (Header r) "X-Forwarded-For" in
  let client := SplitFirst xff "," in
  xff ≠ EmptyString →
  (∀ e, e ∈ stored s client → e ≤ clock (ticks s) - rateLimitWindow) →
  RateLimitMiddleware clock next w r s
  = next w r (mkState (refreshTokens s)
                      (<[client := [clock (ticks s)]]> (rateLimiter s))
                      (S (ticks s)) (logged s)).
Proof.
  intros xff client Hxff Hidle.
  assert (Hip : getIP r = client).
  { unfold getIP. fold xff. by rewrite bool_decide_true. }
  rewrite RateLimitMiddleware_eq, Hip, isRateLimited_eq.
  assert (Hnone : filter (inWindow (clock (ticks s))) (stored s client) = []).
  { apply filter_none, Forall_forall. intros e He. specialize (Hidle e He).
    unfold inWindow. lia. }
  rewrite Hnone. done.
Qed.

End Windows.

(** ** The routes of the auth API *)

Section Routes.

Variable clock : nat → Time.
Context {jwt : JWT} {json : JSONDecoder}.

Lemma LoggingMiddleware_eq (next : Handler) (w : ResponseWriter) (r : Request) (s : State) :
  LoggingMiddleware clock next w r s
  = let '(w', s1) := next w r (entered r s) in
    (w', mkState (refreshTokens s1) (rateLimiter s1) (S (ticks s1))
                 (logged s1 ++ [LogDone (Method r) (URL_Path r)
                                        (clock (ticks s1) - clock (ticks s))])).
Proof.
  unfold LoggingMiddleware, time_Since, time_Now, log_Printf.
  unfold mbind, M_bind, mret, M_ret.
  change (mkState (refreshTokens (tick s)) (rateLimiter (tick s)) (ticks (tick s))
                  (logged (tick s) ++ [LogRequest (Method r) (URL_Path r) (getIP r)]))
    with (entered r s).
  by destruct (next w r (entered r s)) as [w' s1].
Qed.

Lemma MethodMiddleware_eq (method : string) (next : Handler) (w : ResponseWriter)
      (r : Request) (s : State) :
  MethodMiddleware method next w r s
  = if decide (Method r = method ∨ Method r = MethodOptions) then next w r s
    else (respond w StatusMethodNotAllowed DataNil "method not allowed", s).
Proof.
  unfold MethodMiddleware.
  destruct (decide (Method r = method)) as [Hm|Hm].
  - rewrite bool_decide_false by (by intros ?). cbn [andb].
    rewrite decide_True by (by left). done.
  - rewrite bool_decide_true by done. cbn [andb].
    destruct (decide (Method r = MethodOptions)) as [Ho|Ho].
    + rewrite bool_decide_false by (by intros ?). rewrite decide_True by (by right). done.
    + rewrite bool_decide_true by done. rewrite decide_False; [done|]. by intros [?|?].
Qed.

Lemma generateTokenPair_rateLimiter (username : string) (s : State) :
  rateLimiter (snd (generateTokenPair clock username s)) = rateLimiter s.
Proof.
  rewrite generateTokenPair_eq.
  destruct (jwt_SignedString _ (accessClaims _ _ _) _); [|done].
  by destruct (jwt_SignedString _ (refreshClaims _ _ _) _).
Qed.

(** X5. On the routes [/api/login] and [/api/refresh] the rate limiter
    runs before the method check and both run before the handler. A limited
    request is answered with 429 and [Retry-After: 60]; a request that is
    not limited but is neither a POST nor an OPTIONS is answered with 405;
    in both cases the handler does not run, the store of refresh tokens is
    left as it was, and the request is nevertheless counted in the window
    of its client. Every other request, a POST or an OPTIONS, gets the
    response and the stores of the handler. *)
Theorem rate_limit_then_method (h : Handler) (w : ResponseWriter) (r : Request)
        (s : State) :
  let route := LoggingMiddleware clock
                 (Chain h [RateLimitMiddleware clock; MethodMiddleware "POST"]) in
  let s0 := entered r s in
  let limited := fst (isRateLimited clock (getIP r) s0) in
  let s1 := snd (isRateLimited clock (getIP r) s0) in
  let now := clock (S (ticks s)) in
  let '(w', s') := route w r s in
  (h = loginHandler clock → route = route_login clock)
  ∧ (h = refreshHandler clock → route = route_refresh clock)
  ∧ (limited = true →
     w_Status w' = StatusTooManyRequests
     ∧ w_Header w' !! "Retry-After" = Some "60"
     ∧ refreshTokens s' = refreshTokens s)
  ∧ (limited = false → Method r ≠ "POST" → Method r ≠ MethodOptions →
     w_Status w' = StatusMethodNotAllowed
     ∧ refreshTokens s' = refreshTokens s)
  ∧ (limited = true ∨ (Method r ≠ "POST" ∧ Method r ≠ MethodOptions) →
     stored s' (getIP r) = filter (inWindow now) (stored s (getIP r)) ++ [now])
  ∧ (limited = false → Method r = "POST" ∨ Method r = MethodOptions →
     w' = fst (h w r s1)
     ∧ refreshTokens s' = refreshTokens (snd (h w r s1))
     ∧ rateLimiter s' = rateLimiter (snd (h w r s1))).
Proof.
  intros route s0 limited s1 now. subst route.
  rewrite LoggingMiddleware_eq, Chain_two, RateLimitMiddleware_eq. fold s0.
  pose proof (stored_after_check clock (getIP r) s0) as Hst.
  pose proof (isRateLimited_eq clock (getIP r) s0) as Heq.
  subst limited s1.
  destruct (isRateLimited clock (getIP r) s0) as [limited s1]. cbn [fst snd] in *.
  assert (Hled : refreshTokens s1 = refreshTokens s) by (by injection Heq as _ ->).
  change (stored s0 (getIP r)) with (stored s (getIP r)) in Hst.
  change (clock (ticks s0)) with now in Hst.
  rewrite MethodMiddleware_eq.
  destruct limited.
  - cbv beta iota. cbn [refreshTokens].
    split; [by intros ->|]. split; [by intros ->|]. split.
    { intros _. split; [done|]. split; [|done].
      unfold respond, Header_Set, WriteHeader, Encode. cbn [w_Header].
      rewrite lookup_insert_ne by done. apply lookup_insert_eq. }
    split; [done|]. split; [|done]. intros _. exact Hst.
  - destruct (decide (Method r = "POST" ∨ Method r = MethodOptions)) as [Hm|Hm].
    + destruct (h w r s1) as [w' s'] eqn:Hh. cbn [fst snd refreshTokens rateLimiter].
      split; [by intros ->|]. split; [by intros ->|]. split; [done|].
      split; [intros _ H1 H2; by destruct Hm|].
      split; [|done]. intros [?|[H1 H2]]; [done|by destruct Hm].
    + cbv beta iota. cbn [refreshTokens].
      split; [by intros ->|]. split; [by intros ->|]. split; [done|].
      split; [done|]. split; [intros _; exact Hst|].
      intros _ Hm'. by destruct Hm.
Qed.

(** X6. [loginHandler] answers 200, 400, 401 or 500 and never touches the
    rate limiter. It answers 200 only to a body that decodes without error
    to the demo user name and password, and then the store gains the
    returned refresh token, recorded for that user, and nothing else; with
    every other answer the store is unchanged. Credentials that do not
    match are answered with 401 before the clock is read. The envelope
    says success exactly when the status is 200. *)
Theorem login_outcomes (w : ResponseWriter) (r : Request) (s : State) :
  let creds := fst (decodeUser (Body r)) in
  let err := snd (decodeUser (Body r)) in
  let '(w', s') := loginHandler clock w r s in
  (w_Status w' = StatusOK ∨ w_Status w' = StatusBadRequest
   ∨ w_Status w' = StatusUnauthorized ∨ w_Status w' = StatusInternalServerError)
  ∧ rateLimiter s' = rateLimiter s
  ∧ (w_Status w' = StatusOK →
     err = None
     ∧ User_Username creds = demoUsername ∧ User_Password creds = demoPassword
     ∧ ∃ refresh, issuedRefreshToken w' = Some refresh
                  ∧ refreshTokens s' = <[refresh := demoUsername]> (refreshTokens s))
  ∧ (w_Status w' ≠ StatusOK → refreshTokens s' = refreshTokens s)
  ∧ (err = None →
     User_Username creds ≠ demoUsername ∨ User_Password creds ≠ demoPassword →
     w_Status w' = StatusUnauthorized ∧ s' = s)
  ∧ (∃ envelope, last (w_Body w') = Some envelope
                 ∧ (Success envelope = true ↔ w_Status w' = StatusOK)).
Proof.
  intros creds err. subst creds err. rewrite loginHandler_eq.
  destruct (decodeUser (Body r)) as [creds err]. cbn [fst snd].
  assert (Hlast : ∀ code data msg,
             last (w_Body (respond w code data msg))
             = Some (mkAPIResponse (bool_decide (msg = EmptyString)) data msg)).
  { intros. unfold respond, Encode. cbn [w_Body]. by rewrite last_snoc. }
  destruct (decide (err = None)) as [Herr|Herr].
  - destruct (decide (_ ∧ _)) as [[Hu Hp]|Hcreds].
    + destruct (generateTokenPair clock (User_Username creds) s)
        as [[[a rt]|e] s1] eqn:Hgen.
      * apply generateTokenPair_Ok_inv in Hgen as (_ & _ & ->).
        cbn [refreshTokens rateLimiter]. split; [by left|]. split; [done|].
        split.
        { intros _. repeat split; try done. exists rt.
          split; [apply issuedRefreshToken_respond|]. by rewrite Hu. }
        split; [done|]. split; [by intros _ [?|?]|].
        eexists. split; [apply Hlast|done].
      * pose proof (generateTokenPair_Err _ _ _ _ _ Hgen) as Hled.
        pose proof (generateTokenPair_rateLimiter (User_Username creds) s) as Hrl.
        rewrite Hgen in Hrl. cbn [snd] in Hrl.
        split; [by do 3 right|]. split; [done|]. split; [done|].
        split; [done|]. split; [by intros _ [?|?]|].
        eexists. split; [apply Hlast|done].
    + split; [by right; right; left|]. split; [done|]. split; [done|].
      split; [done|]. split; [done|].
      eexists. split; [apply Hlast|done].
  - split; [by right; left|]. split; [done|]. split; [done|].
    split; [done|]. split; [done|].
    eexists. split; [apply Hlast|done].
Qed.

(** X7. [refreshHandler] answers 200, 400, 401 or 500 and never touches
    the rate limiter. With 400 or 401 the store is unchanged: a refused
    token is neither consumed nor removed. It answers 200 only for a token
    that was accepted as a refresh token and was in the store, and then the
    store is the former one without that token and with the returned
    refresh token recorded for the user named in the claims; with 500 the
    store is the former one without the token. *)
Theorem refresh_outcomes (w : ResponseWriter) (r : Request) (s : State) :
  let token := fst (decodeRefreshToken (Body r)) in
  let '(w', s') := refreshHandler clock w r s in
  (w_Status w' = StatusOK ∨ w_Status w' = StatusBadRequest
   ∨ w_Status w' = StatusUnauthorized ∨ w_Status w' = StatusInternalServerError)
  ∧ rateLimiter s' = rateLimiter s
  ∧ (w_Status w' = StatusBadRequest ∨ w_Status w' = StatusUnauthorized →
     refreshTokens s' = refreshTokens s)
  ∧ (w_Status w' = StatusOK →
     is_Some (refreshTokens s !! token)
     ∧ ∃ claims refresh,
         accepts (clock (ticks s)) token "refresh" claims
         ∧ issuedRefreshToken w' = Some refresh
         ∧ refreshTokens s'
           = <[refresh := Username claims]> (delete token (refreshTokens s)))
  ∧ (w_Status w' = StatusInternalServerError →
     refreshTokens s' = delete token (refreshTokens s)).
Proof.
  intros token. subst token. rewrite refreshHandler_eq.
  destruct (decodeRefreshToken (Body r)) as [token err]. cbn [fst].
  destruct (decide (err = None)) as [Herr|Herr].
  2:{ split; [by right; left|]. split; [done|]. by repeat split. }
  destruct (validateJWT clock token "refresh" s) as [[claims|e] s1] eqn:Hv.
  2:{ apply validateJWT_Err in Hv as (_ & Hled & Hrl).
      split; [by right; right; left|]. split; [done|]. by repeat split. }
  apply validateJWT_Ok_inv in Hv as [Hacc ->].
  cbn [tick refreshTokens rateLimiter ticks logged].
  destruct (decide (is_Some (refreshTokens s !! token))) as [Hin|Hin].
  2:{ split; [by right; right; left|]. split; [done|]. by repeat split. }
  destruct (generateTokenPair clock (Username claims) _) as [[[a rt]|e] s2] eqn:Hgen.
  - apply generateTokenPair_Ok_inv in Hgen as (_ & _ & ->).
    cbn [refreshTokens rateLimiter].
    split; [by left|]. split; [done|]. split; [by intros [?|?]|].
    split; [|done]. intros _. split; [done|]. exists claims, rt.
    split; [done|]. split; [apply issuedRefreshToken_respond|done].
  - pose proof (generateTokenPair_Err _ _ _ _ _ Hgen) as Hled.
    pose proof (generateTokenPair_rateLimiter (Username claims)
                  (mkState (delete token (refreshTokens s)) (rateLimiter s)
                           (S (ticks s)) (logged s))) as Hrl.
    rewrite Hgen in Hrl. cbn [snd rateLimiter] in Hrl.
    split; [by do 3 right|]. split; [done|]. split; [by intros [?|?]|].
    split; [done|]. by intros _.
Qed.

(** X8. Logout revokes: after [logoutHandler] has run on a body whose
    token is not empty (even when the decoder reports an error), every
    rotation of that token is answered with 401 and leaves the store as it
    is, while the entries of all other tokens are as before the logout. *)
Theorem logout_revokes (w : ResponseWriter) (rl : Request) (s : State) (t : string) :
  fst (decodeRefreshToken (Body rl)) = t →
  t ≠ EmptyString →
  let s1 := snd (logoutHandler w rl s) in
  (∀ w' r, decodeRefreshToken (Body r) = (t, None) →
           ∃ msg s2, refreshHandler clock w' r s1
                     = (respond w' StatusUnauthorized DataNil msg, s2)
                     ∧ refreshTokens s2 = refreshTokens s1)
  ∧ (∀ t', t' ≠ t → refreshTokens s1 !! t' = refreshTokens s !! t').
Proof.
  intros Ht Hne s1. subst s1. rewrite logoutHandler_eq. cbn [snd]. rewrite Ht.
  rewrite decide_False by done. split.
  - intros w' r Hbody. apply (absent_rejected clock t); [|done].
    cbn [refreshTokens]. apply lookup_delete_eq.
  - intros t' Hne'. cbn [refreshTokens]. by rewrite lookup_delete_ne.
Qed.

(** X9. Validation never consults the stores: [validateJWT] gives the same
    verdict in any two states in which the clock has been read equally
    often. In particular a logout does not invalidate an access token: it
    is accepted after the logout exactly as it was before. *)
Theorem validation_ignores_stores (tok expectedType : string) (s s' : State)
        (w : ResponseWriter) (r : Request) :
  (ticks s = ticks s' →
   fst (validateJWT clock tok expectedType s) = fst (validateJWT clock tok expectedType s'))
  ∧ fst (validateJWT clock tok expectedType (snd (logoutHandler w r s)))
    = fst (validateJWT clock tok expectedType s).
Proof.
  assert (Hticks : ∀ s1 s2, ticks s1 = ticks s2 →
            fst (validateJWT clock tok expectedType s1)
            = fst (validateJWT clock tok expectedType s2)).
  { intros s1 s2 Heq. rewrite !validateJWT_eq, Heq.
    destruct (jwt_ParseUnverified tok) as [[m c]|e]; [|done].
    destruct (isSigningMethodHMAC m && jwt_Verify m tok jwtSecret); [|done].
    destruct (validateClaims (clock (ticks s2)) c) as [[]|e]; [|done].
    by case_decide. }
  split; [apply Hticks|]. apply Hticks.
  rewrite logoutHandler_eq. cbn [snd]. by destruct (decide (_ = EmptyString)).
Qed.

End Routes.

(** ** Lifetime of tokens *)

Section Lifetime.

Variable clock : nat → Time.
Context {jwt : JWT} {json : JSONDecoder}.

(** X10. A token whose claims carry an expiry that the clock has reached
    is refused by [validateJWT], whatever its signature and type. Sent for
    rotation it is answered with 401, and it is not removed from the
    store. *)
Theorem expired_token_rejected (tok expectedType : string) (s : State)
        (m : SigningMethod) (c : Claims) (exp : NumericDate) :
  jwt_ParseUnverified tok = Ok (m, c) →
  ExpiresAt c = Some exp →
  NumericDate_Time exp ≤ clock (ticks s) →
  fst (validateJWT clock tok expectedType s) = Err ErrTokenInvalidClaims
  ∧ (∀ w r, decodeRefreshToken (Body r) = (tok, None) →
            ∃ s', refreshHandler clock w r s
                  = (respond w StatusUnauthorized DataNil "invalid refresh token", s')
                  ∧ refreshTokens s' = refreshTokens s).
Proof.
  intros Hparse Hexp Hnow.
  assert (Hclaims : validateClaims (clock (ticks s)) c = Err ErrTokenExpired).
  { unfold validateClaims, Time_Before. rewrite Hexp. cbn [from_option].
    by apply Z.ltb_ge in Hnow as ->. }
  assert (Hv : ∀ ty, ∃ s', validateJWT clock tok ty s = (Err ErrTokenInvalidClaims, s')
                           ∧ refreshTokens s' = refreshTokens s).
  { intros ty. rewrite validateJWT_eq, Hparse, Hclaims.
    destruct (isSigningMethodHMAC m && jwt_Verify m tok jwtSecret); eauto. }
  split.
  - destruct (Hv expectedType) as (s' & -> & _). done.
  - intros w r Hbody. destruct (Hv "refresh") as (s' & Hv' & Hled). exists s'.
    rewrite refreshHandler_eq, Hbody. rewrite decide_True by done. by rewrite Hv'.
Qed.

Context {laws : JWTLaws jwt}.

Lemma issued_rejected (username tokenType expectedType : string)
      (ttl : Duration) (t_exp t_iat : Time) (tok : string) (s : State) :
  utf8_ValidString username = true →
  utf8_ValidString tokenType = true →
  jwt_SignedString SigningMethodHS256
    (issuedClaims username tokenType ttl t_exp t_iat) jwtSecret = Ok tok →
  NumericDate_Time (NewNumericDate (Time_Add t_exp ttl)) ≤ clock (ticks s) →
  fst (validateJWT clock tok expectedType s) = Err ErrTokenInvalidClaims.
Proof.
  intros Hu Ht Hsign Hnow.
  destruct (sign_parse_verify SigningMethodHS256
              (issuedClaims username tokenType ttl t_exp t_iat) _ _ eq_refl Hu Ht Hsign)
    as [Hparse _].
  by apply (expired_token_rejected tok expectedType s _ _ _ Hparse eq_refl).
Qed.

(** X11. The tokens of a pair live for their configured lifetime, up to
    the truncation of the expiry to whole seconds. The access token of a
    pair issued when the clock reads [t0] is accepted at every time up to
    [t0 + accessTokenTTL - 1s] and refused at every time from
    [t0 + accessTokenTTL] on; the same holds for the refresh token, with
    [refreshTokenTTL] and the third reading of the clock. *)
Theorem token_lifetime (username access refresh : string) (s s1 s2 : State) :
  utf8_ValidString username = true →
  generateTokenPair clock username s = (Ok (access, refresh), s1) →
  let t0 := clock (ticks s) in
  let t2 := clock (S (S (ticks s))) in
  let now := clock (ticks s2) in
  (now ≤ t0 + accessTokenTTL - Second →
   isOk (fst (validateJWT clock access "access" s2)) = true)
  ∧ (t0 + accessTokenTTL ≤ now →
     fst (validateJWT clock access "access" s2) = Err ErrTokenInvalidClaims)
  ∧ (now ≤ t2 + refreshTokenTTL - Second →
     isOk (fst (validateJWT clock refresh "refresh" s2)) = true)
  ∧ (t2 + refreshTokenTTL ≤ now →
     fst (validateJWT clock refresh "refresh" s2) = Err ErrTokenInvalidClaims).
Proof.
  intros Hu Hgen t0 t2 now.
  apply generateTokenPair_Ok_inv in Hgen as (Ha & Hr & _).
  pose proof (NumericDate_bounds (Time_Add t0 accessTokenTTL)) as Hba.
  pose proof (NumericDate_bounds (Time_Add t2 refreshTokenTTL)) as Hbr.
  unfold NumericDate_Time, Time_Add in Hba, Hbr.
  split; [|split; [|split]].
  - intros Hnow.
    rewrite (validateJWT_Ok clock access "access" s2 (accessClaims clock username s));
      [done|].
    apply issued_accepts; [done..|]. unfold NumericDate_Time, Time_Add. fold t0 now. lia.
  - intros Hnow.
    apply (issued_rejected username "access" "access" accessTokenTTL t0 _ access s2
                           Hu utf8_access Ha).
    unfold NumericDate_Time, Time_Add. fold now. lia.
  - intros Hnow.
    rewrite (validateJWT_Ok clock refresh "refresh" s2 (refreshClaims clock username s));
      [done|].
    apply issued_accepts; [done..|]. unfold NumericDate_Time, Time_Add. fold t2 now. lia.
  - intros Hnow.
    apply (issued_rejected username "refresh" "refresh" refreshTokenTTL t2 _ refresh s2
                           Hu utf8_refresh Hr).
    unfold NumericDate_Time, Time_Add. fold now. lia.
Qed.

(** X12. What [generateTokenPair] leaves in the store. The two tokens of
    a pair are different strings, each embedding its own type; the refresh
    token is recorded for the user and every other entry of the store is as
    before, so the access token is not recorded; the rate limiter is
    untouched. A failed issuance leaves the store as it was. *)
Theorem issued_pair_recorded (username : string) (s : State) :
  utf8_ValidString username = true →
  let '(issued, s1) := generateTokenPair clock username s in
  rateLimiter s1 = rateLimiter s
  ∧ match issued with
    | Ok (access, refresh) =>
      access ≠ refresh
      ∧ embeddedType access = Some "access"
      ∧ embeddedType refresh = Some "refresh"
      ∧ refreshTokens s1 !! refresh = Some username
      ∧ (∀ k, k ≠ refresh → refreshTokens s1 !! k = refreshTokens s !! k)
    | Err _ => refreshTokens s1 = refreshTokens s
    end.
Proof.
  intros Hu.
  pose proof (generateTokenPair_rateLimiter clock username s) as Hrl.
  destruct (generateTokenPair clock username s) as [[[a rt]|e] s1] eqn:Hgen.
  - split; [done|].
    apply generateTokenPair_Ok_inv in Hgen as (Ha & Hr & ->).
    pose proof (issued_embeddedType _ _ _ _ _ _ Hu utf8_access Ha) as Hta.
    pose proof (issued_embeddedType _ _ _ _ _ _ Hu utf8_refresh Hr) as Htr.
    split; [|split; [done|split; [done|split]]].
    + intros ->. rewrite Hta in Htr. discriminate.
    + cbn [refreshTokens]. apply lookup_insert_eq.
    + intros k Hk. cbn [refreshTokens]. by rewrite lookup_insert_ne.
  - split; [done|]. by eapply generateTokenPair_Err.
Qed.

(** X13. Rotation is single use once the clock has moved on. When the
    issued-at second of the presented token differs from the second in
    which the rotation signs its new refresh token, a rotation answered
    with 200 returns a refresh token other than the presented one, the
    presented one is no longer in the store, and presenting it again is
    answered with 401 and changes nothing. *)
Theorem rotation_in_a_later_second (w : ResponseWriter) (r : Request) (s : State)
        (t : string) (m : SigningMethod) (c : Claims) :
  decodeRefreshToken (Body r) = (t, None) →
  jwt_ParseUnverified t = Ok (m, c) →
  utf8_ValidString (Username c) = true →
  IssuedAt c ≠ Some (NewNumericDate (clock (4 + ticks s)%nat)) →
  let '(w1, s1) := refreshHandler clock w r s in
  w_Status w1 = StatusOK →
  issuedRefreshToken w1 ≠ Some t
  ∧ refreshTokens s1 !! t = None
  ∧ ∃ msg s2, refreshHandler clock w r s1
              = (respond w StatusUnauthorized DataNil msg, s2)
              ∧ refreshTokens s2 = refreshTokens s1.
Proof.
  intros Hbody Hparse Hu Hiat.
  pose proof (rotated_then_refused clock t w r s Hbody) as Hagain.
  revert Hagain. rewrite refreshHandler_eq, Hbody. rewrite decide_True by done.
  destruct (validateJWT clock t "refresh" s) as [[claims|e] s0] eqn:Hv.
  2:{ intros _ H. discriminate H. }
  apply validateJWT_Ok_inv in Hv as [(m' & Hparse' & _) ->].
  rewrite Hparse in Hparse'. injection Hparse' as <- <-.
  cbn [tick refreshTokens rateLimiter ticks logged].
  destruct (decide (is_Some _)) as [Hin|Hin].
  2:{ intros _ H. discriminate H. }
  destruct (generateTokenPair clock (Username c) _) as [[[a rt]|e] s2] eqn:Hgen.
  2:{ intros _ H. discriminate H. }
  apply generateTokenPair_Ok_inv in Hgen as (_ & Hr & ->).
  cbn [fst snd refreshTokens]. intros Hagain _.
  assert (Hne : rt ≠ t).
  { intros ->.
    match type of Hr with
    | jwt_SignedString _ ?issued _ = _ =>
        destruct (sign_parse_verify SigningMethodHS256 issued _ _ eq_refl Hu
                                    utf8_refresh Hr) as [Hparse' _]
    end.
    rewrite Hparse in Hparse'. injection Hparse' as _ Hc.
    apply Hiat. by rewrite Hc. }
  assert (Hissued : issuedRefreshToken
                      (respond w StatusOK
                         (DataLogin (mkLoginResponse a rt
                                       (Duration_Seconds accessTokenTTL)
                                       "tokens refreshed")) "") ≠ Some t).
  { rewrite issuedRefreshToken_respond. cbn [RefreshToken]. by intros [= ->]. }
  split; [done|]. split.
  - rewrite lookup_insert_ne by done. apply lookup_delete_eq.
  - by apply Hagain.
Qed.

End Lifetime.

(** * The car handlers *)

(** ** [sortBy] *)

Section SortByProperties.

Context {A : Type}.
Variable less : A → A → bool.

Lemma pass_length (rest : list A) : ∀ x, length (snd (pass less x rest)) = length rest.
Proof.
  induction rest as [|y ys IH]; intros x; [done|].
  cbn [pass]. destruct (negb (less x y)).
  - specialize (IH y). destruct (pass less y ys) as [m ys']. cbn in *. by rewrite IH.
  - specialize (IH x). destruct (pass less x ys) as [m ys']. cbn in *. by rewrite IH.
Qed.

Lemma pass_Permutation (rest : list A) : ∀ x,
  fst (pass less x rest) :: snd (pass less x rest) ≡ₚ x :: rest.
Proof.
  induction rest as [|y ys IH]; intros x; [done|].
  cbn [pass]. destruct (negb (less x y)).
  - specialize (IH y). destruct (pass less y ys) as [m ys']. cbn [fst snd] in *.
    etrans; [apply Permutation_swap|]. by apply Permutation_skip.
  - specialize (IH x). destruct (pass less x ys) as [m ys']. cbn [fst snd] in *.
    etrans; [apply Permutation_swap|].
    etrans; [apply Permutation_skip, IH|]. apply Permutation_swap.
Qed.

Lemma insert_middle (l1 l2 : list A) (x y : A) (n : nat) :
  n = length l1 → <[n := y]> (l1 ++ x :: l2) = l1 ++ y :: l2.
Proof. intros ->. by rewrite insert_app_r_alt, Nat.sub_diag by lia. Qed.

(** One run of the inner loop is one pass. *)
Lemma sortBy_inner_pass (todo : list A) : ∀ (pre : list A) (x : A) (seen : list A),
  sortBy_inner less (length todo) (length pre) (length pre + 1 + length seen)
               (pre ++ x :: seen ++ todo)
  = pre ++ fst (pass less x todo) :: seen ++ snd (pass less x todo).
Proof.
  induction todo as [|y ys IH]; intros pre x seen; [done|].
  cbn [length sortBy_inner pass]. unfold swapUnless.
  assert (Hi : (pre ++ x :: seen ++ y :: ys) !! length pre = Some x).
  { by apply list_lookup_middle. }
  assert (Hj : (pre ++ x :: seen ++ y :: ys) !! (length pre + 1 + length seen)%nat
               = Some y).
  { replace (pre ++ x :: seen ++ y :: ys) with ((pre ++ x :: seen) ++ y :: ys)
      by (by rewrite <- app_assoc).
    apply list_lookup_middle. rewrite length_app. cbn [length]. lia. }
  rewrite Hi, Hj.
  assert (Hswap : <[length pre := y]>
                    (<[(length pre + 1 + length seen)%nat := x]>
                       (pre ++ x :: seen ++ y :: ys))
                  = pre ++ y :: (seen ++ [x]) ++ ys).
  { replace (pre ++ x :: seen ++ y :: ys) with ((pre ++ x :: seen) ++ y :: ys)
      by (by rewrite <- app_assoc).
    rewrite (insert_middle (pre ++ x :: seen))
      by (rewrite length_app; cbn [length]; lia).
    rewrite <- (app_assoc pre). cbn [app].
    rewrite (insert_middle pre) by done.
    by rewrite <- app_assoc. }
  destruct (negb (less x y)).
  - rewrite Hswap.
    replace (S (length pre + 1 + length seen))
      with (length pre + 1 + length (seen ++ [x]))%nat
      by (rewrite length_app; cbn; lia).
    rewrite IH. destruct (pass less y ys) as [m ys']. cbn [fst snd].
    by rewrite <- app_assoc.
  - replace (pre ++ x :: seen ++ y :: ys) with (pre ++ x :: (seen ++ [y]) ++ ys)
      by (by rewrite <- app_assoc).
    replace (S (length pre + 1 + length seen))
      with (length pre + 1 + length (seen ++ [y]))%nat
      by (rewrite length_app; cbn; lia).
    rewrite IH. destruct (pass less x ys) as [m ys']. cbn [fst snd].
    by rewrite <- app_assoc.
Qed.

Lemma sortBy_outer_done (n : nat) : ∀ (i : nat) (lst : list A),
  (length lst ≤ i + 1)%nat → sortBy_outer less n i lst = lst.
Proof.
  induction n as [|n IH]; intros i lst Hlen; [done|].
  cbn [sortBy_outer]. replace (length lst - (i + 1))%nat with 0%nat by lia.
  cbn [sortBy_inner]. apply IH. lia.
Qed.

(** The outer loop is the sequence of passes. *)
Lemma sortBy_outer_passes (n : nat) : ∀ (pre lst : list A),
  sortBy_outer less n (length pre) (pre ++ lst) = pre ++ passes less n lst.
Proof.
  induction n as [|n IH]; intros pre lst; [by destruct lst|].
  cbn [sortBy_outer passes]. destruct lst as [|x rest].
  - rewrite app_nil_r. replace (length pre - (length pre + 1))%nat with 0%nat by lia.
    cbn [sortBy_inner]. apply sortBy_outer_done. lia.
  - rewrite length_app. cbn [length].
    replace (length pre + S (length rest) - (length pre + 1))%nat
      with (length rest) by lia.
    pose proof (sortBy_inner_pass rest pre x []) as Hin.
    cbn [length app] in Hin. rewrite Nat.add_0_r in Hin. rewrite Hin.
    destruct (pass less x rest) as [m rest']. cbn [fst snd].
    replace (pre ++ m :: rest') with ((pre ++ [m]) ++ rest')
      by (by rewrite <- app_assoc).
    replace (S (length pre)) with (length (pre ++ [m]))
      by (rewrite length_app; cbn; lia).
    rewrite IH. by rewrite <- app_assoc.
Qed.

Lemma sortBy_passes (lst : list A) : sortBy less lst = passes less (length lst - 1) lst.
Proof. unfold sortBy. apply (sortBy_outer_passes _ [] lst). Qed.

Lemma passes_Permutation (n : nat) : ∀ lst, passes less n lst ≡ₚ lst.
Proof.
  induction n as [|n IH]; intros lst; [by destruct lst|].
  destruct lst as [|x rest]; [done|]. cbn [passes].
  pose proof (pass_Permutation rest x) as Hp.
  destruct (pass less x rest) as [m rest']. cbn [fst snd] in Hp.
  by rewrite IH.
Qed.

(** X14. [sortBy] rearranges the slice without losing or duplicating an
    element, whatever [less] answers: the result is a permutation of the
    slice, of the same length; a slice of at most one element is left as it
    is. *)
Theorem sortBy_permutation (lst : list A) :
  sortBy less lst ≡ₚ lst
  ∧ length (sortBy less lst) = length lst
  ∧ ((length lst ≤ 1)%nat → sortBy less lst = lst).
Proof.
  rewrite sortBy_passes.
  pose proof (passes_Permutation (length lst - 1) lst) as Hperm.
  split; [done|]. split; [by rewrite Hperm|].
  intros Hlen. replace (length lst - 1)%nat with 0%nat by lia. by destruct lst.
Qed.

(** The order: no element is strictly less than one that precedes it. *)
Hypothesis less_asym : ∀ a b, less a b = true → less b a = false.
Hypothesis less_negtrans : ∀ a b c, less b a = false → less c b = false → less c a = false.

Lemma less_irrefl (a : A) : less a a = false.
Proof. pose proof (less_asym a a) as H. destruct (less a a); [by apply H|done]. Qed.

Lemma pass_least (rest : list A) : ∀ x,
  less x (fst (pass less x rest)) = false
  ∧ Forall (λ y, less y (fst (pass less x rest)) = false) (snd (pass less x rest)).
Proof.
  induction rest as [|y ys IH]; intros x.
  - cbn. split; [apply less_irrefl|done].
  - cbn [pass]. destruct (less x y) eqn:Hxy; cbn [negb].
    + destruct (IH x) as [Hx Hys]. destruct (pass less x ys) as [m ys'].
      cbn [fst snd] in *. split; [done|]. constructor; [|done].
      apply (less_negtrans m x y); [done|]. by apply less_asym.
    + destruct (IH y) as [Hy Hys]. destruct (pass less y ys) as [m ys'].
      cbn [fst snd] in *. split.
      * by apply (less_negtrans m y x).
      * constructor; [|done]. by apply (less_negtrans m y x).
Qed.

Lemma passes_sorted (n : nat) : ∀ lst,
  (length lst - 1 ≤ n)%nat →
  StronglySorted (λ a b, less b a = false) (passes less n lst).
Proof.
  induction n as [|n IH]; intros lst Hlen.
  - destruct lst as [|x [|y rest]]; cbn in Hlen; try lia; cbn.
    + constructor.
    + repeat constructor.
  - destruct lst as [|x rest]; [constructor|]. cbn [passes].
    destruct (pass_least rest x) as [_ Hleast].
    pose proof (pass_length rest x) as Hlen'.
    destruct (pass less x rest) as [m rest']. cbn [fst snd] in *.
    constructor.
    + apply IH. cbn [length] in Hlen. lia.
    + by rewrite passes_Permutation.
Qed.

Lemma sorted_lookup (l : list A) :
  StronglySorted (λ a b, less b a = false) l →
  ∀ i j a b, (i < j)%nat → l !! i = Some a → l !! j = Some b → less b a = false.
Proof.
  induction 1 as [|x l Hl IH Hx]; intros i j a b Hij Hi Hj; [done|].
  destruct j as [|j]; [lia|]. cbn [lookup list_lookup] in Hj.
  destruct i as [|i].
  - cbn [lookup list_lookup] in Hi. injection Hi as ->.
    rewrite Forall_forall in Hx. apply Hx. by eapply list_elem_of_lookup_2.
  - cbn [lookup list_lookup] in Hi. apply (IH i j); [lia|done..].
Qed.

(** X15. When [less] is asymmetric and its negation transitive (a strict
    order on keys, as the comparisons of years are), the result of [sortBy]
    is in order: no element is strictly less than an element that precedes
    it. *)
Theorem sortBy_sorted (lst : list A) :
  ∀ i j a b, (i < j)%nat →
             sortBy less lst !! i = Some a → sortBy less lst !! j = Some b →
             less b a = false.
Proof.
  rewrite sortBy_passes. intros i j a b Hij Hi Hj.
  pose proof (passes_sorted (length lst - 1) lst ltac:(lia)) as Hsorted.
  by apply (sorted_lookup _ Hsorted i j).
Qed.

End SortByProperties.

(** ** The car store *)

Lemma wrap_int_id (z : Z) : - 2 ^ 63 ≤ z ≤ MaxInt → wrap_int z = z.
Proof.
  unfold wrap_int, MaxInt. intros Hz.
  rewrite Z.mod_small by lia. lia.
Qed.

Section CarProperties.

Context {float64 : Type}.
Variable Price_le_zero : float64 → bool.
Variable decodeCarListing : string → CarListing float64 * option error.
Variable Atoi : string → Result Z.
Variable Format_RFC3339 : Time → string.
Variable clock : nat → Time.


Lemma Context_Value_WithValue (r : Request) (claims : Claims) :
  Context_Value (Request_Context (WithValue r "claims" claims)) "claims" = Some claims.
Proof. cbn [WithValue Request_Context Context_Value]. by rewrite decide_True. Qed.

(** X16. [deleteCarHandler] removes at most the listing named by the path,
    and only when its seller is the user of the claims: every entry of the
    store is as before, except that this one listing is gone when the answer
    is 200. A listing of another seller is answered with 403 and stays. The
    handler panics exactly when the request carries no claims, which
    cannot be for a request handed over by [AuthMiddleware]. *)
Theorem delete_only_own_listing (w : CarWriter float64) (r : Request) (s : State)
        (cs : CarStore float64) :
  let '(out, (s', cs')) := deleteCarHandler Atoi w r (s, cs) in
  s' = s ∧ nextID cs' = nextID cs
  ∧ (∀ k, carStore cs' !! k = carStore cs !! k
          ∨ (carStore cs' !! k = None
             ∧ parseCarID Atoi (URL_Path r) = Ok k
             ∧ ∃ car claims w',
                 carStore cs !! k = Some car
                 ∧ Context_Value (Request_Context r) "claims" = Some claims
                 ∧ Seller car = Username claims
                 ∧ out = Responded w' ∧ cw_Status w' = StatusOK))
  ∧ (∀ claims id car,
       Context_Value (Request_Context r) "claims" = Some claims →
       parseCarID Atoi (URL_Path r) = Ok id →
       carStore cs !! id = Some car →
       Seller car ≠ Username claims →
       out = Responded (respondCar w StatusForbidden CarNil
                                   "you can only delete your own listings")
       ∧ cs' = cs)
  ∧ (out = Panicked ↔ Context_Value (Request_Context r) "claims" = None)
  ∧ (∀ r0 claims, r = WithValue r0 "claims" claims → out ≠ Panicked).
Proof.
  unfold deleteCarHandler.
  assert (Hwith : ∀ r0 claims, r = WithValue r0 "claims" claims →
                    Context_Value (Request_Context r) "claims" = Some claims).
  { intros r0 claims ->. apply Context_Value_WithValue. }
  destruct (Context_Value (Request_Context r) "claims") as [claims|] eqn:Hctx.
  2:{ repeat split; try done; try (by left).
      intros r0 claims Hr. by specialize (Hwith r0 claims Hr). }
  destruct (parseCarID Atoi (URL_Path r)) as [id|e] eqn:Hid.
  2:{ repeat split; try done; by left. }
  destruct (carStore cs !! id) as [car|] eqn:Hcar.
  2:{ repeat split; try done; try (by left); simplify_eq; congruence. }
  destruct (decide (Seller car = Username claims)) as [Hown|Hown].
  - rewrite bool_decide_false by (by intros ?). cbn [nextID carStore].
    split; [done|]. split; [done|]. split.
    { intros k. destruct (decide (k = id)) as [->|Hk].
      - right. rewrite lookup_delete_eq. split; [done|]. split; [done|].
        by eexists car, claims, _.
      - left. by rewrite lookup_delete_ne. }
    split; [|done].
    intros claims' id' car' ? ? Hcar' Hne. simplify_eq; try congruence.
  - rewrite bool_decide_true by done.
    split; [done|]. split; [done|]. split; [by left|]. split; [|done].
    intros claims' id' car' ? ? Hcar' Hne. by simplify_eq.
Qed.

(** X17. [addCarHandler] on a request that carries claims. It answers 400
    and changes nothing when the body does not decode or lacks a make, a
    model, a year or a positive price, and only then. Otherwise (the body
    decodes and has all four) it answers 201 and stores,
    under the identifier [nextID], the decoded listing with that
    identifier, no views, the time of the call and, as seller, the user of
    the claims, whatever identifier, seller, date or views the body named;
    the response carries the stored listing and [nextID] advances by one. *)
Theorem added_listing_owned_by_claims (w : CarWriter float64) (r : Request) (s : State)
        (cs : CarStore float64) (claims : Claims) :
  Context_Value (Request_Context r) "claims" = Some claims →
  let decoded := fst (decodeCarListing (Body r)) in
  let '(out, (s', cs')) :=
    addCarHandler Price_le_zero decodeCarListing Format_RFC3339 clock w r (s, cs) in
  ∃ w', out = Responded w'
    ∧ ((cw_Status w' = StatusBadRequest ∧ s' = s ∧ cs' = cs
        ∧ (snd (decodeCarListing (Body r)) ≠ None
           ∨ Make decoded = EmptyString ∨ Model decoded = EmptyString
           ∨ Year decoded = 0 ∨ Price_le_zero (Price decoded) = true))
       ∨ (cw_Status w' = StatusCreated
          ∧ snd (decodeCarListing (Body r)) = None
          ∧ (Make decoded ≠ EmptyString ∧ Model decoded ≠ EmptyString
             ∧ Year decoded ≠ 0 ∧ Price_le_zero (Price decoded) = false)
          ∧ ∃ car,
              car = listed Format_RFC3339 decoded (nextID cs) (Username claims)
                           (clock (ticks s))
              ∧ ID car = nextID cs ∧ Seller car = Username claims ∧ Views car = 0
              ∧ carStore cs' = <[nextID cs := car]> (carStore cs)
              ∧ nextID cs' = wrap_int (nextID cs + 1)
              ∧ last (cw_Body w') = Some (mkCarAPIResponse true (CarOne car) "")
              ∧ s' = tick s)).
Proof.
  intros Hctx decoded. subst decoded. unfold addCarHandler. rewrite Hctx.
  destruct (decodeCarListing (Body r)) as [car err]. cbn [fst snd].
  destruct (decide (err = None)) as [Herr|Herr].
  2:{ rewrite bool_decide_true by done. eexists. split; [done|]. left.
      repeat split; try done. by left. }
  rewrite bool_decide_false by (by intros ?).
  destruct (bool_decide (Make car = EmptyString) || bool_decide (Model car = EmptyString)
            || bool_decide (Year car = 0) || Price_le_zero (Price car)) eqn:Hreq.
  - eexists. split; [done|]. left. repeat split; try done. right.
    apply orb_true_iff in Hreq as [Hreq|Hreq]; [|by do 3 right].
    apply orb_true_iff in Hreq as [Hreq|Hreq];
      [|right; right; left; by apply bool_decide_eq_true in Hreq].
    apply orb_true_iff in Hreq as [Hreq|Hreq]; apply bool_decide_eq_true in Hreq;
      [by left|by right; left].
  - eexists. split; [done|]. right. split; [done|]. split; [done|].
    apply orb_false_iff in Hreq as [Hreq Hprice].
    apply orb_false_iff in Hreq as [Hreq Hyear].
    apply orb_false_iff in Hreq as [Hmake Hmodel].
    apply bool_decide_eq_false in Hmake, Hmodel, Hyear.
    split; [done|].
    eexists. split; [done|]. cbn [listed ID Seller Views carStore nextID].
    repeat split; try done.
    unfold respondCar. cbn [cw_Body]. by rewrite last_snoc.
Qed.

Lemma serveCar_step (call : CarCall) (w : CarWriter float64) (r : Request) (s : State)
      (cs : CarStore float64) :
  storeOK cs → nextID cs < MaxInt →
  let '(out, (s', cs')) :=
    serveCar Price_le_zero decodeCarListing Atoi Format_RFC3339 clock call w r (s, cs) in
  storeOK cs' ∧ nextID cs ≤ nextID cs' ≤ nextID cs + 1
  ∧ (∀ k car0, carStore cs !! k = Some car0 →
               call = CallDelete ∨ ∃ car1, carStore cs' !! k = Some car1
                                           ∧ Seller car1 = Seller car0).
Proof.
  intros [Hnext Hok] Hmax. destruct call; cbn [serveCar].
  - unfold getCarHandler.
    destruct (parseCarID Atoi (URL_Path r)) as [id|e].
    2:{ split; [done|]. split; [lia|]. intros k car0 Hk. right. by exists car0. }
    destruct (carStore cs !! id) as [car|] eqn:Hcar.
    2:{ split; [done|]. split; [lia|]. intros k car0 Hk. right. by exists car0. }
    lazy beta iota zeta. unfold storeOK. cbn [carStore nextID]. split; [|split; [lia|]].
    + split; [done|]. intros k car' Hk.
      destruct (decide (k = id)) as [->|Hne].
      * rewrite lookup_insert_eq in Hk. injection Hk as <-. cbn [viewed ID].
        by apply Hok.
      * rewrite lookup_insert_ne in Hk by done. by apply Hok.
    + intros k car0 Hk. right. destruct (decide (k = id)) as [->|Hne].
      * rewrite lookup_insert_eq. eexists. split; [done|].
        rewrite Hcar in Hk. by injection Hk as <-.
      * rewrite lookup_insert_ne by done. by exists car0.
  - unfold addCarHandler.
    destruct (Context_Value (Request_Context r) "claims") as [claims|].
    2:{ split; [done|]. split; [lia|]. intros k car0 Hk. right. by exists car0. }
    destruct (decodeCarListing (Body r)) as [car err].
    destruct (bool_decide (err ≠ None)).
    { split; [done|]. split; [lia|]. intros k car0 Hk. right. by exists car0. }
    destruct (_ || _).
    { split; [done|]. split; [lia|]. intros k car0 Hk. right. by exists car0. }
    lazy beta iota zeta. unfold storeOK. cbn [listed ID carStore nextID].
    rewrite wrap_int_id by (unfold MaxInt in *; lia).
    split; [|split; [lia|]].
    + split; [lia|]. intros k car' Hk.
      destruct (decide (k = nextID cs)) as [->|Hne].
      * rewrite lookup_insert_eq in Hk. injection Hk as <-. cbn [listed ID]. lia.
      * rewrite lookup_insert_ne in Hk by done.
        destruct (Hok k car' Hk) as [? ?]. split; [done|lia].
    + intros k car0 Hk. right. exists car0. split; [|done].
      rewrite lookup_insert_ne; [done|].
      intros <-. destruct (Hok _ _ Hk) as [_ ?]. lia.
  - unfold deleteCarHandler.
    destruct (Context_Value (Request_Context r) "claims") as [claims|].
    2:{ split; [done|]. split; [lia|]. intros k car0 Hk. by left. }
    destruct (parseCarID Atoi (URL_Path r)) as [id|e].
    2:{ split; [done|]. split; [lia|]. intros k car0 Hk. by left. }
    destruct (carStore cs !! id) as [car|] eqn:Hcar.
    2:{ split; [done|]. split; [lia|]. intros k car0 Hk. by left. }
    destruct (bool_decide (Seller car ≠ Username claims)).
    { split; [done|]. split; [lia|]. intros k car0 Hk. by left. }
    lazy beta iota zeta. unfold storeOK. cbn [carStore nextID]. split; [|split; [lia|intros k car0 Hk; by left]].
    split; [done|]. intros k car' Hk.
    apply lookup_delete_Some in Hk as [_ Hk]. by apply Hok.
Qed.

(** X18. The identifiers of the store. Starting from a store in which
    every listing is kept under its own identifier and all identifiers in
    use are positive and below [nextID] (as in the empty store of a server
    that starts), every run of calls of the three handlers keeps it so,
    as long as [nextID] stays within the range of [int]; [nextID] never
    decreases and grows by at most one per call. Hence [addCarHandler]
    never overwrites a listing: what was stored before a call that is not a
    deletion is still stored after it, for the same seller. *)
Theorem car_store_invariant (calls : list (CarCall * CarWriter float64 * Request))
        (s : State) (cs : CarStore float64) :
  storeOK cs →
  nextID cs + Z.of_nat (length calls) ≤ MaxInt →
  let '(outs, (s', cs')) :=
    serveCars Price_le_zero decodeCarListing Atoi Format_RFC3339 clock calls (s, cs) in
  storeOK cs'
  ∧ nextID cs ≤ nextID cs' ≤ nextID cs + Z.of_nat (length calls)
  ∧ length outs = length calls
  ∧ (Forall (λ c, c.1.1 ≠ CallDelete) calls →
     ∀ k car0, carStore cs !! k = Some car0 →
               ∃ car1, carStore cs' !! k = Some car1 ∧ Seller car1 = Seller car0).
Proof.
  revert s cs. induction calls as [|[[call w] r] calls IH]; intros s cs Hok Hmax.
  - cbn [serveCars length]. split; [done|]. split; [lia|]. split; [done|].
    intros _ k car0 Hk. by exists car0.
  - cbn [serveCars]. cbn [length] in Hmax.
    pose proof (serveCar_step call w r s cs Hok ltac:(lia)) as Hstep.
    destruct (serveCar _ _ _ _ _ call w r (s, cs)) as [out [s1 cs1]].
    destruct Hstep as (Hok1 & Hnext1 & Hkeep1).
    specialize (IH s1 cs1 Hok1 ltac:(lia)).
    destruct (serveCars _ _ _ _ _ calls (s1, cs1)) as [outs [s2 cs2]].
    destruct IH as (Hok2 & Hnext2 & Hlen & Hkeep2).
    cbn [length]. split; [done|]. split; [lia|]. split; [by rewrite Hlen|].
    intros Hall k car0 Hk. apply Forall_cons in Hall as [Hcall Hall].
    destruct (Hkeep1 k car0 Hk) as [->|(car1 & Hk1 & Hs1)]; [done|].
    destruct (Hkeep2 Hall k car1 Hk1) as (car2 & Hk2 & Hs2).
    exists car2. split; [done|]. by rewrite Hs2.
Qed.

Lemma storeOK_emptyStore : storeOK (emptyStore (float64 := float64)).
Proof.
  split; [done|]. intros id car Hid. cbn [emptyStore carStore] in Hid.
  by rewrite lookup_empty in Hid.
Qed.

Lemma viewed_iter (n : nat) (car : CarListing float64) :
  0 ≤ Views car → Views car + Z.of_nat n ≤ MaxInt →
  Nat.iter n viewed car
  = mkCar (ID car) (Make car) (Model car) (Year car) (Mileage car) (FuelType car)
          (Transmission car) (Condition car) (Price car) (Description car)
          (ImageURL car) (Seller car) (ListedAt car) (Views car + Z.of_nat n).
Proof.
  intros Hpos. induction n as [|n IH]; intros Hmax.
  - change (Nat.iter 0 viewed car) with car. rewrite Z.add_0_r. by destruct car.
  - rewrite Nat.iter_succ, IH by lia. unfold viewed. cbn.
    rewrite wrap_int_id by (unfold MaxInt in *; lia). f_equal. lia.
Qed.

(** X19. [getCarHandler] counts views. A path that is no identifier is
    answered with 400 and an unknown identifier with 404, without a change
    to the store. [n] calls for a stored listing are each answered with
    200, and afterwards the listing has [n] more views (as long as the
    count stays within the range of [int]) and is otherwise as it was; no
    other entry and not [nextID] is touched. No claims are needed. *)
Theorem views_counted (n : nat) (w : CarWriter float64) (r : Request) (s : State)
        (cs : CarStore float64) (id : Z) (car : CarListing float64) :
  parseCarID Atoi (URL_Path r) = Ok id →
  carStore cs !! id = Some car →
  0 ≤ Views car → Views car + Z.of_nat n ≤ MaxInt →
  let '(outs, (s', cs')) :=
    serveCars Price_le_zero decodeCarListing Atoi Format_RFC3339 clock
              (replicate n (CallGet, w, r)) (s, cs) in
  s' = s ∧ nextID cs' = nextID cs
  ∧ Forall (λ out, ∃ w', out = Responded w' ∧ cw_Status w' = StatusOK) outs
  ∧ length outs = n
  ∧ (∃ car', carStore cs' !! id = Some car'
             ∧ Views car' = Views car + Z.of_nat n
             ∧ Seller car' = Seller car ∧ ID car' = ID car ∧ Price car' = Price car)
  ∧ (∀ k, k ≠ id → carStore cs' !! k = carStore cs !! k).
Proof.
  intros Hid Hcar Hpos Hmax.
  assert (Hrun : ∀ m car0 cs0,
             carStore cs0 !! id = Some car0 →
             let '(outs, (s', cs')) :=
               serveCars Price_le_zero decodeCarListing Atoi Format_RFC3339 clock
                         (replicate m (CallGet, w, r)) (s, cs0) in
             s' = s ∧ nextID cs' = nextID cs0
             ∧ Forall (λ out, ∃ w', out = Responded w' ∧ cw_Status w' = StatusOK) outs
             ∧ length outs = m
             ∧ carStore cs' !! id = Some (Nat.iter m viewed car0)
             ∧ (∀ k, k ≠ id → carStore cs' !! k = carStore cs0 !! k)).
  { induction m as [|m IH]; intros car0 cs0 Hcar0.
    - cbn [replicate serveCars]. by repeat split.
    - cbn [replicate serveCars serveCar]. unfold getCarHandler at 1.
      rewrite Hid, Hcar0.
      specialize (IH (viewed car0)
                     (mkCarStore (<[id := viewed car0]> (carStore cs0)) (nextID cs0))).
      destruct (serveCars _ _ _ _ _ (replicate m (CallGet, w, r)) _)
        as [outs [s' cs']].
      destruct IH as (Hs & Hnext & Hall & Hlen & Hget & Hother).
      { cbn [carStore]. apply lookup_insert_eq. }
      cbn [nextID carStore] in *. split; [done|]. split; [done|].
      split; [constructor; [by eexists|done]|]. split; [cbn; by rewrite Hlen|].
      split.
      + rewrite Hget. f_equal. symmetry. apply Nat.iter_succ_r.
      + intros k Hk. rewrite Hother by done. by rewrite lookup_insert_ne. }
  specialize (Hrun n car cs Hcar).
  destruct (serveCars _ _ _ _ _ (replicate n (CallGet, w, r)) (s, cs))
    as [outs [s' cs']].
  destruct Hrun as (Hs & Hnext & Hall & Hlen & Hget & Hother).
  split; [done|]. split; [done|]. split; [done|]. split; [done|]. split; [|done].
  eexists. split; [exact Hget|]. rewrite viewed_iter by done. done.
Qed.

End CarProperties.

(** ** The demo inventory and the listings of other users *)

Section SeedProperties.

Context {float64 : Type}.
Variable float_of_Z : Z → float64.
Variable Price_le_zero : float64 → bool.
Variable decodeCarListing : string → CarListing float64 * option error.
Variable Atoi : string → Result Z.
Variable Format_RFC3339 : Time → string.
Variable rand_Intn : nat → Z → Z.
Variable clock : nat → Time.

Lemma seedFrom_spec (cars : list (CarListing float64)) :
  ∀ (i : nat) (s : State) (cs : CarStore float64),
    storeOK cs →
    nextID cs + Z.of_nat (length cars) ≤ MaxInt →
    let '(s', cs') := seedFrom Format_RFC3339 rand_Intn clock i cars (s, cs) in
    storeOK cs'
    ∧ nextID cs' = nextID cs + Z.of_nat (length cars)
    ∧ ticks s' = (length cars + ticks s)%nat
    ∧ refreshTokens s' = refreshTokens s
    ∧ rateLimiter s' = rateLimiter s
    ∧ (∀ id car, carStore cs !! id = Some car → carStore cs' !! id = Some car)
    ∧ (∀ (j : nat) d,
         cars !! j = Some d →
         carStore cs' !! (nextID cs + Z.of_nat j)
         = Some (seeded Format_RFC3339 rand_Intn d (nextID cs + Z.of_nat j) (i + j)
                        (clock (j + ticks s))))
    ∧ (∀ id, is_Some (carStore cs' !! id) →
             is_Some (carStore cs !! id)
             ∨ nextID cs ≤ id < nextID cs + Z.of_nat (length cars)).
Proof.
  induction cars as [|car rest IH]; intros i s cs Hok Hmax.
  - cbn [seedFrom length]. split; [done|]. split; [lia|]. split; [done|].
    split; [done|]. split; [done|]. split; [done|]. split; [|by left].
    intros j d Hj. by rewrite lookup_nil in Hj.
  - cbn [seedFrom]. cbn [length] in Hmax. destruct Hok as [Hnext Hok].
    cbn [seeded ID]. rewrite wrap_int_id by (unfold MaxInt in *; lia).
    set (car1 := seeded Format_RFC3339 rand_Intn car (nextID cs) i (clock (ticks s))).
    change (mkCar (nextID cs) (Make car) (Model car) (Year car) (Mileage car)
                  (FuelType car) (Transmission car) (Condition car) (Price car)
                  (Description car) (ImageURL car) "demo" _ _) with car1.
    set (cs1 := mkCarStore (<[nextID cs := car1]> (carStore cs)) (nextID cs + 1)).
    assert (Hok1 : storeOK cs1).
    { split; [cbn; lia|]. intros id c Hid. cbn [cs1 carStore nextID] in *.
      destruct (decide (id = nextID cs)) as [->|Hne].
      - rewrite lookup_insert_eq in Hid. injection Hid as <-. cbn [car1 seeded ID]. lia.
      - rewrite lookup_insert_ne in Hid by done.
        destruct (Hok id c Hid) as [? ?]. split; [done|lia]. }
    specialize (IH (S i) (tick s) cs1 Hok1 ltac:(cbn [cs1 nextID]; lia)).
    destruct (seedFrom Format_RFC3339 rand_Intn clock (S i) rest (tick s, cs1))
      as [s' cs'].
    destruct IH as (Hok' & Hnext' & Hticks & Htok & Hlim & Hkeep & Hnew & Hdom).
    cbn [cs1 nextID carStore] in Hnext', Hkeep, Hnew, Hdom.
    cbn [tick ticks refreshTokens rateLimiter] in Hticks, Htok, Hlim, Hnew.
    split; [done|]. split; [cbn [length]; lia|]. split; [cbn [length]; lia|].
    split; [done|]. split; [done|]. split; [|split].
    + intros id c Hid. apply Hkeep. rewrite lookup_insert_ne; [done|].
      intros <-. destruct (Hok _ _ Hid) as [_ ?]. lia.
    + intros [|j] d Hj.
      * cbn in Hj. injection Hj as <-.
        rewrite Z.add_0_r, Nat.add_0_r. cbn [Nat.add].
        apply Hkeep. by rewrite lookup_insert_eq.
      * cbn in Hj. specialize (Hnew j d Hj).
        replace (nextID cs + Z.of_nat (S j)) with (nextID cs + 1 + Z.of_nat j) by lia.
        replace (i + S j)%nat with (S i + j)%nat by lia.
        replace (S j + ticks s)%nat with (j + S (ticks s))%nat by lia.
        exact Hnew.
    + intros id Hid. destruct (Hdom id Hid) as [Hin|Hin].
      * destruct (decide (id = nextID cs)) as [->|Hne]; [right; cbn [length]; lia|].
        left. by rewrite lookup_insert_ne in Hin.
      * right. cbn [length]. lia.
Qed.

(** X20. [seedDemoInventory] on the store of a server that starts. It
    reads the clock six times and leaves the session stores alone; the
    store then holds exactly the identifiers 1 to 6 and [nextID] is 7;
    each listing is kept under its own identifier, for the seller
    ["demo"], with the make, model and price of the demo listing of that
    position, and, for draws of [rand.Intn(200)] within range, between 10
    and 209 views. *)
Theorem seed_inventory (s : State) :
  (∀ i, 0 ≤ rand_Intn i 200 < 200) →
  let '(s', cs') :=
    seedDemoInventory float_of_Z Format_RFC3339 rand_Intn clock (s, emptyStore) in
  storeOK cs'
  ∧ nextID cs' = 7
  ∧ ticks s' = (6 + ticks s)%nat
  ∧ refreshTokens s' = refreshTokens s ∧ rateLimiter s' = rateLimiter s
  ∧ (∀ id, is_Some (carStore cs' !! id) ↔ 1 ≤ id ≤ 6)
  ∧ ∀ id car,
      carStore cs' !! id = Some car →
      ID car = id ∧ Seller car = "demo" ∧ 10 ≤ Views car < 210
      ∧ ∃ d, demo float_of_Z !! Z.to_nat (id - 1) = Some d
             ∧ Make car = Make d ∧ Model car = Model d ∧ Price car = Price d.
Proof.
  intros Hrand. unfold seedDemoInventory.
  pose proof (seedFrom_spec (demo float_of_Z) 0 s emptyStore
                (storeOK_emptyStore (float64 := float64))
                ltac:(vm_compute; discriminate)) as H.
  destruct (seedFrom Format_RFC3339 rand_Intn clock 0 (demo float_of_Z) (s, emptyStore))
    as [s' cs'].
  destruct H as (Hok & Hnext & Hticks & Htok & Hlim & _ & Hnew & Hdom).
  cbn [emptyStore nextID carStore] in Hnext, Hnew, Hdom.
  change (length (demo float_of_Z)) with 6%nat in *.
  assert (Hat : ∀ id, 1 ≤ id ≤ 6 →
                ∃ d, demo float_of_Z !! Z.to_nat (id - 1) = Some d
                     ∧ carStore cs' !! id
                       = Some (seeded Format_RFC3339 rand_Intn d id (Z.to_nat (id - 1))
                                      (clock (Z.to_nat (id - 1) + ticks s)))).
  { intros id Hid.
    destruct (lookup_lt_is_Some_2 (demo float_of_Z) (Z.to_nat (id - 1))) as [d Hd].
    { change (length (demo float_of_Z)) with 6%nat. lia. }
    exists d. split; [done|]. specialize (Hnew _ d Hd).
    replace (1 + Z.of_nat (Z.to_nat (id - 1))) with id in Hnew by lia.
    exact Hnew. }
  split; [done|]. split; [lia|]. split; [done|]. split; [done|]. split; [done|].
  split.
  - intros id. split.
    + intros Hid. destruct (Hdom id Hid) as [[c Hc]|Hin]; [|lia].
      by rewrite lookup_empty in Hc.
    + intros Hid. destruct (Hat id Hid) as (d & _ & Hd). by eexists.
  - intros id car Hcar.
    assert (Hid : 1 ≤ id ≤ 6).
    { destruct (Hdom id ltac:(by eexists)) as [[c Hc]|Hin]; [|lia].
      by rewrite lookup_empty in Hc. }
    destruct (Hat id Hid) as (d & Hd & Hstored).
    rewrite Hstored in Hcar. injection Hcar as <-. cbn [seeded ID Seller Views Make Model Price].
    split; [done|]. split; [done|]. split.
    + specialize (Hrand (Z.to_nat (id - 1))).
      rewrite wrap_int_id by (unfold MaxInt; lia). lia.
    + by exists d.
Qed.

Lemma serveCar_keeps (call : CarCall) (w : CarWriter float64) (r : Request) (s : State)
      (cs : CarStore float64) (u : string) :
  storeOK cs → nextID cs < MaxInt →
  (∀ claims, Context_Value (Request_Context r) "claims" = Some claims →
             Username claims ≠ u) →
  let '(out, (s', cs')) :=
    serveCar Price_le_zero decodeCarListing Atoi Format_RFC3339 clock call w r (s, cs) in
  ∀ k car0, carStore cs !! k = Some car0 → Seller car0 = u →
            ∃ car1, carStore cs' !! k = Some car1
                    ∧ Seller car1 = u ∧ ID car1 = ID car0 ∧ Price car1 = Price car0.
Proof.
  intros [Hnext Hok] Hmax Hother. destruct call; cbn [serveCar].
  - unfold getCarHandler.
    destruct (parseCarID Atoi (URL_Path r)) as [id|e].
    2:{ intros k car0 Hk Hu. by exists car0. }
    destruct (carStore cs !! id) as [car|] eqn:Hcar.
    2:{ intros k car0 Hk Hu. by exists car0. }
    lazy beta iota zeta. cbn [carStore].
    intros k car0 Hk Hu. destruct (decide (k = id)) as [->|Hne].
    + rewrite lookup_insert_eq. eexists. split; [done|].
      rewrite Hcar in Hk. by injection Hk as <-.
    + rewrite lookup_insert_ne by done. by exists car0.
  - unfold addCarHandler.
    destruct (Context_Value (Request_Context r) "claims") as [claims|].
    2:{ intros k car0 Hk Hu. by exists car0. }
    destruct (decodeCarListing (Body r)) as [car err].
    destruct (bool_decide (err ≠ None)).
    { intros k car0 Hk Hu. by exists car0. }
    destruct (_ || _).
    { intros k car0 Hk Hu. by exists car0. }
    lazy beta iota zeta. cbn [listed ID carStore].
    intros k car0 Hk Hu. exists car0. split; [|done].
    rewrite lookup_insert_ne; [done|].
    intros <-. destruct (Hok _ _ Hk) as [_ ?]. lia.
  - unfold deleteCarHandler.
    destruct (Context_Value (Request_Context r) "claims") as [claims|] eqn:Hctx.
    2:{ intros k car0 Hk Hu. by exists car0. }
    destruct (parseCarID Atoi (URL_Path r)) as [id|e].
    2:{ intros k car0 Hk Hu. by exists car0. }
    destruct (carStore cs !! id) as [car|] eqn:Hcar.
    2:{ intros k car0 Hk Hu. by exists car0. }
    destruct (decide (Seller car = Username claims)) as [Hown|Hown].
    2:{ rewrite bool_decide_true by done. intros k car0 Hk Hu. by exists car0. }
    rewrite bool_decide_false by (by intros ?). cbn [carStore].
    intros k car0 Hk Hu. exists car0. split; [|done].
    rewrite lookup_delete_ne; [done|].
    intros <-. rewrite Hcar in Hk. injection Hk as <-.
    apply (Hother claims eq_refl). by rewrite <- Hown.
Qed.

(** X21. The listings of a user outlive the other users. Over every run
    of calls of the three handlers in which no request carries the
    claims of user [u], each listing of [u] stays in the store, under its
    identifier and with its seller and price (its views may grow), as
    long as [nextID] stays within the range of [int]. In particular,
    with requests of other users only, the listings of ["demo"] can be
    viewed but never removed. *)
Theorem listings_outlive_other_users
        (calls : list (CarCall * CarWriter float64 * Request)) (s : State)
        (cs : CarStore float64) (u : string) :
  storeOK cs →
  nextID cs + Z.of_nat (length calls) ≤ MaxInt →
  Forall (λ c, ∀ claims, Context_Value (Request_Context c.2) "claims" = Some claims →
                         Username claims ≠ u) calls →
  let '(_, (_, cs')) :=
    serveCars Price_le_zero decodeCarListing Atoi Format_RFC3339 clock calls (s, cs) in
  ∀ k car0, carStore cs !! k = Some car0 → Seller car0 = u →
            ∃ car1, carStore cs' !! k = Some car1
                    ∧ Seller car1 = u ∧ ID car1 = ID car0 ∧ Price car1 = Price car0.
Proof.
  revert s cs. induction calls as [|[[call w] r] calls IH]; intros s cs Hok Hmax Hall.
  - cbn [serveCars]. intros k car0 Hk Hu. by exists car0.
  - cbn [serveCars]. cbn [length] in Hmax.
    apply Forall_cons in Hall as [Hcall Hall]. cbn [snd] in Hcall.
    pose proof (serveCar_step Price_le_zero decodeCarListing Atoi Format_RFC3339 clock
                  call w r s cs Hok ltac:(lia)) as Hstep.
    pose proof (serveCar_keeps call w r s cs u Hok ltac:(lia) Hcall) as Hkeep.
    destruct (serveCar _ _ _ _ _ call w r (s, cs)) as [out [s1 cs1]].
    destruct Hstep as (Hok1 & Hnext1 & _).
    specialize (IH s1 cs1 Hok1 ltac:(lia) Hall).
    destruct (serveCars _ _ _ _ _ calls (s1, cs1)) as [outs [s2 cs2]].
    intros k car0 Hk Hu.
    destruct (Hkeep k car0 Hk Hu) as (car1 & Hk1 & Hu1 & Hid1 & Hp1).
    destruct (IH k car1 Hk1 Hu1) as (car2 & Hk2 & Hu2 & Hid2 & Hp2).
    exists car2. split; [done|]. split; [done|]. split; congruence.
Qed.

End SeedProperties.

(** * Runs on the reference implementation *)

#[local] Existing Instances Reference.jwt Reference.json ReferenceLaws.laws.

(** C1: the demo user logs in and the refresh token is rotated twice within
    the second of the login. *)
Lemma replay_within_one_second_witness :
  let t := Reference.refreshOf Reference.frozenClock in
  let r := Reference.refreshRequest t in
  let '(w1, s2) := refreshHandler Reference.frozenClock newWriter r
                                  (snd (Reference.login Reference.frozenClock)) in
  let '(w2, s3) := refreshHandler Reference.frozenClock newWriter r s2 in
  w_Status w1 = StatusOK
  ∧ issuedRefreshToken w1 = Some t
  ∧ refreshTokens s2 !! t = Some "seller"
  ∧ w_Status w2 = StatusOK
  ∧ issuedRefreshToken w2 = Some t.
Proof.
  intros t r.
  apply (replay_within_one_second Reference.frozenClock 1700000000 (λ _, eq_refl)
           "seller" (Reference.accessOf Reference.frozenClock) t newWriter r initState).
  - reflexivity.
  - vm_compute. reflexivity.
  - vm_compute. reflexivity.
Defined.

(** C2: the demo user logs in and two requests rotate the refresh token at
    the same time, on a clock that advances at every reading. *)
Lemma double_rotation_interleaved_witness :
  let t := Reference.refreshOf Reference.steadyClock in
  let r := Reference.refreshRequest t in
  ∃ wa' wb' ta tb s',
    runSchedule Reference.steadyClock [0; 1; 0; 1; 0; 1; 0; 1; 0; 1]%nat
                [AtValidate newWriter r; AtValidate newWriter r]
                (snd (Reference.login Reference.steadyClock))
    = ([Returned wa'; Returned wb'], s')
    ∧ w_Status wa' = StatusOK ∧ issuedRefreshToken wa' = Some ta
    ∧ w_Status wb' = StatusOK ∧ issuedRefreshToken wb' = Some tb
    ∧ refreshTokens s' !! ta = Some "seller"
    ∧ refreshTokens s' !! tb = Some "seller".
Proof.
  intros t r.
  apply (double_rotation_interleaved Reference.steadyClock "seller"
           (Reference.accessOf Reference.steadyClock) t newWriter newWriter r r initState).
  - intros c. reflexivity.
  - intros n Hn. cbn [ticks initState] in Hn.
    assert (Hcases : n = 4%nat ∨ n = 5%nat) by lia.
    destruct Hcases as [-> | ->]; vm_compute; reflexivity.
  - reflexivity.
  - vm_compute. reflexivity.
  - vm_compute. reflexivity.
  - vm_compute. reflexivity.
Defined.

(** C5: the refresh token of a login, sent as a bearer token to the
    logout route's guard. *)
Lemma role_separation_witness :
  let t := Reference.refreshOf Reference.frozenClock in
  let s := snd (Reference.login Reference.frozenClock) in
  ∃ s', AuthMiddleware Reference.frozenClock logoutHandler newWriter
                       (Reference.logoutRequest ("Bearer " +:+ t) EmptyString) s
        = (respond newWriter StatusUnauthorized DataNil "invalid or expired access token",
           s')
        ∧ refreshTokens s' = refreshTokens s.
Proof.
  intros t s.
  refine (proj1 (proj2 (role_separation Reference.frozenClock t "access" s _))
                eq_refl logoutHandler newWriter _ _ _).
  - vm_compute. discriminate.
  - vm_compute. discriminate.
  - vm_compute. reflexivity.
Defined.

(** C6 as stated fails: a token that declares HS384, not HS256, and is
    signed with the secret is accepted. *)
Lemma hs256_only_counterexample :
  declaredMethod Reference.hs384Token = Some SigningMethodHS384
  ∧ declaredMethod Reference.hs384Token ≠ Some SigningMethodHS256
  ∧ validateJWT Reference.frozenClock Reference.hs384Token "access" initState
    = (Ok Reference.hs384Claims, tick initState).
Proof.
  split; [vm_compute; reflexivity|]. split; [vm_compute; discriminate|].
  vm_compute. reflexivity.
Qed.

(** C6, as amended, at a token that declares the algorithm none. *)
Lemma non_hmac_algorithm_rejected_witness :
  validateJWT Reference.frozenClock Reference.noneToken "access" initState
  = (Err ErrTokenInvalidClaims, initState).
Proof.
  apply non_hmac_algorithm_rejected; vm_compute; discriminate.
Defined.

(** C7: the demo user logs in and the refresh token is rotated within the
    second of the login. The token is deleted, issued again and recorded
    again, and the next rotation of it answers 200. *)
Lemma deleted_token_recorded_again_witness :
  let t := Reference.refreshOf Reference.frozenClock in
  let r := Reference.refreshRequest t in
  let s1 := snd (Reference.login Reference.frozenClock) in
  let deleted := mkState (delete t (refreshTokens s1)) (rateLimiter s1)
                         (S (ticks s1)) (logged s1) in
  let '(issued, s2) := generateTokenPair Reference.frozenClock "seller" deleted in
  let '(w1, s') := refreshHandler Reference.frozenClock newWriter r s1 in
  is_Some (refreshTokens s1 !! t)
  ∧ refreshTokens deleted !! t = None
  ∧ issued = Ok (Reference.accessOf Reference.frozenClock, t)
  ∧ s' = s2
  ∧ w_Status w1 = StatusOK
  ∧ refreshTokens s' !! t = Some "seller"
  ∧ w_Status (fst (refreshHandler Reference.frozenClock newWriter r s')) = StatusOK.
Proof.
  intros t r s1.
  apply (deleted_token_recorded_again Reference.frozenClock 1700000000 (λ _, eq_refl)
           "seller" (Reference.accessOf Reference.frozenClock) t newWriter r initState).
  - reflexivity.
  - vm_compute. reflexivity.
  - vm_compute. reflexivity.
Defined.

(** The order of deletion and issuance on a server whose signing backend
    fails: the answer is 500 and the old token is gone from the store. *)
Lemma delete_before_issue_witness :
  let r := Reference.refreshRequest Reference.staleToken in
  let '(w', s') := refreshHandler (jwt := Reference.failingSigner) Reference.frozenClock
                                  newWriter r Reference.staleState in
  w_Status w' = StatusInternalServerError
  ∧ refreshTokens s' !! Reference.staleToken = None.
Proof.
  intros r.
  pose proof (delete_before_issue (jwt := Reference.failingSigner)
                (json := Reference.json) Reference.frozenClock
                newWriter r Reference.staleState Reference.staleToken
                (mkClaims "seller" "refresh" (Some 1700604800) None (Some 1700000000))
                ltac:(vm_compute; reflexivity) ltac:(vm_compute; reflexivity)
                ltac:(vm_compute; eexists; reflexivity)) as H.
  cbv zeta in H.
  destruct (generateTokenPair (jwt := Reference.failingSigner) _ _ _)
    as [issued s2] eqn:Hgen.
  destruct (refreshHandler (jwt := Reference.failingSigner) _ _ _ _) as [w' s'].
  destruct H as (_ & H & _).
  vm_compute in Hgen. injection Hgen as <- _.
  destruct H as (-> & _ & Habsent). split; [reflexivity | exact Habsent].
Defined.

(** C8: the login of the demo user, verified in the state it leaves. *)
Lemma issue_verify_round_trip_witness :
  let '(w', s1) := Reference.login Reference.frozenClock in
  ∃ access refresh,
    w_Body w' = [mkAPIResponse true
                   (DataLogin (mkLoginResponse access refresh 900 "login successful")) ""]
    ∧ roundTrips Reference.frozenClock access "seller" s1.
Proof.
  pose proof (proj2 (issue_verify_round_trip Reference.frozenClock initState
                       (snd (Reference.login Reference.frozenClock))
                       ltac:(vm_compute; reflexivity))
                    newWriter Reference.loginRequest
                    (fst (Reference.login Reference.frozenClock))
                    (snd (Reference.login Reference.frozenClock))) as H.
  unfold Reference.login in *.
  destruct (loginHandler Reference.frozenClock newWriter Reference.loginRequest initState)
    as [w' s1] eqn:Hlogin.
  cbn [fst snd] in H.
  assert (Hst : w_Status w' = StatusOK).
  { vm_compute in Hlogin. by injection Hlogin as <- _. }
  exact (H eq_refl Hst).
Defined.

(** C9 as stated fails on the route: a logout that names the refresh
    token of a login but carries no [Authorization] header is answered
    401, and the token stays in the store. *)
Lemma logout_route_counterexample :
  let t := Reference.refreshOf Reference.frozenClock in
  let s := snd (Reference.login Reference.frozenClock) in
  let r := Reference.post "/api/logout" ∅ ("refresh_token=" +:+ t) in
  refreshTokens s !! t = Some "seller"
  ∧ w_Status (fst (route_logout Reference.frozenClock newWriter r s)) = StatusUnauthorized
  ∧ w_Status (fst (route_logout Reference.frozenClock newWriter r s)) ≠ StatusOK
  ∧ refreshTokens (snd (route_logout Reference.frozenClock newWriter r s)) !! t
    = Some "seller".
Proof.
  intros t s r. rewrite (route_logout_guarded Reference.frozenClock newWriter r s eq_refl).
  cbn [fst snd refreshTokens respond w_Status].
  split; [vm_compute; reflexivity|]. split; [reflexivity|].
  split; [discriminate|]. vm_compute. reflexivity.
Qed.

(** C9, as amended: a logout with an unreadable body through the route,
    with the access token of a login. *)
Lemma logout_total_idempotent_witness :
  let s := snd (Reference.login Reference.frozenClock) in
  let r := Reference.logoutRequest ("Bearer " +:+ Reference.accessOf Reference.frozenClock)
                                   "not a body" in
  w_Status (fst (route_logout Reference.frozenClock newWriter r s)) = StatusOK.
Proof.
  intros s r.
  pose proof (logout_total_idempotent Reference.frozenClock newWriter r s) as H.
  cbv zeta in H.
  destruct (logoutHandler newWriter r s) as [w1 s1].
  destruct (logoutHandler newWriter r s1) as [w2 s2].
  destruct H as (_ & _ & _ & _ & H & _).
  apply (H (mkClaims "seller" "access" (Some 1700000900) None (Some 1700000000))).
  - by left.
  - vm_compute. discriminate.
  - vm_compute. reflexivity.
Defined.

(** C10: the access token of a login, sent without the prefix. *)
Lemma bearer_prefix_optional_witness :
  let s := snd (Reference.login Reference.frozenClock) in
  let r := Reference.logoutRequest (Reference.accessOf Reference.frozenClock) EmptyString in
  let claims := mkClaims "seller" "access" (Some 1700000900) None (Some 1700000000) in
  AuthMiddleware Reference.frozenClock logoutHandler newWriter r s
  = logoutHandler newWriter (WithValue r "claims" claims) (tick s)
  ∧ Context_Value (Request_Context (WithValue r "claims" claims)) "claims" = Some claims.
Proof.
  intros s r claims.
  refine (proj2 (proj2 (proj2 (bearer_prefix_optional Reference.frozenClock logoutHandler
                                 newWriter r s))) claims _ _).
  - vm_compute. discriminate.
  - vm_compute. reflexivity.
Defined.


(** ** Runs for the further properties *)

(** X2: a request that names forwarded addresses, and one that does
    not. *)
Lemma getIP_client_witness :
  getIP (Reference.post "/api/login" {[ "X-Forwarded-For" := "198.51.100.2, 10.0.0.1" ]}
                        EmptyString) = "198.51.100.2"
  ∧ getIP (Reference.post "/api/login" ∅ EmptyString) = "203.0.113.7".
Proof.
  split.
  - apply (proj1 (getIP_client
                    (Reference.post "/api/login"
                                    {[ "X-Forwarded-For" := "198.51.100.2, 10.0.0.1" ]}
                                    EmptyString))
                 "198.51.100.2" " 10.0.0.1"); vm_compute; reflexivity.
  - apply (proj1 (proj2 (proj2 (getIP_client (Reference.post "/api/login" ∅ EmptyString))))
                 "203.0.113.7" "40000"); vm_compute; reflexivity.
Defined.

(** X3: seven checks for one client leave the window of another, filled
    by two earlier checks, as it was. *)
Lemma windows_per_client_witness :
  let s := snd (checks Reference.steadyClock "198.51.100.2" 2 initState) in
  let s' := snd (checks Reference.steadyClock "203.0.113.7" 7 s) in
  stored s' "198.51.100.2" = stored s "198.51.100.2"
  ∧ stored s "198.51.100.2" = [Reference.steadyClock 0; Reference.steadyClock 1]
  ∧ refreshTokens s' = refreshTokens s
  ∧ ticks s' = (7 + ticks s)%nat.
Proof.
  intros s s'.
  destruct (windows_per_client Reference.steadyClock "203.0.113.7" "198.51.100.2" 7 s
              ltac:(discriminate)) as (Hwin & Htok & Hticks).
  split; [exact Hwin|]. split; [vm_compute; reflexivity|]. split; [exact Htok|exact Hticks].
Defined.

(** X4: a request that names a forwarded address is counted in the window
    of that address, which holds one entry of two minutes ago. *)
Lemma forwarded_header_selects_window_witness :
  let r := Reference.post "/api/login" {[ "X-Forwarded-For" := "198.51.100.2, 10.0.0.1" ]}
                          "username=seller&password=carmarket123" in
  let s := mkState ∅ {[ "198.51.100.2" := [Reference.epoch - 2 * Minute] ]} 0 [] in
  RateLimitMiddleware Reference.frozenClock (loginHandler Reference.frozenClock) newWriter r s
  = loginHandler Reference.frozenClock newWriter r
      (mkState ∅ {[ "198.51.100.2" := [Reference.epoch] ]} 1 []).
Proof.
  intros r s.
  rewrite (forwarded_header_selects_window Reference.frozenClock
             (loginHandler Reference.frozenClock) newWriter r s).
  - reflexivity.
  - vm_compute. discriminate.
  - intros e He. vm_compute in He. apply list_elem_of_singleton in He. subst e.
    vm_compute. discriminate.
Defined.

(** X8: the refresh token of a login is sent to the logout handler and
    then to the refresh handler. *)
Lemma logout_revokes_witness :
  let t := Reference.refreshOf Reference.frozenClock in
  let s := snd (Reference.login Reference.frozenClock) in
  let rl := Reference.logoutRequest EmptyString ("refresh_token=" +:+ t) in
  let s1 := snd (logoutHandler newWriter rl s) in
  refreshTokens s !! t = Some "seller"
  ∧ ∃ msg s2,
      refreshHandler Reference.frozenClock newWriter (Reference.refreshRequest t) s1
      = (respond newWriter StatusUnauthorized DataNil msg, s2)
      ∧ refreshTokens s2 = refreshTokens s1.
Proof.
  intros t s rl s1. split; [vm_compute; reflexivity|].
  refine (proj1 (logout_revokes (jwt := Reference.jwt) (json := Reference.json)
                                Reference.frozenClock newWriter rl s t _ _)
                newWriter (Reference.refreshRequest t) _).
  - vm_compute. reflexivity.
  - vm_compute. discriminate.
  - vm_compute. reflexivity.
Defined.

(** X10: the refresh token of a login, still in the store, is sent to the
    refresh handler when its seven days have passed. *)
Lemma expired_token_rejected_witness :
  let t := Reference.refreshOf Reference.frozenClock in
  let s := snd (Reference.login Reference.frozenClock) in
  let later : nat → Time := λ _, Reference.epoch + refreshTokenTTL in
  refreshTokens s !! t = Some "seller"
  ∧ fst (validateJWT later t "refresh" s) = Err ErrTokenInvalidClaims
  ∧ ∃ s', refreshHandler later newWriter (Reference.refreshRequest t) s
          = (respond newWriter StatusUnauthorized DataNil "invalid refresh token", s')
          ∧ refreshTokens s' = refreshTokens s.
Proof.
  intros t s later. split; [vm_compute; reflexivity|].
  destruct (expired_token_rejected (jwt := Reference.jwt) (json := Reference.json) later t "refresh" s SigningMethodHS256
              (mkClaims "seller" "refresh" (Some 1700604800) None (Some 1700000000))
              1700604800
              ltac:(vm_compute; reflexivity) ltac:(reflexivity)
              ltac:(vm_compute; discriminate)) as [Hv Hr].
  split; [exact Hv|].
  apply Hr. vm_compute. reflexivity.
Defined.

(** X11: the pair issued for the demo user on a server that has just
    started, validated right away and a quarter of an hour later. *)
Lemma token_lifetime_witness :
  let later := mkState ∅ ∅ 900 [] in
  match generateTokenPair Reference.steadyClock "seller" initState with
  | (Ok (access, refresh), s1) =>
      isOk (fst (validateJWT Reference.steadyClock access "access" s1)) = true
      ∧ isOk (fst (validateJWT Reference.steadyClock refresh "refresh" s1)) = true
      ∧ fst (validateJWT Reference.steadyClock access "access" later)
        = Err ErrTokenInvalidClaims
      ∧ isOk (fst (validateJWT Reference.steadyClock refresh "refresh" later)) = true
  | (Err _, _) => False
  end.
Proof.
  intros later.
  destruct (generateTokenPair Reference.steadyClock "seller" initState)
    as [[[access refresh]|e] s1] eqn:Hgen.
  2:{ vm_compute in Hgen. discriminate. }
  assert (Hticks : ticks s1 = 4%nat).
  { vm_compute in Hgen. by injection Hgen as _ _ <-. }
  pose proof (token_lifetime Reference.steadyClock "seller" access refresh initState s1 s1
                eq_refl Hgen) as (Ha & _ & Hr & _).
  pose proof (token_lifetime Reference.steadyClock "seller" access refresh initState s1 later
                eq_refl Hgen) as (_ & Ha' & Hr' & _).
  rewrite Hticks in Ha, Hr.
  split; [apply Ha; vm_compute; discriminate|].
  split; [apply Hr; vm_compute; discriminate|].
  split; [apply Ha'; vm_compute; discriminate|].
  apply Hr'. vm_compute. discriminate.
Defined.

(** X12: the pair issued for the demo user on a server that has just
    started. *)
Lemma issued_pair_recorded_witness :
  match generateTokenPair Reference.steadyClock "seller" initState with
  | (Ok (access, refresh), s1) =>
      access ≠ refresh
      ∧ embeddedType access = Some "access"
      ∧ embeddedType refresh = Some "refresh"
      ∧ refreshTokens s1 !! refresh = Some "seller"
  | (Err _, _) => False
  end.
Proof.
  pose proof (issued_pair_recorded Reference.steadyClock "seller" initState eq_refl) as H.
  destruct (generateTokenPair Reference.steadyClock "seller" initState)
    as [[[access refresh]|e] s1] eqn:Hgen.
  2:{ vm_compute in Hgen. discriminate. }
  destruct H as (_ & Hne & Ha & Hr & Hstored & _). by repeat split.
Defined.

(** X13: the demo user logs in on a clock that advances at every reading,
    and the refresh token is sent twice. *)
Lemma rotation_in_a_later_second_witness :
  let t := Reference.refreshOf Reference.steadyClock in
  let r := Reference.refreshRequest t in
  let '(w1, s1) := refreshHandler Reference.steadyClock newWriter r
                                  (snd (Reference.login Reference.steadyClock)) in
  w_Status w1 = StatusOK
  ∧ issuedRefreshToken w1 ≠ Some t
  ∧ refreshTokens s1 !! t = None
  ∧ ∃ msg s2, refreshHandler Reference.steadyClock newWriter r s1
              = (respond newWriter StatusUnauthorized DataNil msg, s2)
              ∧ refreshTokens s2 = refreshTokens s1.
Proof.
  intros t r.
  pose proof (rotation_in_a_later_second (jwt := Reference.jwt) (json := Reference.json)
                Reference.steadyClock newWriter r
                (snd (Reference.login Reference.steadyClock)) t SigningMethodHS256
                (mkClaims "seller" "refresh" (Some 1700604802) None (Some 1700000003))
                ltac:(vm_compute; reflexivity) ltac:(vm_compute; reflexivity)
                ltac:(reflexivity) ltac:(vm_compute; discriminate)) as H.
  destruct (refreshHandler Reference.steadyClock newWriter r
                           (snd (Reference.login Reference.steadyClock)))
    as [w1 s1] eqn:Hrot.
  assert (Hst : w_Status w1 = StatusOK).
  { vm_compute in Hrot. by injection Hrot as <- _. }
  split; [exact Hst|]. exact (H Hst).
Defined.

(** X15: a slice of prices, sorted upwards. *)
Lemma sortBy_sorted_witness :
  sortBy Z.ltb [14500; 9900; 32000; 9900] = [9900; 9900; 14500; 32000]
  ∧ Z.ltb 32000 9900 = false.
Proof.
  split; [vm_compute; reflexivity|].
  apply (sortBy_sorted Z.ltb
           (λ a b H, proj2 (Z.ltb_ge b a) (Z.lt_le_incl a b (proj1 (Z.ltb_lt a b) H)))
           (λ a b c Hba Hcb, proj2 (Z.ltb_ge c a)
                               (Z.le_trans a b c (proj1 (Z.ltb_ge b a) Hba)
                                           (proj1 (Z.ltb_ge c b) Hcb)))
           [14500; 9900; 32000; 9900] 0 3 9900 32000).
  - lia.
  - vm_compute. reflexivity.
  - vm_compute. reflexivity.
Defined.

(** X16: a buyer tries to delete the car that the seller has listed. *)
Lemma delete_only_own_listing_witness :
  let world := Garage.stocked Reference.steadyClock in
  let r := Garage.carRequest "DELETE" "/api/cars/1" "" Garage.buyerClaims in
  let '(out, (_, cs')) := deleteCarHandler Garage.Atoi Garage.newCarWriter r world in
  out = Responded (respondCar Garage.newCarWriter StatusForbidden CarNil
                              "you can only delete your own listings")
  ∧ cs' = snd world
  ∧ is_Some (carStore cs' !! 1).
Proof.
  intros world r.
  pose proof (delete_only_own_listing Garage.Atoi Garage.newCarWriter r
                                      (fst world) (snd world)) as H.
  destruct world as [s cs] eqn:Hworld. cbn [fst snd] in H |- *.
  destruct (deleteCarHandler Garage.Atoi Garage.newCarWriter r (s, cs))
    as [out [s' cs']].
  destruct H as (_ & _ & _ & H & _).
  assert (Hcar : carStore cs !! 1
                 = Some (listed Garage.Format_RFC3339 Garage.civic 1 "seller"
                                (Reference.steadyClock 0))).
  { vm_compute in Hworld. injection Hworld as _ <-. vm_compute. reflexivity. }
  destruct (H Garage.buyerClaims 1 _ eq_refl ltac:(vm_compute; reflexivity) Hcar
              ltac:(vm_compute; discriminate)) as [Hout Hcs].
  split; [exact Hout|]. split; [exact Hcs|]. rewrite Hcs, Hcar. by eexists.
Defined.

(** X17: the seller lists a car with a body that names another seller,
    an identifier, a date and views. *)
Lemma added_listing_owned_by_claims_witness :
  let r := Garage.carRequest "POST" "/api/cars/add" "civic" Garage.sellerClaims in
  let '(out, (s', cs')) :=
    addCarHandler Garage.Price_le_zero Garage.decodeCarListing Garage.Format_RFC3339
                  Reference.steadyClock Garage.newCarWriter r (initState, emptyStore) in
  Seller Garage.civic = "mallory"
  ∧ ∃ w' car, out = Responded w' ∧ cw_Status w' = StatusCreated
              ∧ carStore cs' = {[ 1 := car ]}
              ∧ ID car = 1 ∧ Seller car = "seller" ∧ Views car = 0
              ∧ nextID cs' = 2.
Proof.
  intros r.
  pose proof (added_listing_owned_by_claims Garage.Price_le_zero Garage.decodeCarListing
                Garage.Format_RFC3339 Reference.steadyClock Garage.newCarWriter r
                initState emptyStore Garage.sellerClaims eq_refl) as H.
  cbv zeta in H.
  destruct (addCarHandler _ _ _ _ _ r _) as [out [s' cs']] eqn:Hadd.
  split; [reflexivity|].
  destruct H as (w' & Hout & [(Hst & _)|(Hst & _ & _ & car & _ & Hid & Hseller & Hviews
                                         & Hstore & Hnext & _)]).
  { exfalso. subst out. vm_compute in Hadd. injection Hadd as Hw _ _.
    rewrite <- Hw in Hst. vm_compute in Hst. discriminate. }
  exists w', car. split; [exact Hout|]. split; [exact Hst|].
  split; [rewrite Hstore; reflexivity|].
  split; [exact Hid|]. split; [exact Hseller|]. split; [exact Hviews|].
  rewrite Hnext. reflexivity.
Defined.

(** X18: the seller lists a car, a buyer views it and tries to delete it,
    the seller lists a second car and deletes the first. *)
Lemma car_store_invariant_witness :
  let calls := [Garage.addCivic; Garage.getFirst; Garage.deleteFirst Garage.buyerClaims;
                Garage.addCivic; Garage.deleteFirst Garage.sellerClaims] in
  let '(outs, (_, cs')) := Garage.serve Reference.steadyClock calls (initState, emptyStore) in
  storeOK cs' ∧ nextID cs' = 3 ∧ length outs = 5%nat.
Proof.
  intros calls.
  pose proof (car_store_invariant Garage.Price_le_zero Garage.decodeCarListing Garage.Atoi
                Garage.Format_RFC3339 Reference.steadyClock calls initState emptyStore
                storeOK_emptyStore ltac:(vm_compute; discriminate)) as H.
  unfold Garage.serve.
  destruct (serveCars _ _ _ _ _ calls _) as [outs [s' cs']] eqn:Hrun.
  destruct H as (Hok & _ & Hlen & _).
  split; [exact Hok|]. split; [|exact Hlen].
  vm_compute in Hrun. by injection Hrun as _ _ <-.
Defined.

(** X19: three views of the car that the seller has listed. *)
Lemma views_counted_witness :
  let '(_, r) := Garage.getFirst in
  let '(outs, (_, cs')) :=
    Garage.serve Reference.steadyClock (replicate 3 Garage.getFirst)
                 (Garage.stocked Reference.steadyClock) in
  length outs = 3%nat
  ∧ ∃ car', carStore cs' !! 1 = Some car' ∧ Views car' = 3 ∧ Seller car' = "seller".
Proof.
  cbn [Garage.getFirst].
  pose proof (views_counted Garage.Price_le_zero Garage.decodeCarListing Garage.Atoi
                Garage.Format_RFC3339 Reference.steadyClock 3 Garage.newCarWriter
                (Garage.carRequest "GET" "/api/cars/1" "" Garage.buyerClaims)
                (fst (Garage.stocked Reference.steadyClock))
                (snd (Garage.stocked Reference.steadyClock)) 1
                (listed Garage.Format_RFC3339 Garage.civic 1 "seller"
                        (Reference.steadyClock 0))
                ltac:(vm_compute; reflexivity) ltac:(vm_compute; reflexivity)
                ltac:(vm_compute; discriminate) ltac:(vm_compute; discriminate)) as H.
  unfold Garage.serve, Garage.getFirst.
  destruct (Garage.stocked Reference.steadyClock) as [s cs]. cbn [fst snd] in H.
  destruct (serveCars _ _ _ _ _ _ _) as [outs [s' cs']].
  destruct H as (_ & _ & _ & Hlen & (car' & Hcar & Hviews & Hseller & _) & _).
  split; [exact Hlen|]. exists car'. split; [exact Hcar|]. split; [exact Hviews|exact Hseller].
Defined.


(** X20: the inventory seeded on a server that has just started. *)
Lemma seed_inventory_witness :
  let '(s', cs') := Showroom.seededWorld Reference.steadyClock in
  nextID cs' = 7 ∧ ticks s' = 6%nat
  ∧ ∃ car, carStore cs' !! 3 = Some car
           ∧ ID car = 3 ∧ Make car = "BMW" ∧ Seller car = "demo" ∧ 10 ≤ Views car < 210.
Proof.
  pose proof (seed_inventory Showroom.float_of_Z Garage.Format_RFC3339 Showroom.rand_Intn
                Reference.steadyClock initState
                (λ i, Z.mod_pos_bound (37 * Z.of_nat i + 11) 200 eq_refl)) as H.
  unfold Showroom.seededWorld.
  destruct (seedDemoInventory _ _ _ _ _) as [s' cs'].
  destruct H as (_ & Hnext & Hticks & _ & _ & Hdom & Hcars).
  split; [exact Hnext|]. split; [exact Hticks|].
  destruct (proj2 (Hdom 3) ltac:(lia)) as [car Hcar].
  destruct (Hcars 3 car Hcar) as (Hid & Hseller & Hviews & d & Hd & Hmake & _).
  exists car. split; [exact Hcar|]. split; [exact Hid|]. split; [|by split].
  rewrite Hmake. vm_compute in Hd. by injection Hd as <-.
Defined.

(** X21: after the seeding, the seller lists a car, a buyer views the
    first demo listing, and both try to delete it. *)
Lemma listings_outlive_other_users_witness :
  let '(_, (_, cs')) := Garage.serve Reference.steadyClock Showroom.visits
                                     (Showroom.seededWorld Reference.steadyClock) in
  ∃ car, carStore cs' !! 1 = Some car ∧ Seller car = "demo" ∧ ID car = 1.
Proof.
  pose proof (seedFrom_spec Garage.Format_RFC3339 Showroom.rand_Intn Reference.steadyClock
                (demo Showroom.float_of_Z) 0 initState emptyStore
                storeOK_emptyStore ltac:(vm_compute; discriminate)) as Hseed.
  unfold Showroom.seededWorld, seedDemoInventory, Garage.serve.
  destruct (seedFrom _ _ _ 0 _ _) as [s cs] eqn:Hworld.
  destruct Hseed as (Hok & Hnext & _).
  pose proof (listings_outlive_other_users Garage.Price_le_zero Garage.decodeCarListing
                Garage.Atoi Garage.Format_RFC3339 Reference.steadyClock Showroom.visits
                s cs "demo" Hok) as H.
  destruct (serveCars _ _ _ _ _ Showroom.visits (s, cs)) as [outs [s' cs']].
  destruct (carStore cs !! 1) as [car0|] eqn:Hk.
  2:{ vm_compute in Hworld. injection Hworld as _ <-. vm_compute in Hk. discriminate. }
  assert (Hcar0 : Seller car0 = "demo" ∧ ID car0 = 1).
  { vm_compute in Hworld. injection Hworld as _ <-. vm_compute in Hk.
    injection Hk as <-. by split. }
  destruct Hcar0 as [Hu Hid0].
  destruct (H ltac:(rewrite Hnext; vm_compute; discriminate)
              ltac:(repeat constructor; vm_compute; intros c [= <-]; discriminate)
              1 car0 Hk Hu) as (car1 & Hk1 & Hu1 & Hid1 & _).
  exists car1. split; [exact Hk1|]. split; [exact Hu1|]. by rewrite Hid1.
Defined.
